(** * Yakuza GMT Blender add-on: coordinate conversion, curve merge, curve export

    A shallow embedding of [blender/coordinate_converter.py],
    [blender/importer.py] ([add_curve], [merge_vector], the camera
    importer's [convert_cam_to_blender] and the sampling loop of
    [animate_camera]) and [blender/exporter.py] ([GMTExporter.make_bone],
    [make_curve], [correct_pattern] and the exporter's own transforms).

    Numbers.  [mathutils] values (Vector, Quaternion, Matrix) are modelled
    over the real numbers: rounding is not part of the model, so an equation
    proved here is the exact algebraic identity behind the code.  The
    location transforms are given a second time in single precision
    ([Float32]), to see what rounding does to their round trip.  Samples
    read from Blender F-curves ([keyframe_points.co]) are rationals, so that
    Python's [int(...)] and the comparison with 17 compute.  Frames are
    integers.

    Errors.  A Python exception is a value [Err e] of type [result]. *)

From Stdlib Require Import Reals Lra Lia ZArith QArith List Bool Sorted.
From Stdlib Require SpecFloat.
From stdpp Require Import base option list gmap strings pretty.

Import ListNotations.

(** ** Python exceptions and the error monad *)

Module Py.

Inductive exn : Type :=
| IndexError
| KeyError
| ZeroDivisionError
| ValueError
| TypeError
| AttributeError
| RuntimeError
| Exception (msg : string).

Inductive result (A : Type) : Type :=
| Ok (a : A)
| Err (e : exn).
Arguments Ok {A} a.
Arguments Err {A} e.

Definition bind {A B : Type} (r : result A) (k : A -> result B) : result B :=
  match r with
  | Ok a => k a
  | Err e => Err e
  end.

Definition fmap {A B : Type} (f : A -> B) (r : result A) : result B :=
  bind r (fun a => Ok (f a)).

(** [xs[i]] for a non-negative index. *)
Definition index {A : Type} (xs : list A) (i : nat) : result A :=
  match nth_error xs i with
  | Some x => Ok x
  | None => Err IndexError
  end.

(** [xs[0]] and [xs[-1]]. *)
Definition first {A : Type} (xs : list A) : result A := index xs 0.

Definition last {A : Type} (xs : list A) : result A :=
  match xs with
  | [] => Err IndexError
  | x :: xs' => Ok (List.last xs' x)
  end.

(** [xs.insert(i, x)] for a non-negative index: never raises, appends
    when [i] is past the end. *)
Definition insert {A : Type} (i : nat) (x : A) (xs : list A) : list A :=
  firstn i xs ++ x :: skipn i xs.

(** [range(n)] for an integer [n]: empty when [n <= 0]. *)
Definition range (n : Z) : list Z :=
  List.map Z.of_nat (seq 0 (Z.to_nat n)).

(** [next(it, default)] where the iterator is given by the list of the
    items it would yield. *)
Definition next {A : Type} (it : list A) (default : A) : A :=
  match it with
  | [] => default
  | x :: _ => x
  end.

(** [for x in xs: st = body(st, x)] with exceptions. *)
Fixpoint for_each {S A : Type} (body : S -> A -> result S) (xs : list A) (st : S)
  : result S :=
  match xs with
  | [] => Ok st
  | x :: xs' => bind (body st x) (for_each body xs')
  end.

(** [list(map(f, xs))] where [f] may raise. *)
Fixpoint map_result {A B : Type} (f : A -> result B) (xs : list A) : result (list B) :=
  match xs with
  | [] => Ok []
  | x :: xs' => bind (f x) (fun y => fmap (cons y) (map_result f xs'))
  end.

End Py.

Import Py.

#[global] Instance result_ret : MRet result := fun _ a => Ok a.
#[global] Instance result_bind : MBind result := fun _ _ k r => Py.bind r k.
#[global] Instance result_fmap : FMap result := fun _ _ f r => Py.fmap f r.

(** ** The parts of [mathutils] the add-on uses *)

Module Mathutils.

Local Open Scope R_scope.

(** [Vector]: three components, [Vector()] is the zero vector. *)
Record Vector : Type := mkVector { vx : R; vy : R; vz : R }.

Definition Vector_zero : Vector := mkVector 0 0 0.

Definition vadd (a b : Vector) : Vector :=
  mkVector (vx a + vx b) (vy a + vy b) (vz a + vz b).

Definition vsub (a b : Vector) : Vector :=
  mkVector (vx a - vx b) (vy a - vy b) (vz a - vz b).

(** [Vector.lerp(other, factor)]. *)
Definition vlerp (a b : Vector) (f : R) : Vector :=
  mkVector ((1 - f) * vx a + f * vx b)
           ((1 - f) * vy a + f * vy b)
           ((1 - f) * vz a + f * vz b).

(** [Quaternion]: components in the order (w, x, y, z), so that [q[0]] is
    [qw] and [q[3]] is [qz]; [Quaternion()] is the identity rotation. *)
Record Quaternion : Type := mkQuaternion { qw : R; qx : R; qy : R; qz : R }.

Definition Quaternion_identity : Quaternion := mkQuaternion 1 0 0 0.

(** [a @ b]: the Hamilton product. *)
Definition qmul (a b : Quaternion) : Quaternion :=
  mkQuaternion
    (qw a * qw b - qx a * qx b - qy a * qy b - qz a * qz b)
    (qw a * qx b + qx a * qw b + qy a * qz b - qz a * qy b)
    (qw a * qy b + qy a * qw b + qz a * qx b - qx a * qz b)
    (qw a * qz b + qz a * qw b + qx a * qy b - qy a * qx b).

Definition qdot (a b : Quaternion) : R :=
  qw a * qw b + qx a * qx b + qy a * qy b + qz a * qz b.

Definition qconjugated (q : Quaternion) : Quaternion :=
  mkQuaternion (qw q) (- qx q) (- qy q) (- qz q).

(** [Quaternion.inverted()]: conjugate over squared length; the zero
    quaternion is returned as it is. *)
Definition qinverted (q : Quaternion) : Quaternion :=
  let f := qdot q q in
  if Req_dec_T f 0 then q
  else let c := qconjugated q in
       mkQuaternion (qw c * (1 / f)) (qx c * (1 / f)) (qy c * (1 / f)) (qz c * (1 / f)).

Definition is_unit (q : Quaternion) : Prop := qdot q q = 1.

(** Matrices, row by row: [m_ij] is row [i], column [j]. *)
Record Matrix3 : Type := mkMatrix3 {
  a00 : R; a01 : R; a02 : R;
  a10 : R; a11 : R; a12 : R;
  a20 : R; a21 : R; a22 : R }.

Record Matrix4 : Type := mkMatrix4 {
  m00 : R; m01 : R; m02 : R; m03 : R;
  m10 : R; m11 : R; m12 : R; m13 : R;
  m20 : R; m21 : R; m22 : R; m23 : R;
  m30 : R; m31 : R; m32 : R; m33 : R }.

Definition entry (m : Matrix4) (i j : nat) : R :=
  match i, j with
  | 0%nat, 0%nat => m00 m | 0%nat, 1%nat => m01 m | 0%nat, 2%nat => m02 m | 0%nat, _ => m03 m
  | 1%nat, 0%nat => m10 m | 1%nat, 1%nat => m11 m | 1%nat, 2%nat => m12 m | 1%nat, _ => m13 m
  | 2%nat, 0%nat => m20 m | 2%nat, 1%nat => m21 m | 2%nat, 2%nat => m22 m | 2%nat, _ => m23 m
  | _, 0%nat => m30 m | _, 1%nat => m31 m | _, 2%nat => m32 m | _, _ => m33 m
  end.

Definition build (f : nat -> nat -> R) : Matrix4 :=
  (mkMatrix4 (f 0 0) (f 0 1) (f 0 2) (f 0 3)
             (f 1 0) (f 1 1) (f 1 2) (f 1 3)
             (f 2 0) (f 2 1) (f 2 2) (f 2 3)
             (f 3 0) (f 3 1) (f 3 2) (f 3 3))%nat.

Definition Matrix_identity : Matrix4 :=
  mkMatrix4 1 0 0 0  0 1 0 0  0 0 1 0  0 0 0 1.

(** [a @ b] on 4x4 matrices. *)
Definition mmul (a b : Matrix4) : Matrix4 :=
  build (fun i j =>
           entry a i 0%nat * entry b 0%nat j + entry a i 1%nat * entry b 1%nat j
           + entry a i 2%nat * entry b 2%nat j + entry a i 3%nat * entry b 3%nat j).

(** [Quaternion.to_matrix()]: the library forms the products of the
    components scaled by the square root of two; over the reals these are
    twice the products of the components. *)
Definition to_matrix (q : Quaternion) : Matrix3 :=
  let (w, x, y, z) := q in
  mkMatrix3
    (1 - 2 * (y * y) - 2 * (z * z)) (2 * (x * y) - 2 * (w * z)) (2 * (w * y) + 2 * (x * z))
    (2 * (w * z) + 2 * (x * y)) (1 - 2 * (x * x) - 2 * (z * z)) (2 * (y * z) - 2 * (w * x))
    (2 * (x * z) - 2 * (w * y)) (2 * (w * x) + 2 * (y * z)) (1 - 2 * (x * x) - 2 * (y * y)).

(** [Matrix.to_4x4()] of a 3x3 matrix. *)
Definition to_4x4 (m : Matrix3) : Matrix4 :=
  mkMatrix4 (a00 m) (a01 m) (a02 m) 0
            (a10 m) (a11 m) (a12 m) 0
            (a20 m) (a21 m) (a22 m) 0
            0 0 0 1.

(** [Matrix.Translation(v)] and [Matrix.to_translation()]. *)
Definition Translation (v : Vector) : Matrix4 :=
  mkMatrix4 1 0 0 (vx v)  0 1 0 (vy v)  0 0 1 (vz v)  0 0 0 1.

Definition to_translation (m : Matrix4) : Vector :=
  mkVector (m03 m) (m13 m) (m23 m).

Definition det3 (a b c d e f g h i : R) : R :=
  a * (e * i - f * h) - b * (d * i - f * g) + c * (d * h - e * g).

(** The row or column index that comes [k]-th once index [i] is struck out. *)
Definition skip (i k : nat) : nat := if (k <? i)%nat then k else S k.

Definition minor (m : Matrix4) (i j : nat) : R :=
  (det3 (entry m (skip i 0) (skip j 0)) (entry m (skip i 0) (skip j 1)) (entry m (skip i 0) (skip j 2))
        (entry m (skip i 1) (skip j 0)) (entry m (skip i 1) (skip j 1)) (entry m (skip i 1) (skip j 2))
        (entry m (skip i 2) (skip j 0)) (entry m (skip i 2) (skip j 1)) (entry m (skip i 2) (skip j 2)))%nat.

Definition cofactor (m : Matrix4) (i j : nat) : R :=
  if Nat.even (i + j) then minor m i j else - minor m i j.

Definition determinant (m : Matrix4) : R :=
  entry m 0%nat 0%nat * cofactor m 0%nat 0%nat + entry m 0%nat 1%nat * cofactor m 0%nat 1%nat
  + entry m 0%nat 2%nat * cofactor m 0%nat 2%nat + entry m 0%nat 3%nat * cofactor m 0%nat 3%nat.

(** [Matrix.inverted()]: the adjugate over the determinant; a matrix
    without an inverse raises [ValueError]. *)
Definition inverted (m : Matrix4) : result Matrix4 :=
  let d := determinant m in
  if Req_dec_T d 0 then Err ValueError
  else Ok (build (fun i j => cofactor m j i / d)).

End Mathutils.

Import Mathutils.

(** Python's float division [a / b]: a zero divisor raises. *)
Definition truediv (a b : R) : result R :=
  if Req_dec_T b 0 then Err ZeroDivisionError else Ok (a / b)%R.

(** ** Bone descriptors *)

Module BoneProps.

(** Modelled from the spec: [GMTBlenderBoneProps] of [blender/bone_props.py],
    which is not among the sources.  A descriptor holds the rest-pose head,
    the optional parent name, the rest translation [loc], the rest rotation
    [rot] and the local rest rotation [rot_local]; [GMTBlenderBoneProps()]
    is the identity descriptor (head zero, rotations identity, no parent). *)
Record GMTBlenderBoneProps : Type := mkProps {
  head : Vector;
  parent_name : option string;
  loc : Vector;
  rot : Quaternion;
  rot_local : Quaternion }.

Definition GMTBlenderBoneProps_default : GMTBlenderBoneProps :=
  mkProps Vector_zero None Vector_zero Quaternion_identity Quaternion_identity.

End BoneProps.

Import BoneProps.

(** ** [blender/coordinate_converter.py] *)

Module CoordinateConverter.

Local Open Scope R_scope.

(** Engine-side values are plain tuples; editor-side values are
    [mathutils] objects. *)
Definition Tuple3 : Type := R * R * R.
Definition Tuple4 : Type := R * R * R * R.

Definition pos_to_blender (pos : Tuple3) : Vector :=
  let '(p0, p1, p2) := pos in mkVector (- p0) p2 p1.

Definition pos_from_blender (pos : Vector) : Tuple3 :=
  (- vx pos, vz pos, vy pos).

Definition rot_to_blender (rot : Tuple4) : Quaternion :=
  let '(r0, r1, r2, r3) := rot in mkQuaternion r3 (- r0) r2 r1.

Definition rot_from_blender (rot : Quaternion) : Tuple4 :=
  (- qx rot, qz rot, qy rot, qw rot).

(** A Python tuple of one element, [(x,)]. *)
Inductive Tuple1 (A : Type) : Type := tuple1 (x : A).
Arguments tuple1 {A} x.

Definition pattern1_to_blender {A : Type} (pattern : list (A * A)) : list (Tuple1 A) :=
  List.map (fun x => tuple1 (fst x)) pattern.

(** [[pattern, pattern[1:] + [pattern[-1]]]]: a list of two lists, the
    codes and the codes that follow them. *)
Definition pattern1_from_blender {A : Type} (pattern : list A) : result (list (list A)) :=
  l ← Py.last pattern;
  mret [pattern; List.tl pattern ++ [l]].

Definition pattern2_to_blender {A : Type} (pattern : list A) : list A := pattern.

Definition pattern2_from_blender {A : Type} (pattern : list A) : list A := pattern.

Definition fov_to_blender (fov sensor_height : R) : result R :=
  h ← truediv sensor_height 2;
  a ← truediv fov 2;
  truediv h (tan a).

Definition fov_from_blender (fov sensor_height : R) : result R :=
  r ← truediv sensor_height (2 * fov);
  mret (2 * atan r).

(** [bone_props.get(bone_name, GMTBlenderBoneProps())]. *)
Definition get_props (bone_props : gmap string GMTBlenderBoneProps) (bone_name : string)
  : GMTBlenderBoneProps :=
  default GMTBlenderBoneProps_default (bone_props !! bone_name).

(** [bone_props.get(prop.parent_name)]: [None] when there is no such bone. *)
Definition get_parent (bone_props : gmap string GMTBlenderBoneProps)
           (prop : GMTBlenderBoneProps) : option GMTBlenderBoneProps :=
  parent_name prop ≫= (fun n => bone_props !! n).

Definition parent_head_of (bone_props : gmap string GMTBlenderBoneProps)
           (prop : GMTBlenderBoneProps) : Vector :=
  match get_parent bone_props prop with
  | Some parent => head parent
  | None => Vector_zero
  end.

Definition parent_rot_of (bone_props : gmap string GMTBlenderBoneProps)
           (prop : GMTBlenderBoneProps) : Quaternion :=
  match get_parent bone_props prop with
  | Some parent => rot_local parent
  | None => Quaternion_identity
  end.

Definition transform_location_to_blender
           (bone_props : gmap string GMTBlenderBoneProps) (bone_name : string)
           (values : list Vector) : result (list Vector) :=
  let prop := get_props bone_props bone_name in
  let head := head prop in
  let parent_head := parent_head_of bone_props prop in
  let loc := loc prop in
  let rot := rot prop in
  pre_mat ← (tl ← inverted (Translation loc);
             rt ← inverted (to_4x4 (to_matrix rot));
             mret (mmul tl rt));
  let post_mat := mmul (to_4x4 (to_matrix rot)) (Translation loc) in
  mret (List.map
          (fun x => to_translation
                      (mmul (mmul pre_mat (Translation (vadd (vsub x head) parent_head)))
                            post_mat))
          values).

Definition transform_rotation_to_blender
           (bone_props : gmap string GMTBlenderBoneProps) (bone_name : string)
           (values : list Quaternion) : list Quaternion :=
  let prop := get_props bone_props bone_name in
  let parent_rot := parent_rot_of bone_props prop in
  let rot := rot prop in
  let rot_local := rot_local prop in
  let pre_quat := qmul (qinverted rot) parent_rot in
  let post_quat := qmul (qmul (qinverted rot_local) (qinverted parent_rot)) rot in
  List.map (fun x => qmul (qmul pre_quat x) post_quat) values.

Definition transform_location_from_blender
           (bone_props : gmap string GMTBlenderBoneProps) (bone_name : string)
           (values : list Vector) : result (list Tuple3) :=
  let prop := get_props bone_props bone_name in
  let head := head prop in
  let parent_head := parent_head_of bone_props prop in
  let loc := loc prop in
  let rot := rot prop in
  let pre_mat := mmul (to_4x4 (to_matrix rot)) (Translation loc) in
  post_mat ← (tl ← inverted (Translation loc);
              rt ← inverted (to_4x4 (to_matrix rot));
              mret (mmul tl rt));
  mret (List.map
          (fun x => pos_from_blender
                      (vsub (vadd (to_translation
                                     (mmul (mmul pre_mat (Translation x)) post_mat))
                                  head)
                            parent_head))
          values).

Definition transform_rotation_from_blender
           (bone_props : gmap string GMTBlenderBoneProps) (bone_name : string)
           (values : list Quaternion) : list Tuple4 :=
  let prop := get_props bone_props bone_name in
  let parent_rot := parent_rot_of bone_props prop in
  let rot := rot prop in
  let rot_local := rot_local prop in
  let pre_quat := qmul (qinverted parent_rot) rot in
  let post_quat := qmul (qmul (qinverted rot) parent_rot) rot_local in
  List.map (fun x => rot_from_blender (qmul (qmul pre_quat x) post_quat)) values.

End CoordinateConverter.

Import CoordinateConverter.

(** ** The curve model of [gmt_lib] *)

Module GmtLib.

Inductive GMTCurveType : Type := LOCATION | ROTATION | PATTERN_HAND.

Inductive GMTVectorVersion : Type := NO_VECTOR | OLD_VECTOR | DRAGON_VECTOR.

#[global] Instance GMTCurveType_eq_dec : EqDecision GMTCurveType.
Proof. solve_decision. Defined.

#[global] Instance GMTVectorVersion_eq_dec : EqDecision GMTVectorVersion.
Proof. solve_decision. Defined.

(** [GMTKeyframe(frame, value)]. *)
Record GMTKeyframe (V : Type) : Type := mkKeyframe { frame : Z; value : V }.
Arguments mkKeyframe {V} frame value.
Arguments frame {V} _.
Arguments value {V} _.

(** A curve is its type and its keyframes; the values of a curve are of
    the variant its type names (vectors once a location curve is
    converted, quaternions for a rotation curve, code lists for a
    pattern curve).  [GMTCurve(t)] has no keyframes. *)
Inductive GMTCurve : Type :=
| LocationCurve (keyframes : list (GMTKeyframe Vector))
| RotationCurve (keyframes : list (GMTKeyframe Quaternion))
| PatternHandCurve (keyframes : list (GMTKeyframe (list Z))).

Definition curve_type (c : GMTCurve) : GMTCurveType :=
  match c with
  | LocationCurve _ => LOCATION
  | RotationCurve _ => ROTATION
  | PatternHandCurve _ => PATTERN_HAND
  end.

Definition GMTCurve_new (t : GMTCurveType) : GMTCurve :=
  match t with
  | LOCATION => LocationCurve []
  | ROTATION => RotationCurve []
  | PATTERN_HAND => PatternHandCurve []
  end.

Definition frames_of {V : Type} (keyframes : list (GMTKeyframe V)) : list Z :=
  List.map frame keyframes.

Definition curve_frames (c : GMTCurve) : list Z :=
  match c with
  | LocationCurve k => frames_of k
  | RotationCurve k => frames_of k
  | PatternHandCurve k => frames_of k
  end.

(** Modelled from the spec: [GMTCurve.get_end_frame] of [gmt_lib], which is
    not among the sources.  It is the curve's last frame, the frame of its
    last keyframe; [add_curve] calls it only on curves that do have
    keyframes, and the model gives 0 for a curve without any. *)
Definition get_end_frame {V : Type} (keyframes : list (GMTKeyframe V)) : Z :=
  match keyframes with
  | [] => 0
  | k :: ks => frame (List.last ks k)
  end.

(** The two curves of a bone that [merge_vector] works on. *)
Record GMTBone : Type := mkBone { location : GMTCurve; rotation : GMTCurve }.

End GmtLib.

Import GmtLib.

(** ** [blender/importer.py]: [add_curve] and [merge_vector] *)

Module Importer.

Local Open Scope Z_scope.

(** A Python [dict] keyed by frames: the items in insertion order. *)
Definition dict (V : Type) : Type := list (Z * V).

(** [d[k] = v]: an existing key keeps its place and takes the new value. *)
Fixpoint dict_set {V : Type} (d : dict V) (k : Z) (v : V) : dict V :=
  match d with
  | [] => [(k, v)]
  | (k', v') :: d' => if k' =? k then (k', v) :: d' else (k', v') :: dict_set d' k v
  end.

(** [{kf.frame: kf.value for kf in keyframes}]. *)
Definition dict_of_keyframes {V : Type} (keyframes : list (GMTKeyframe V)) : dict V :=
  fold_left (fun d kf => dict_set d (frame kf) (value kf)) keyframes [].

(** [d.get(k)]. *)
Fixpoint dict_get {V : Type} (d : dict V) (k : Z) : option V :=
  match d with
  | [] => None
  | (k', v') :: d' => if k' =? k then Some v' else dict_get d' k
  end.

(** [d[k]]. *)
Definition dict_item {V : Type} (d : dict V) (k : Z) : result V :=
  match dict_get d k with
  | Some v => Ok v
  | None => Err KeyError
  end.

Definition dict_keys {V : Type} (d : dict V) : list Z := List.map fst d.

Section AddCurve.

Context {V : Type}.
(** The closures [add] and [lerp] that [add_curve] picks by curve type. *)
Variable add : V -> V -> V.
Variable lerp : V -> V -> R -> V.

(** The value at a frame [i] that holds no keyframe of the curve:
    [less] is the last key below [i] (or the first keyframe's frame),
    [more] the first key above [i] (or the last keyframe's frame). *)
Definition interpolate_at (d : dict V) (d_min d_max : Z) (i : Z) : result V :=
  let less := Py.next (List.filter (fun k => k <? i) (rev (dict_keys d))) d_min in
  let more := Py.next (List.filter (fun k => k >? i) (dict_keys d)) d_max in
  if negb (less =? more) then
    a ← dict_item d less;
    b ← dict_item d more;
    f ← truediv (IZR (i - less)) (IZR (more - less));
    mret (lerp a b f)
  else dict_item d less.

Definition value_at (d : dict V) (d_min d_max : Z) (i : Z) : result V :=
  match dict_get d i with
  | Some v => Ok v
  | None => interpolate_at d d_min d_max i
  end.

(** The body of [add_curve] from [result = list()] on; [curve] already
    holds its seed keyframe when it had none. *)
Definition add_keyframes (curve other : list (GMTKeyframe V))
  : result (list (GMTKeyframe V)) :=
  let curve_dict := dict_of_keyframes curve in
  c_first ← Py.first curve;
  c_last ← Py.last curve;
  let curve_min := frame c_first in
  let curve_max := frame c_last in
  let other_dict := dict_of_keyframes other in
  o_first ← Py.first other;
  o_last ← Py.last other;
  let other_min := frame o_first in
  let other_max := frame o_last in
  Py.for_each
    (fun acc i =>
       match dict_get curve_dict i, dict_get other_dict i with
       | None, None => Ok acc
       | _, _ =>
           v1 ← value_at curve_dict curve_min curve_max i;
           v2 ← value_at other_dict other_min other_max i;
           mret (acc ++ [mkKeyframe i (add v1 v2)])
       end)
    (Py.range (Z.max (get_end_frame curve) (get_end_frame other) + 1))
    [].

(** [if len(curve.keyframes) == 0: curve.keyframes.append(GMTKeyframe(0, identity))]. *)
Definition seed (identity : V) (keyframes : list (GMTKeyframe V))
  : list (GMTKeyframe V) :=
  if (length keyframes =? 0)%nat then keyframes ++ [mkKeyframe 0 identity]
  else keyframes.

End AddCurve.

Section Merge.

(** [Quaternion.slerp] of [mathutils]; what it computes plays no part
    in which frames a merge keeps. *)
Variable slerp : Quaternion -> Quaternion -> R -> Quaternion.

(** [add_curve(curve, other)]: the result is the curve that [curve]
    has become. *)
Definition add_curve (curve other : GMTCurve) : result GMTCurve :=
  if negb (bool_decide (curve_type curve = curve_type other)) then
    Err (Exception "Curves with different types cannot be added")
  else
    match curve, other with
    | LocationCurve ck, LocationCurve ok =>
        LocationCurve <$> add_keyframes vadd vlerp (seed Vector_zero ck) ok
    | RotationCurve ck, RotationCurve ok =>
        RotationCurve <$> add_keyframes qmul slerp (seed Quaternion_identity ck) ok
    | _, _ => Err (Exception "Incompatible curve type for addition")
    end.

Definition adds_vector (vector_version : GMTVectorVersion) (is_auth : bool) : bool :=
  (bool_decide (vector_version = OLD_VECTOR) && negb is_auth)
  || bool_decide (vector_version = DRAGON_VECTOR).

(** [merge_vector]: the bones after the call, [None] for a bone the
    animation does not have. *)
Definition merge_vector (center_bone vector_bone : option GMTBone)
           (vector_version : GMTVectorVersion) (is_auth : bool)
  : result (option GMTBone * option GMTBone) :=
  match center_bone, vector_bone with
  | Some center, Some vector =>
      if bool_decide (vector_version = NO_VECTOR) then Ok (center_bone, vector_bone)
      else
        center' ← (if adds_vector vector_version is_auth then
                     l ← add_curve (location center) (location vector);
                     r ← add_curve (rotation center) (rotation vector);
                     mret (mkBone l r)
                   else mret center);
        mret (Some center',
              Some (mkBone (GMTCurve_new LOCATION) (GMTCurve_new ROTATION)))
  | _, _ => Ok (center_bone, vector_bone)
  end.

End Merge.

End Importer.

Import Importer.

(** ** [blender/exporter.py]: [GMTExporter.make_curve] and what it calls *)

Module Exporter.

(** A keyframe point of a Blender F-curve: [co] is (frame, value),
    [interpolation] the index of the interpolation mode, 0 for
    ['CONSTANT']. *)
Record KeyframePoint : Type := mkPoint { co : Q * Q; interpolation : Z }.

(** An F-curve is its [keyframe_points]. *)
Abbreviation FCurve := (list KeyframePoint).

Inductive CurveFormat : Type :=
| POS_VEC3
| ROT_QUAT_SCALED
| ROT_QUAT_HALF_FLOAT
| PAT1_LEFT_HAND
| PAT1_RIGHT_HAND.

(** [curve.values]: engine-side positions, engine-side rotations, or
    [[start, end]] pattern pairs; [NoValues] before any assignment. *)
Inductive CurveValues : Type :=
| NoValues
| Positions (vs : list Tuple3)
| Rotations (vs : list Tuple4)
| Patterns (vs : list (Z * Z)).

Record Graph : Type := mkGraph { keyframes : list Z; delimiter : Z }.

Record Curve : Type := mkCurve {
  curve_format : CurveFormat;
  graph : Graph;
  values : CurveValues }.

(** The exporter's fields that [make_curve] reads. *)
Record GMTExporter : Type := mkExporter {
  bone_props : gmap string GMTBlenderBoneProps;
  is_dragon_engine : bool }.

(** Python's [int(x)] of a float: truncation towards zero. *)
Definition py_int (x : Q) : Z := Z.quot (Qnum x) (Zpos (Qden x)).

(** [keyframe_points.foreach_get("co", buf)]: the flat list
    [f0, v0, f1, v1, ...]. *)
Definition foreach_get_co (fc : FCurve) : list Q :=
  flat_map (fun p => [fst (co p); snd (co p)]) fc.

(** [keyframe_points.foreach_get("interpolation", buf)]: an empty buffer
    is left as it is, whatever the F-curve holds; any other buffer must
    have one slot per keyframe point, or Blender raises [RuntimeError]. *)
Definition foreach_get_interpolation (fc : FCurve) (buf : list bool) : result (list Z) :=
  match buf with
  | [] => Ok []
  | _ :: _ =>
      if (length buf =? length fc)%nat then Ok (List.map interpolation fc)
      else Err RuntimeError
  end.

(** [xs[::2]] and [xs[1:][::2]]. *)
Fixpoint every_other {A : Type} (xs : list A) : list A :=
  match xs with
  | [] => []
  | x :: xs' => x :: match xs' with
                     | [] => []
                     | _ :: xs'' => every_other xs''
                     end
  end.

Definition frames_slice {A : Type} (xs : list A) : list A := every_other xs.
Definition values_slice {A : Type} (xs : list A) : list A := every_other (List.tl xs).

(** [map(f, xs, ys)], [map(f, xs, ys, zs)] and [map(f, ws, xs, ys, zs)]
    stop with the shortest list. *)
Fixpoint map2 {A B C : Type} (f : A -> B -> C) (xs : list A) (ys : list B) : list C :=
  match xs, ys with
  | x :: xs', y :: ys' => f x y :: map2 f xs' ys'
  | _, _ => []
  end.

Fixpoint map3 {A B C D : Type} (f : A -> B -> C -> D)
         (xs : list A) (ys : list B) (zs : list C) : list D :=
  match xs, ys, zs with
  | x :: xs', y :: ys', z :: zs' => f x y z :: map3 f xs' ys' zs'
  | _, _, _ => []
  end.

Fixpoint map4 {A B C D E : Type} (f : A -> B -> C -> D -> E)
         (ws : list A) (xs : list B) (ys : list C) (zs : list D) : list E :=
  match ws, xs, ys, zs with
  | w :: ws', x :: xs', y :: ys', z :: zs' => f w x y z :: map4 f ws' xs' ys' zs'
  | _, _, _, _ => []
  end.

(** [correct_pattern]: [0 if x > 17 else x]. *)
Definition correct_pattern (pattern : list Q) : list Q :=
  List.map (fun x => if Qlt_le_dec 17 x then 0%Q else x) pattern.

Section Transforms.

(** [Matrix.to_quaternion] of [mathutils], used by the exporter's own
    rotation transform only. *)
Variable to_quaternion : Matrix4 -> Quaternion.

Variable self : GMTExporter.

(** [self.bone_props[bone_name]]. *)
Definition props_item (bone_name : string) : result GMTBlenderBoneProps :=
  match bone_props self !! bone_name with
  | Some p => Ok p
  | None => Err KeyError
  end.

Definition transform_location (bone_name : string) (vs : list Vector)
  : result (list Tuple3) :=
  prop ← props_item bone_name;
  let head := head prop in
  let parent_head := parent_head_of (bone_props self) prop in
  let rot := rot prop in
  let out :=
    List.map (fun x => pos_from_blender
                         (vsub (vadd (to_translation
                                        (mmul (to_4x4 (to_matrix rot)) (Translation x)))
                                     head)
                               parent_head))
             vs in
  (* print(values[0]) *)
  _ ← Py.index out 0;
  mret out.

Definition transform_rotation (bone_name : string) (vs : list Quaternion)
  : result (list Tuple4) :=
  prop ← props_item bone_name;
  let rot := rot prop in
  let rot_local := rot_local prop in
  Py.map_result
    (fun x =>
       inv ← inverted (to_4x4 (to_matrix rot));
       mret (rot_from_blender
               (to_quaternion
                  (mmul (mmul (mmul (to_4x4 (to_matrix rot_local))
                                    (to_4x4 (to_matrix rot)))
                              (to_4x4 (to_matrix x)))
                        inv))))
    vs.

(** The loop that applies constant interpolation by duplicating
    keyframes; the state is [(values, keyframes, j)]. *)
Definition duplicate_step {A : Type} (pol : list bool)
           (st : list A * list Z * nat) (i : nat) : result (list A * list Z * nat) :=
  let '(vals, kfs, j) := st in
  let k := (i + j)%nat in
  p ← Py.index pol i;
  if (p : bool) then
    f1 ← Py.index kfs (k + 1);
    f0 ← Py.index kfs k;
    if (f1 - f0 >? 1)%Z then
      v ← Py.index vals k;
      let vals' := Py.insert (k + 1) v vals in
      f1' ← Py.index kfs (k + 1);
      mret (vals', Py.insert (k + 1) (f1' - 1)%Z kfs, S j)
    else mret st
  else mret st.

Definition duplicate_constant {A : Type} (pol : list bool)
           (vals : list A) (kfs : list Z) : result (list A * list Z) :=
  st ← Py.for_each (duplicate_step pol) (seq 0 (length pol - 1)) (vals, kfs, 0%nat);
  mret (fst st).

(** [pol]: per keyframe point, whether every axis is constant there. *)
Definition constant_flags (fcurves : gmap string FCurve) (axes : list string)
  : result (list bool) :=
  a0 ← Py.index axes 0;
  fc0 ← match fcurves !! a0 with Some fc => Ok fc | None => Err KeyError end;
  let pol := repeat true (length fc0) in
  let axis_pol := pol in
  Py.for_each
    (fun pol axis =>
       fc ← match fcurves !! axis with Some fc => Ok fc | None => Err KeyError end;
       ip ← foreach_get_interpolation fc axis_pol;
       mret (map2 (fun a b => a && (b =? 0)%Z) pol ip))
    axes pol.

(** [make_curve].  [make_bone] calls it with three axes (location), four
    (rotation) or one (a hand pattern); with another number of axes
    [curve.values] is never assigned.  The [pattern_from_blender] that the
    exporter imports is the converter's [pattern1_from_blender]. *)
Definition make_curve (fcurves : gmap string FCurve) (axes : list string)
           (curve_format : CurveFormat) (group_name : string) : result Curve :=
  axes_co ← Py.map_result
              (fun axis =>
                 fc ← match fcurves !! axis with Some fc => Ok fc | None => Err KeyError end;
                 mret (foreach_get_co fc))
              axes;
  co0 ← Py.index axes_co 0;
  let kfs := List.map py_int (frames_slice co0) in
  '(vals, interpolate) ←
    match axes_co with
    | [cx; cy; cz] =>
        (* Position vector *)
        vs ← transform_location group_name
               (map3 (fun x y z => mkVector (Q2R x) (Q2R y) (Q2R z))
                     (values_slice cx) (values_slice cy) (values_slice cz));
        mret (Positions vs, true)
    | [cw; cx; cy; cz] =>
        (* Rotation quaternion *)
        vs ← transform_rotation group_name
               (map4 (fun w x y z => mkQuaternion (Q2R w) (Q2R x) (Q2R y) (Q2R z))
                     (values_slice cw) (values_slice cx) (values_slice cy)
                     (values_slice cz));
        mret (Rotations vs, true)
    | [c] =>
        (* Pat1 *)
        let codes := values_slice c in
        let codes := if negb (is_dragon_engine self) then correct_pattern codes
                     else codes in
        cols ← pattern1_from_blender codes;
        starts ← Py.index cols 0;
        ends ← Py.index cols 1;
        mret (Patterns (map2 (fun s e => (py_int s, py_int e)) starts ends), false)
    | _ => mret (NoValues, true)
    end;
  if (interpolate : bool) then
    (* Apply constant interpolation by duplicating keyframes *)
    pol ← constant_flags fcurves axes;
    match vals with
    | Positions vs =>
        '(vs', kfs') ← duplicate_constant pol vs kfs;
        mret (mkCurve curve_format (mkGraph kfs' (-1)) (Positions vs'))
    | Rotations vs =>
        '(vs', kfs') ← duplicate_constant pol vs kfs;
        mret (mkCurve curve_format (mkGraph kfs' (-1)) (Rotations vs'))
    | _ => Err AttributeError
    end
  else mret (mkCurve curve_format (mkGraph kfs (-1)) vals).

End Transforms.

End Exporter.

Import Exporter.

(** ** The location transforms in single precision

    [mathutils] keeps the components of its vectors, quaternions and
    matrices as C [float] values and computes on them in single precision.
    The definitions of this section are those of [Mathutils] and of the
    location transforms of [CoordinateConverter] again, operation by
    operation, with every arithmetic operation rounded to IEEE 754 binary32
    (24 bits of precision, round to nearest even), as specified by the
    Standard Library's [SpecFloat].  The order in which the library rounds
    inside [to_matrix], [determinant] and [inverted] is not fixed by the
    add-on's source; here they follow the formulas of [Mathutils] term by
    term.  On the identity rotation and the zero translation every operation
    in them is exact, whatever the order. *)

Module Float32.

Definition float : Type := SpecFloat.spec_float.

Definition prec : Z := 24.
Definition emax : Z := 128.

Definition add : float -> float -> float := SpecFloat.SFadd prec emax.
Definition sub : float -> float -> float := SpecFloat.SFsub prec emax.
Definition mul : float -> float -> float := SpecFloat.SFmul prec emax.
Definition div : float -> float -> float := SpecFloat.SFdiv prec emax.
Definition opp : float -> float := SpecFloat.SFopp.
Definition eqb : float -> float -> bool := SpecFloat.SFeqb.

(** The float nearest to [m * 2^e]. *)
Definition make (m e : Z) : float := SpecFloat.binary_normalize prec emax m e false.

Definition zero : float := make 0 0.
Definition one : float := make 1 0.
Definition two : float := make 2 0.


Record Vector : Type := mkVector { vx : float; vy : float; vz : float }.

Definition Vector_zero : Vector := mkVector zero zero zero.

Definition vadd (a b : Vector) : Vector :=
  mkVector (add (vx a) (vx b)) (add (vy a) (vy b)) (add (vz a) (vz b)).

Definition vsub (a b : Vector) : Vector :=
  mkVector (sub (vx a) (vx b)) (sub (vy a) (vy b)) (sub (vz a) (vz b)).

Record Quaternion : Type := mkQuaternion { qw : float; qx : float; qy : float; qz : float }.

Definition Quaternion_identity : Quaternion := mkQuaternion one zero zero zero.

Record Matrix3 : Type := mkMatrix3 {
  a00 : float; a01 : float; a02 : float;
  a10 : float; a11 : float; a12 : float;
  a20 : float; a21 : float; a22 : float }.

Record Matrix4 : Type := mkMatrix4 {
  m00 : float; m01 : float; m02 : float; m03 : float;
  m10 : float; m11 : float; m12 : float; m13 : float;
  m20 : float; m21 : float; m22 : float; m23 : float;
  m30 : float; m31 : float; m32 : float; m33 : float }.

Definition entry (m : Matrix4) (i j : nat) : float :=
  match i, j with
  | 0%nat, 0%nat => m00 m | 0%nat, 1%nat => m01 m | 0%nat, 2%nat => m02 m | 0%nat, _ => m03 m
  | 1%nat, 0%nat => m10 m | 1%nat, 1%nat => m11 m | 1%nat, 2%nat => m12 m | 1%nat, _ => m13 m
  | 2%nat, 0%nat => m20 m | 2%nat, 1%nat => m21 m | 2%nat, 2%nat => m22 m | 2%nat, _ => m23 m
  | _, 0%nat => m30 m | _, 1%nat => m31 m | _, 2%nat => m32 m | _, _ => m33 m
  end.

Definition build (f : nat -> nat -> float) : Matrix4 :=
  (mkMatrix4 (f 0 0) (f 0 1) (f 0 2) (f 0 3)
             (f 1 0) (f 1 1) (f 1 2) (f 1 3)
             (f 2 0) (f 2 1) (f 2 2) (f 2 3)
             (f 3 0) (f 3 1) (f 3 2) (f 3 3))%nat.

(** [a @ b] on 4x4 matrices. *)
Definition mmul (a b : Matrix4) : Matrix4 :=
  build (fun i j =>
           add (add (add (mul (entry a i 0%nat) (entry b 0%nat j))
                         (mul (entry a i 1%nat) (entry b 1%nat j)))
                    (mul (entry a i 2%nat) (entry b 2%nat j)))
               (mul (entry a i 3%nat) (entry b 3%nat j))).

(** [Quaternion.to_matrix()]. *)
Definition to_matrix (q : Quaternion) : Matrix3 :=
  let (w, x, y, z) := q in
  let dbl := mul two in
  mkMatrix3
    (sub (sub one (dbl (mul y y))) (dbl (mul z z)))
    (sub (dbl (mul x y)) (dbl (mul w z)))
    (add (dbl (mul w y)) (dbl (mul x z)))
    (add (dbl (mul w z)) (dbl (mul x y)))
    (sub (sub one (dbl (mul x x))) (dbl (mul z z)))
    (sub (dbl (mul y z)) (dbl (mul w x)))
    (sub (dbl (mul x z)) (dbl (mul w y)))
    (add (dbl (mul w x)) (dbl (mul y z)))
    (sub (sub one (dbl (mul x x))) (dbl (mul y y))).

Definition to_4x4 (m : Matrix3) : Matrix4 :=
  mkMatrix4 (a00 m) (a01 m) (a02 m) zero
            (a10 m) (a11 m) (a12 m) zero
            (a20 m) (a21 m) (a22 m) zero
            zero zero zero one.

Definition Translation (v : Vector) : Matrix4 :=
  mkMatrix4 one zero zero (vx v)  zero one zero (vy v)  zero zero one (vz v)
            zero zero zero one.

Definition to_translation (m : Matrix4) : Vector :=
  mkVector (m03 m) (m13 m) (m23 m).

Definition det3 (a b c d e f g h i : float) : float :=
  add (sub (mul a (sub (mul e i) (mul f h))) (mul b (sub (mul d i) (mul f g))))
      (mul c (sub (mul d h) (mul e g))).

Definition minor (m : Matrix4) (i j : nat) : float :=
  (det3 (entry m (skip i 0) (skip j 0)) (entry m (skip i 0) (skip j 1)) (entry m (skip i 0) (skip j 2))
        (entry m (skip i 1) (skip j 0)) (entry m (skip i 1) (skip j 1)) (entry m (skip i 1) (skip j 2))
        (entry m (skip i 2) (skip j 0)) (entry m (skip i 2) (skip j 1)) (entry m (skip i 2) (skip j 2)))%nat.

Definition cofactor (m : Matrix4) (i j : nat) : float :=
  if Nat.even (i + j) then minor m i j else opp (minor m i j).

Definition determinant (m : Matrix4) : float :=
  add (add (add (mul (entry m 0%nat 0%nat) (cofactor m 0%nat 0%nat))
                (mul (entry m 0%nat 1%nat) (cofactor m 0%nat 1%nat)))
           (mul (entry m 0%nat 2%nat) (cofactor m 0%nat 2%nat)))
      (mul (entry m 0%nat 3%nat) (cofactor m 0%nat 3%nat)).

(** [Matrix.inverted()]. *)
Definition inverted (m : Matrix4) : result Matrix4 :=
  let d := determinant m in
  if eqb d zero then Err ValueError
  else Ok (build (fun i j => div (cofactor m j i) d)).

(** A bone descriptor with single-precision components. *)
Record GMTBlenderBoneProps : Type := mkProps {
  head : Vector;
  parent_name : option string;
  loc : Vector;
  rot : Quaternion;
  rot_local : Quaternion }.

Definition GMTBlenderBoneProps_default : GMTBlenderBoneProps :=
  mkProps Vector_zero None Vector_zero Quaternion_identity Quaternion_identity.

Definition Tuple3 : Type := float * float * float.

Definition pos_to_blender (pos : Tuple3) : Vector :=
  let '(p0, p1, p2) := pos in mkVector (opp p0) p2 p1.

Definition pos_from_blender (pos : Vector) : Tuple3 :=
  (opp (vx pos), vz pos, vy pos).

Definition get_props (bone_props : gmap string GMTBlenderBoneProps) (bone_name : string)
  : GMTBlenderBoneProps :=
  default GMTBlenderBoneProps_default (bone_props !! bone_name).

Definition parent_head_of (bone_props : gmap string GMTBlenderBoneProps)
           (prop : GMTBlenderBoneProps) : Vector :=
  match parent_name prop ≫= (fun n => bone_props !! n) with
  | Some parent => head parent
  | None => Vector_zero
  end.

Definition transform_location_to_blender
           (bone_props : gmap string GMTBlenderBoneProps) (bone_name : string)
           (values : list Vector) : result (list Vector) :=
  let prop := get_props bone_props bone_name in
  let head := head prop in
  let parent_head := parent_head_of bone_props prop in
  let loc := loc prop in
  let rot := rot prop in
  pre_mat ← (tl ← inverted (Translation loc);
             rt ← inverted (to_4x4 (to_matrix rot));
             mret (mmul tl rt));
  let post_mat := mmul (to_4x4 (to_matrix rot)) (Translation loc) in
  mret (List.map
          (fun x => to_translation
                      (mmul (mmul pre_mat (Translation (vadd (vsub x head) parent_head)))
                            post_mat))
          values).

Definition transform_location_from_blender
           (bone_props : gmap string GMTBlenderBoneProps) (bone_name : string)
           (values : list Vector) : result (list Tuple3) :=
  let prop := get_props bone_props bone_name in
  let head := head prop in
  let parent_head := parent_head_of bone_props prop in
  let loc := loc prop in
  let rot := rot prop in
  let pre_mat := mmul (to_4x4 (to_matrix rot)) (Translation loc) in
  post_mat ← (tl ← inverted (Translation loc);
              rt ← inverted (to_4x4 (to_matrix rot));
              mret (mmul tl rt));
  mret (List.map
          (fun x => pos_from_blender
                      (vsub (vadd (to_translation
                                     (mmul (mmul pre_mat (Translation x)) post_mat))
                                  head)
                            parent_head))
          values).

End Float32.

(** ** [blender/importer.py]: the camera importer's conversions *)

Module CameraImporter.

Local Open Scope R_scope.

(** One frame of a camera animation: the fields of [CMTData] that the
    importer reads. *)
Record CMTData : Type := mkCMTData {
  pos_x : R; pos_y : R; pos_z : R;
  foc_x : R; foc_y : R; foc_z : R;
  fov : R;
  rot : R }.

(** The body of the loop of [convert_cam_to_blender], assignment by
    assignment. *)
Definition convert_cam_data (data : CMTData) : CMTData :=
  let data := mkCMTData (- pos_x data) (pos_y data) (pos_z data)
                        (foc_x data) (foc_y data) (foc_z data) (fov data) (rot data) in
  let pos_z' := pos_y data in
  let pos_y' := pos_z data in
  let data := mkCMTData (pos_x data) pos_y' (pos_z data)
                        (foc_x data) (foc_y data) (foc_z data) (fov data) (rot data) in
  let data := mkCMTData (pos_x data) (pos_y data) pos_z'
                        (foc_x data) (foc_y data) (foc_z data) (fov data) (rot data) in
  let data := mkCMTData (pos_x data) (pos_y data) (pos_z data)
                        (- foc_x data) (foc_y data) (foc_z data) (fov data) (rot data) in
  let foc_z' := foc_y data in
  let foc_y' := foc_z data in
  let data := mkCMTData (pos_x data) (pos_y data) (pos_z data)
                        (foc_x data) foc_y' (foc_z data) (fov data) (rot data) in
  mkCMTData (pos_x data) (pos_y data) (pos_z data)
            (foc_x data) (foc_y data) foc_z' (fov data) (rot data).

(** [convert_cam_to_blender]: every frame converted in place, the list
    returned. *)
Definition convert_cam_to_blender (data_list : list CMTData) : list CMTData :=
  List.map convert_cam_data data_list.

(** The loop of [animate_camera] that collects, frame by frame, the
    location and the focal length; [sensor_height] is
    [camera.data.sensor_height], which [animate_camera] has set to 100. *)
Definition camera_samples (sensor_height : R) (anm_data : list CMTData)
  : result (list Vector * list R) :=
  Py.for_each
    (fun acc data =>
       let '(locations, foc_lengths) := acc in
       let pos := mkVector (pos_x data) (pos_y data) (pos_z data) in
       let locations := locations ++ [pos] in
       h ← truediv sensor_height 2;
       a ← truediv (fov data) 2;
       foc_len ← truediv h (tan a);
       mret (locations, foc_lengths ++ [foc_len]))
    anm_data ([], []).

End CameraImporter.

(** ** [blender/exporter.py]: [GMTExporter.make_bone] *)

Module MakeBone.

Import Stdlib.Strings.Ascii.

(** An F-curve of an action group, as [make_bone] reads it. *)
Record Channel : Type := mkChannel {
  data_path : string;
  array_index : Z;
  keyframe_points : FCurve }.

(** The exported bone: its name and its curves. *)
Record Bone : Type := mkBone { name : string; curves : list Curve }.

(** [make_bone] ends with a bone, with the add-on's own [GMTError], or
    with a Python exception raised on the way. *)
Inductive outcome (A : Type) : Type :=
| Done (a : A)
| GMTError (msg : string)
| Raised (e : exn).
Arguments Done {A} a.
Arguments GMTError {A} msg.
Arguments Raised {A} e.

Definition outcome_bind {A B : Type} (r : outcome A) (k : A -> outcome B) : outcome B :=
  match r with
  | Done a => k a
  | GMTError msg => GMTError msg
  | Raised e => Raised e
  end.

Definition lift {A : Type} (r : result A) : outcome A :=
  match r with
  | Ok a => Done a
  | Err e => Raised e
  end.

(** [for x in xs: st = body(st, x)], stopping at the first error. *)
Fixpoint foreach {S A : Type} (body : S -> A -> outcome S) (xs : list A) (st : S)
  : outcome S :=
  match xs with
  | [] => Done st
  | x :: xs' => outcome_bind (body st x) (foreach body xs')
  end.

(** [s.rindex(".")]: the highest index of the character, [ValueError]
    when the string does not hold it. *)
Fixpoint rfind (c : Ascii.ascii) (s : string) : option nat :=
  match s with
  | EmptyString => None
  | String a s' =>
      match rfind c s' with
      | Some i => Some (S i)
      | None => if Ascii.eqb a c then Some 0%nat else None
      end
  end.

Definition rindex (s : string) (c : Ascii.ascii) : result nat :=
  match rfind c s with
  | Some i => Ok i
  | None => Err ValueError
  end.

(** [s[n:]]. *)
Fixpoint slice_from (n : nat) (s : string) : string :=
  match n, s with
  | O, _ => s
  | S n', String _ s' => slice_from n' s'
  | S _, EmptyString => EmptyString
  end.

(** [sub in s]. *)
Fixpoint contains (sub s : string) : bool :=
  String.prefix sub s
  || match s with
     | EmptyString => false
     | String _ s' => contains sub s'
     end.

Definition dot : Ascii.ascii := "."%char.

(** [c.data_path[c.data_path.rindex(".") + 1:]]. *)
Definition suffix (c : Channel) : result string :=
  i ← rindex (data_path c) dot;
  mret (slice_from (i + 1) (data_path c)).

(** A Python [dict] keyed by strings: the items in insertion order. *)
Definition dict : Type := list (string * Channel).

(** [d[k] = c]: an existing key keeps its place and takes the new value. *)
Fixpoint dict_set (d : dict) (k : string) (c : Channel) : dict :=
  match d with
  | [] => [(k, c)]
  | (k', c') :: d' =>
      if String.eqb k' k then (k', c) :: d' else (k', c') :: dict_set d' k c
  end.

(** The F-curves of a dict of channels, as [make_curve] looks them up. *)
Definition fcurves_of (d : dict) : gmap string FCurve :=
  list_to_map (List.map (fun kc => (fst kc, keyframe_points (snd kc))) d).

(** What the loop over the channels keeps. *)
Record Sorting : Type := mkSorting {
  loc_len : nat;
  rot_len : nat;
  loc_curves : dict;
  rot_curves : dict;
  pat1_curves : dict }.

Definition unmatching (c : Channel) : string :=
  ("FCurve " ++ data_path c ++ " has channels with unmatching keyframes")%string.

(** The body of the loop over the channels. *)
Definition sort_channel (st : Sorting) (c : Channel) : outcome Sorting :=
  outcome_bind (lift (suffix c)) (fun sfx =>
  if contains "location" sfx then
    outcome_bind
      (if (loc_len st =? 0)%nat then Done (length (keyframe_points c))
       else if negb (loc_len st =? length (keyframe_points c))%nat
            then GMTError (unmatching c)
            else Done (loc_len st))
      (fun loc_len' =>
         let loc_curves' :=
           if (array_index c =? 0)%Z then dict_set (loc_curves st) "x" c
           else if (array_index c =? 1)%Z then dict_set (loc_curves st) "y" c
           else if (array_index c =? 2)%Z then dict_set (loc_curves st) "z" c
           else loc_curves st in
         Done (mkSorting loc_len' (rot_len st) loc_curves' (rot_curves st)
                         (pat1_curves st)))
  else if contains "rotation_quaternion" sfx then
    outcome_bind
      (if (rot_len st =? 0)%nat then Done (length (keyframe_points c))
       else if negb (rot_len st =? length (keyframe_points c))%nat
            then GMTError (unmatching c)
            else Done (rot_len st))
      (fun rot_len' =>
         let rot_curves' :=
           if (array_index c =? 0)%Z then dict_set (rot_curves st) "w" c
           else if (array_index c =? 1)%Z then dict_set (rot_curves st) "x" c
           else if (array_index c =? 2)%Z then dict_set (rot_curves st) "y" c
           else if (array_index c =? 3)%Z then dict_set (rot_curves st) "z" c
           else rot_curves st in
         Done (mkSorting (loc_len st) rot_len' (loc_curves st) rot_curves'
                         (pat1_curves st)))
  else if contains "pat1" (data_path c) then
    let pat1_curves' :=
      if String.eqb sfx "pat1_left_hand"
      then dict_set (pat1_curves st) ("left_" ++ pretty (array_index c))%string c
      else if String.eqb sfx "pat1_right_hand"
           then dict_set (pat1_curves st) ("right_" ++ pretty (array_index c))%string c
           else pat1_curves st in
    Done (mkSorting (loc_len st) (rot_len st) (loc_curves st) (rot_curves st)
                    pat1_curves')
  else Done st).

Section MakeBone.

Variable to_quaternion : Matrix4 -> Quaternion.

Variable self : GMTExporter.

(** [self.gmt_properties.version]. *)
Variable version : Z.

(** [make_bone]. *)
Definition make_bone (bone_name : string) (channels : list Channel) : outcome Bone :=
  outcome_bind (foreach sort_channel channels (mkSorting 0 0 [] [] [])) (fun st =>
  outcome_bind
    (if (length (loc_curves st) =? 3)%nat then
       outcome_bind
         (lift (make_curve to_quaternion self (fcurves_of (loc_curves st))
                           ["x"; "y"; "z"]%string POS_VEC3 bone_name))
         (fun curve => Done [curve])
     else Done [])
    (fun curves =>
  outcome_bind
    (if (length (rot_curves st) =? 4)%nat then
       let format := if (version >? 65537)%Z then ROT_QUAT_SCALED
                     else ROT_QUAT_HALF_FLOAT in
       outcome_bind
         (lift (make_curve to_quaternion self (fcurves_of (rot_curves st))
                           ["w"; "x"; "y"; "z"]%string format bone_name))
         (fun curve => Done (curves ++ [curve]))
     else Done curves)
    (fun curves =>
  outcome_bind
    (foreach
       (fun curves pat =>
          let format := if contains "left" pat then PAT1_LEFT_HAND
                        else PAT1_RIGHT_HAND in
          outcome_bind
            (lift (make_curve to_quaternion self (fcurves_of (pat1_curves st))
                              [pat] format bone_name))
            (fun curve => Done (curves ++ [curve])))
       (List.map fst (pat1_curves st)) curves)
    (fun curves => Done (mkBone bone_name curves))))).

End MakeBone.

End MakeBone.

(** ** Vocabulary of the statements *)

Local Open Scope R_scope.

(** Squared length of an engine-side quaternion tuple (x, y, z, w). *)
Definition tuple_norm2 (q : Tuple4) : R :=
  let '(x, y, z, w) := q in x * x + y * y + z * z + w * w.

(** The pattern pairs that [make_curve] builds from the two lists of
    [pattern1_from_blender]. *)
Definition pattern_pairs {A : Type} (cols : list (list A)) : result (list (A * A)) :=
  starts ← Py.index cols 0;
  ends ← Py.index cols 1;
  mret (map2 pair starts ends).

(** Frames and sampled values of an F-curve, keyframe point by keyframe
    point: what [make_curve] reads through the flat [co] buffer. *)
Definition sample_frames (fc : FCurve) : list Z :=
  List.map (fun p => py_int (fst (co p))) fc.

Definition sample_values (fc : FCurve) : list Q :=
  List.map (fun p => snd (co p)) fc.

Definition int_pair (p : Q * Q) : Z * Z := (py_int (fst p), py_int (snd p)).

(** The source keyframes of an exported curve, each with its frame, its
    value and whether it is constant-interpolated on every axis. *)
Fixpoint zip3 {A B C : Type} (xs : list A) (ys : list B) (zs : list C) : list (A * B * C) :=
  match xs, ys, zs with
  | x :: xs', y :: ys', z :: zs' => (x, y, z) :: zip3 xs' ys' zs'
  | _, _, _ => []
  end.

(** What the duplication is meant to produce: every source keyframe in
    order, and after a keyframe that is held constant over a gap of more
    than one frame, a copy of its value one frame before the next keyframe. *)
Fixpoint with_holds {A : Type} (src : list (Z * A * bool)) : list (Z * A) :=
  match src with
  | [] => []
  | (f0, v0, p0) :: rest =>
      (f0, v0) ::
      match rest with
      | [] => []
      | (f1, _, _) :: _ =>
          if p0 && (f1 - f0 >? 1)%Z then (f1 - 1, v0)%Z :: with_holds rest
          else with_holds rest
      end
  end.

Definition is_constant (p : KeyframePoint) : bool := (interpolation p =? 0)%Z.

Definition constant3 (fx fy fz : FCurve) : list bool :=
  map3 (fun a b c => true && is_constant a && is_constant b && is_constant c) fx fy fz.

Definition constant4 (fw fx fy fz : FCurve) : list bool :=
  map4 (fun a b c d => true && is_constant a && is_constant b && is_constant c
                       && is_constant d) fw fx fy fz.

(** The vectors and quaternions [make_curve] builds from the sampled values. *)
Definition sample_vectors (fx fy fz : FCurve) : list Vector :=
  map3 (fun x y z => mkVector (Q2R x) (Q2R y) (Q2R z))
       (sample_values fx) (sample_values fy) (sample_values fz).

Definition sample_quaternions (fw fx fy fz : FCurve) : list Quaternion :=
  map4 (fun w x y z => mkQuaternion (Q2R w) (Q2R x) (Q2R y) (Q2R z))
       (sample_values fw) (sample_values fx) (sample_values fy) (sample_values fz).

(** The exporter's position transform of one value, for a bone with
    descriptor [prop]. *)
Definition exported_position (self : GMTExporter) (prop : GMTBlenderBoneProps)
           (x : Vector) : Tuple3 :=
  pos_from_blender
    (vsub (vadd (to_translation (mmul (to_4x4 (to_matrix (rot prop))) (Translation x)))
                (head prop))
          (parent_head_of (bone_props self) prop)).

(** The inverse that [Matrix.inverted] returns when there is one. *)
Definition inverse_of (m : Matrix4) : Matrix4 :=
  build (fun i j => cofactor m j i / determinant m).

(** The exporter's rotation transform of one value. *)
Definition exported_rotation (to_quaternion : Matrix4 -> Quaternion)
           (prop : GMTBlenderBoneProps) (x : Quaternion) : Tuple4 :=
  rot_from_blender
    (to_quaternion
       (mmul (mmul (mmul (to_4x4 (to_matrix (rot_local prop)))
                         (to_4x4 (to_matrix (rot prop))))
                   (to_4x4 (to_matrix x)))
             (inverse_of (to_4x4 (to_matrix (rot prop)))))).

(** Whether a frame holds an explicit keyframe of the curve whose dict is [d]. *)
Definition has_key {V : Type} (d : dict V) (k : Z) : bool :=
  match dict_get d k with
  | Some _ => true
  | None => false
  end.

(** The data model's invariant on the frames of a curve: non-negative and
    strictly increasing. *)
Definition valid_frames (fs : list Z) : Prop :=
  Forall (fun f => (0 <= f)%Z) fs /\ StronglySorted Z.lt fs.

(** An affine matrix: the last row is (0, 0, 0, 1). *)
Definition affine (m : Matrix4) : Prop :=
  m30 m = 0 /\ m31 m = 0 /\ m32 m = 0 /\ m33 m = 1.

(** A rest rotation that can be undone: the quaternion is not zero and its
    matrix has an inverse.  Every unit quaternion is one. *)
Definition invertible_rotation (q : Quaternion) : Prop :=
  qdot q q <> 0 /\ determinant (to_4x4 (to_matrix q)) <> 0.

(** The data model's invariant on a table of bone descriptors: the rest
    rotations are rotations.  What the transforms need of it is that every
    [rot] is invertible and no [rot_local] is the zero quaternion. *)
Definition valid_bone_props (bone_props : gmap string GMTBlenderBoneProps) : Prop :=
  forall (name : string) (p : GMTBlenderBoneProps),
    bone_props !! name = Some p ->
    invertible_rotation (rot p) /\ qdot (rot_local p) (rot_local p) <> 0.

(** The frames and the (frame, value) points of the source keyframes of a
    duplication. *)
Definition source_frames {A : Type} (src : list (Z * A * bool)) : list Z :=
  List.map (fun e => fst (fst e)) src.

Definition source_points {A : Type} (src : list (Z * A * bool)) : list (Z * A) :=
  List.map fst src.

(** How [make_bone] sorts a channel: by the part of its data path after the
    last dot. *)
Definition is_location (c : MakeBone.Channel) : bool :=
  match MakeBone.suffix c with
  | Ok sfx => MakeBone.contains "location" sfx
  | Err _ => false
  end.

Definition is_rotation (c : MakeBone.Channel) : bool :=
  match MakeBone.suffix c with
  | Ok sfx => negb (MakeBone.contains "location" sfx)
              && MakeBone.contains "rotation_quaternion" sfx
  | Err _ => false
  end.

(** [len(c.keyframe_points)]. *)
Definition points (c : MakeBone.Channel) : nat :=
  length (MakeBone.keyframe_points c).

(** The key under which a location or a rotation channel is kept. *)
Definition location_key (c : MakeBone.Channel) : option string :=
  if is_location c then
    if (MakeBone.array_index c =? 0)%Z then Some "x"%string
    else if (MakeBone.array_index c =? 1)%Z then Some "y"%string
    else if (MakeBone.array_index c =? 2)%Z then Some "z"%string
    else None
  else None.

Definition rotation_key (c : MakeBone.Channel) : option string :=
  if is_rotation c then
    if (MakeBone.array_index c =? 0)%Z then Some "w"%string
    else if (MakeBone.array_index c =? 1)%Z then Some "x"%string
    else if (MakeBone.array_index c =? 2)%Z then Some "y"%string
    else if (MakeBone.array_index c =? 3)%Z then Some "z"%string
    else None
  else None.

(** Keeping a channel under its key, in the map of F-curves that
    [make_curve] reads and in the dict that [make_bone] fills; a channel
    without a key is not kept. *)
Definition insert_key (key : MakeBone.Channel -> option string) (c : MakeBone.Channel)
           (m : gmap string FCurve) : gmap string FCurve :=
  match key c with
  | Some k => <[k := MakeBone.keyframe_points c]> m
  | None => m
  end.

Definition put_key (key : MakeBone.Channel -> option string) (d : MakeBone.dict)
           (c : MakeBone.Channel) : MakeBone.dict :=
  match key c with
  | Some k => MakeBone.dict_set d k c
  | None => d
  end.

(** ** Proof tools *)

Ltac py_simpl :=
  cbn [mbind mret fmap result_bind result_ret result_fmap Py.bind Py.fmap].

Ltac py_simpl_in H :=
  cbn [mbind mret fmap result_bind result_ret result_fmap Py.bind Py.fmap] in H.

Lemma truediv_ok (a b : R) : b <> 0 -> truediv a b = Ok (a / b).
Proof.
  intros Hb. unfold truediv. destruct (Req_dec_T b 0); [contradiction | reflexivity].
Qed.

Lemma truediv_zero (a b : R) : b = 0 -> truediv a b = Err ZeroDivisionError.
Proof.
  intros Hb. unfold truediv. destruct (Req_dec_T b 0); [reflexivity | contradiction].
Qed.

(** ** Coordinate conversion of single values *)

(** C5: the position conversion is an exact involution: both directions are
    the map (x, y, z) to (-x, z, y), and converting to the editor and back
    returns the position itself. *)
Theorem pos_conversion_involution :
  forall x y z : R,
    pos_to_blender (x, y, z) = mkVector (- x) z y
    /\ pos_from_blender (mkVector x y z) = (- x, z, y)
    /\ pos_from_blender (pos_to_blender (x, y, z)) = (x, y, z)
    /\ pos_to_blender (pos_from_blender (mkVector x y z)) = mkVector x y z.
Proof.
  intros x y z. unfold pos_to_blender, pos_from_blender. cbn.
  rewrite Ropp_involutive. repeat split.
Qed.

(** C6: the rotation conversion round-trips exactly (so in particular up to
    sign) and neither direction changes the squared length, hence a unit
    quaternion stays a unit quaternion. *)
Theorem rot_conversion_roundtrip_norm :
  forall x y z w : R,
    rot_to_blender (x, y, z, w) = mkQuaternion w (- x) z y
    /\ rot_from_blender (rot_to_blender (x, y, z, w)) = (x, y, z, w)
    /\ qdot (rot_to_blender (x, y, z, w)) (rot_to_blender (x, y, z, w))
       = tuple_norm2 (x, y, z, w)
    /\ (forall q : Quaternion, tuple_norm2 (rot_from_blender q) = qdot q q)
    /\ (tuple_norm2 (x, y, z, w) = 1 <-> is_unit (rot_to_blender (x, y, z, w))).
Proof.
  intros x y z w.
  assert (Hn : qdot (rot_to_blender (x, y, z, w)) (rot_to_blender (x, y, z, w))
               = tuple_norm2 (x, y, z, w)).
  { unfold qdot, rot_to_blender, tuple_norm2. cbn. ring. }
  repeat split.
  - unfold rot_from_blender, rot_to_blender. cbn. now rewrite Ropp_involutive.
  - exact Hn.
  - intros [qw0 qx0 qy0 qz0]. unfold tuple_norm2, rot_from_blender, qdot. cbn. ring.
  - intros H. unfold is_unit. now rewrite Hn.
  - unfold is_unit. intros H. now rewrite <- Hn.
Qed.

(** C7, the claim as stated fails: on the degenerate inputs no value comes
    back, the division raises. *)
Lemma fov_degenerate_counterexample :
  fov_to_blender 0 100 = Err ZeroDivisionError
  /\ fov_from_blender 0 100 = Err ZeroDivisionError.
Proof.
  split.
  - unfold fov_to_blender. rewrite (truediv_ok 100 2) by lra.
    rewrite (truediv_ok 0 2) by lra. py_simpl.
    apply truediv_zero. replace (0 / 2) with 0 by lra. apply tan_0.
  - unfold fov_from_blender. rewrite truediv_zero by lra. reflexivity.
Qed.

(** C7 as amended: a degenerate input (zero tangent of the half angle, zero
    focal length) makes the conversion raise [ZeroDivisionError]; every other
    input gives the quotient formula. *)
Theorem fov_conversion_results :
  forall fov focal sensor_height : R,
    (tan (fov / 2) = 0 -> fov_to_blender fov sensor_height = Err ZeroDivisionError)
    /\ (tan (fov / 2) <> 0 ->
        fov_to_blender fov sensor_height = Ok (sensor_height / 2 / tan (fov / 2)))
    /\ (focal = 0 -> fov_from_blender focal sensor_height = Err ZeroDivisionError)
    /\ (focal <> 0 ->
        fov_from_blender focal sensor_height = Ok (2 * atan (sensor_height / (2 * focal)))).
Proof.
  intros fov focal sh.
  unfold fov_to_blender, fov_from_blender.
  rewrite (truediv_ok sh 2) by lra. rewrite (truediv_ok fov 2) by lra. py_simpl.
  repeat split; intros H.
  - now apply truediv_zero.
  - now apply truediv_ok.
  - rewrite truediv_zero by lra. reflexivity.
  - rewrite truediv_ok by lra. reflexivity.
Qed.

Lemma fov_conversion_results_witness :
  fov_to_blender 0 100 = Err ZeroDivisionError
  /\ fov_from_blender 50 100 = Ok (2 * atan (100 / (2 * 50))).
Proof.
  destruct (fov_conversion_results 0 50 100) as (Hz & _ & _ & Hn).
  split.
  - apply Hz. replace (0 / 2) with 0 by lra. apply tan_0.
  - apply Hn. lra.
Defined.

(** ** Pattern codes *)

Lemma map2_pair_fst {A B : Type} (xs : list A) (ys : list B) :
  length xs = length ys -> List.map fst (map2 pair xs ys) = xs.
Proof.
  revert ys. induction xs as [|x xs IH]; intros [|y ys] Hl; cbn in *; try discriminate.
  - reflexivity.
  - f_equal. apply IH. lia.
Qed.

Lemma map2_pair_snd {A B : Type} (xs : list A) (ys : list B) :
  length xs = length ys -> List.map snd (map2 pair xs ys) = ys.
Proof.
  revert ys. induction xs as [|x xs IH]; intros [|y ys] Hl; cbn in *; try discriminate.
  - reflexivity.
  - f_equal. apply IH. lia.
Qed.

Lemma map2_length {A B C : Type} (f : A -> B -> C) (xs : list A) (ys : list B) :
  length xs = length ys -> length (map2 f xs ys) = length xs.
Proof.
  revert ys. induction xs as [|x xs IH]; intros [|y ys] Hl; cbn in *; try discriminate.
  - reflexivity.
  - f_equal. apply IH. lia.
Qed.

Lemma shifted_length {A : Type} (c : A) (cs : list A) (l : A) :
  length (List.tl (c :: cs) ++ [l]) = length (c :: cs).
Proof. cbn. rewrite length_app. cbn. lia. Qed.

(** C9: from N codes, [pattern1_from_blender] gives the codes and, next to
    them, the codes that follow (the last one repeated); paired up as
    [make_curve] pairs them this is N (start, end) pairs; [pattern1_to_blender]
    keeps the start of every pair, which gives the codes back (each as a
    one-element tuple).  Codes 2, 5, 5 give (2,5), (5,5), (5,5) and back. *)
Theorem pattern_pairing :
  (forall (A : Type) (c : A) (cs : list A),
      let pattern := c :: cs in
      let ends := List.tl pattern ++ [List.last pattern c] in
      pattern1_from_blender pattern = Ok [pattern; ends]
      /\ exists pairs : list (A * A),
          (cols ← pattern1_from_blender pattern; pattern_pairs cols) = Ok pairs
          /\ length pairs = length pattern
          /\ List.map fst pairs = pattern
          /\ List.map snd pairs = ends
          /\ pattern1_to_blender pairs = List.map tuple1 pattern)
  /\ (cols ← pattern1_from_blender [2; 5; 5]%Z; pattern_pairs cols)
     = Ok [(2, 5); (5, 5); (5, 5)]%Z
  /\ pattern1_to_blender [(2, 5); (5, 5); (5, 5)]%Z = [tuple1 2; tuple1 5; tuple1 5]%Z.
Proof.
  split; [| split; reflexivity].
  intros A c cs pattern ends.
  assert (Hlen : length pattern = length ends).
  { subst pattern ends. symmetry. rewrite <- (shifted_length c cs (List.last (c :: cs) c)).
    reflexivity. }
  assert (Hfrom : pattern1_from_blender pattern = Ok [pattern; ends]).
  { unfold pattern1_from_blender, Py.last. subst pattern ends. py_simpl.
    destruct cs; reflexivity. }
  split; [exact Hfrom|].
  exists (map2 pair pattern ends). rewrite Hfrom. clearbody pattern ends.
  py_simpl. unfold pattern_pairs. cbn.
  repeat split.
  - rewrite map2_length by exact Hlen. reflexivity.
  - apply map2_pair_fst, Hlen.
  - apply map2_pair_snd, Hlen.
  - unfold pattern1_to_blender. rewrite <- (map2_pair_fst pattern ends Hlen) at 2.
    rewrite List.map_map. reflexivity.
Qed.

(** ** Reading an F-curve through the flat buffer *)

Lemma frames_slice_co (fc : FCurve) :
  frames_slice (foreach_get_co fc) = List.map (fun p => fst (co p)) fc.
Proof.
  unfold frames_slice, foreach_get_co.
  induction fc as [|p fc IH]; [reflexivity|]. cbn. f_equal. exact IH.
Qed.

Lemma values_slice_co (fc : FCurve) :
  values_slice (foreach_get_co fc) = sample_values fc.
Proof.
  unfold values_slice, foreach_get_co, sample_values.
  induction fc as [|p fc IH]; [reflexivity|].
  cbn. destruct fc as [|p' fc']; [reflexivity|].
  cbn in *. f_equal. exact IH.
Qed.

Lemma make_curve_frames (fc : FCurve) :
  List.map py_int (frames_slice (foreach_get_co fc)) = sample_frames fc.
Proof. rewrite frames_slice_co. unfold sample_frames. now rewrite List.map_map. Qed.

Lemma map2_int_pair (xs ys : list Q) :
  map2 (fun s e => (py_int s, py_int e)) xs ys = List.map int_pair (map2 pair xs ys).
Proof.
  revert ys. induction xs as [|x xs IH]; intros [|y ys]; cbn; try reflexivity.
  now rewrite IH.
Qed.

Lemma correct_pattern_nth (pattern : list Q) (i : nat) (x : Q) :
  nth_error pattern i = Some x ->
  ((17 < x)%Q -> nth_error (correct_pattern pattern) i = Some 0%Q)
  /\ ((x <= 17)%Q -> nth_error (correct_pattern pattern) i = Some x).
Proof.
  intros Hx. unfold correct_pattern.
  rewrite nth_error_map, Hx. cbn.
  destruct (Qlt_le_dec 17 x) as [Hlt|Hle]; split; intros H; try reflexivity.
  - exfalso. apply (Qlt_irrefl 17). eapply Qlt_le_trans; eassumption.
  - exfalso. apply (Qlt_irrefl 17). eapply Qlt_le_trans; eassumption.
Qed.

(** The one-axis branch of [make_curve], as one equation. *)
Lemma make_curve_pattern_eq
      (to_quaternion : Matrix4 -> Quaternion) (self : GMTExporter)
      (fcurves : gmap string FCurve) (axis : string) (fc : FCurve)
      (curve_format : CurveFormat) (group_name : string) :
  fcurves !! axis = Some fc ->
  make_curve to_quaternion self fcurves [axis] curve_format group_name
  = (cols ← pattern1_from_blender
              (if is_dragon_engine self then sample_values fc
               else correct_pattern (sample_values fc));
     pairs ← pattern_pairs cols;
     mret (mkCurve curve_format (mkGraph (sample_frames fc) (-1))
                   (Patterns (List.map int_pair pairs)))).
Proof.
  intros Hfc.
  unfold make_curve. cbn [Py.map_result]. rewrite Hfc. py_simpl.
  cbn [Py.index nth_error]. py_simpl. rewrite make_curve_frames, values_slice_co.
  unfold pattern1_from_blender, pattern_pairs.
  destruct (is_dragon_engine self); cbn [negb].
  - destruct (Py.last (sample_values fc)) as [l|e]; py_simpl; [|reflexivity].
    cbn [Py.index nth_error]. py_simpl. now rewrite map2_int_pair.
  - destruct (Py.last (correct_pattern (sample_values fc))) as [l|e]; py_simpl; [|reflexivity].
    cbn [Py.index nth_error]. py_simpl. now rewrite map2_int_pair.
Qed.

(** C10: a pattern curve is exported from the codes of its F-curve; unless
    the preset is Dragon Engine, every code above 17 is replaced by 0 and
    every code up to 17 is kept, and this happens before the codes are
    paired; with the Dragon Engine preset the codes are paired as they are. *)
Theorem pattern_codes_clamped_on_export :
  forall (to_quaternion : Matrix4 -> Quaternion) (self : GMTExporter)
         (fcurves : gmap string FCurve) (axis : string) (fc : FCurve)
         (curve_format : CurveFormat) (group_name : string),
    fcurves !! axis = Some fc ->
    let codes := sample_values fc in
    let exported := if is_dragon_engine self then codes else correct_pattern codes in
    make_curve to_quaternion self fcurves [axis] curve_format group_name
    = (cols ← pattern1_from_blender exported;
       pairs ← pattern_pairs cols;
       mret (mkCurve curve_format (mkGraph (sample_frames fc) (-1))
                     (Patterns (List.map int_pair pairs))))
    /\ length exported = length codes
    /\ (forall (i : nat) (x : Q),
           nth_error codes i = Some x ->
           (is_dragon_engine self = true -> nth_error exported i = Some x)
           /\ (is_dragon_engine self = false -> (17 < x)%Q ->
               nth_error exported i = Some 0%Q)
           /\ (is_dragon_engine self = false -> (x <= 17)%Q ->
               nth_error exported i = Some x)).
Proof.
  intros tq self fcurves axis fc fmt group Hfc codes exported.
  split; [| split].
  - subst exported codes. now apply make_curve_pattern_eq.
  - subst exported. destruct (is_dragon_engine self); [reflexivity|].
    unfold correct_pattern. now rewrite length_map.
  - intros i x Hx. subst exported.
    destruct (correct_pattern_nth codes i x Hx) as [Hgt Hle].
    destruct (is_dragon_engine self); repeat split; intros; try discriminate; auto.
Qed.

Lemma pattern_codes_clamped_on_export_witness :
  make_curve (fun _ => Quaternion_identity) (mkExporter ∅ false)
             {[ "left_0"%string := [mkPoint (0, 2)%Q 0; mkPoint (4, 20)%Q 0; mkPoint (9, 17)%Q 0] ]}
             ["left_0"%string] PAT1_LEFT_HAND "kata_l_n"%string
  = Ok (mkCurve PAT1_LEFT_HAND (mkGraph [0; 4; 9]%Z (-1)) (Patterns [(2, 0); (0, 17); (17, 17)]%Z)).
Proof.
  destruct (pattern_codes_clamped_on_export
              (fun _ => Quaternion_identity) (mkExporter ∅ false)
              {[ "left_0"%string := [mkPoint (0, 2)%Q 0; mkPoint (4, 20)%Q 0; mkPoint (9, 17)%Q 0] ]}
              "left_0"%string
              [mkPoint (0, 2)%Q 0; mkPoint (4, 20)%Q 0; mkPoint (9, 17)%Q 0]
              PAT1_LEFT_HAND "kata_l_n"%string) as [Heq _].
  - apply lookup_singleton_eq.
  - rewrite Heq. reflexivity.
Defined.

(** ** Constant interpolation by duplicated keyframes *)

Lemma index_app_at {A : Type} (pre : list A) (x : A) (post : list A) (k : nat) :
  length pre = k -> Py.index (pre ++ x :: post) k = Ok x.
Proof.
  intros <-. unfold Py.index.
  rewrite List.nth_error_app2 by lia. now rewrite Nat.sub_diag.
Qed.

Lemma index_app_next {A : Type} (pre : list A) (x y : A) (post : list A) (k : nat) :
  length pre = k -> Py.index (pre ++ x :: y :: post) (k + 1) = Ok y.
Proof.
  intros <-. unfold Py.index.
  rewrite List.nth_error_app2 by lia.
  replace (length pre + 1 - length pre)%nat with 1%nat by lia. reflexivity.
Qed.

Lemma insert_app_next {A : Type} (pre : list A) (x y : A) (post : list A) (k : nat) :
  length pre = k ->
  Py.insert (k + 1) y (pre ++ x :: post) = (pre ++ [x; y]) ++ post.
Proof.
  intros <-. unfold Py.insert.
  rewrite List.firstn_app, List.skipn_app.
  replace (length pre + 1 - length pre)%nat with 1%nat by lia.
  rewrite List.firstn_all2 by lia. rewrite List.skipn_all2 by lia.
  rewrite <- !List.app_assoc. reflexivity.
Qed.

(** The loop, started in the middle: [dv] and [dk] are the values and
    frames already settled, [pol_done] the flags already consumed. *)
Lemma duplicate_loop {A : Type} :
  forall (rest_p : list bool) (rest_k : list Z) (rest_v : list A)
         (pol_done : list bool) (dv : list A) (dk : list Z) (i j : nat),
    length rest_k = length rest_p ->
    length rest_v = length rest_p ->
    length pol_done = i ->
    length dk = (i + j)%nat ->
    length dv = (i + j)%nat ->
    fst <$> Py.for_each (duplicate_step (pol_done ++ rest_p))
                        (seq i (length rest_p - 1))
                        (dv ++ rest_v, dk ++ rest_k, j)
    = Ok (dv ++ List.map snd (with_holds (zip3 rest_k rest_v rest_p)),
          dk ++ List.map fst (with_holds (zip3 rest_k rest_v rest_p))).
Proof.
  induction rest_p as [|p rest_p IH]; intros rest_k rest_v pol_done dv dk i j Hk Hv Hp Hdk Hdv.
  - destruct rest_k; [|discriminate]. destruct rest_v; [|discriminate]. reflexivity.
  - destruct rest_k as [|f0 rest_k]; [discriminate|].
    destruct rest_v as [|v0 rest_v]; [discriminate|].
    cbn in Hk, Hv.
    destruct rest_p as [|p' rest_p'].
    + destruct rest_k; [|discriminate]. destruct rest_v; [|discriminate]. reflexivity.
    + destruct rest_k as [|f1 rest_k]; [discriminate|].
      destruct rest_v as [|v1 rest_v]; [discriminate|].
      replace (length (p :: p' :: rest_p') - 1)%nat with (S (length (p' :: rest_p') - 1))
        by (cbn; lia).
      cbn [seq Py.for_each]. unfold duplicate_step at 1.
      rewrite (index_app_at pol_done p (p' :: rest_p') i Hp). py_simpl.
      specialize (IH (f1 :: rest_k) (v1 :: rest_v) (pol_done ++ [p])).
      rewrite <- (List.app_assoc pol_done [p]) in IH. cbn [List.app] in IH.
      cbn [zip3 with_holds].
      destruct p; cbn [andb].
      * rewrite (index_app_next dk f0 f1 rest_k (i + j) Hdk).
        rewrite (index_app_at dk f0 (f1 :: rest_k) (i + j) Hdk). py_simpl.
        destruct (f1 - f0 >? 1)%Z.
        -- rewrite (index_app_at dv v0 (v1 :: rest_v) (i + j) Hdv). py_simpl.
           rewrite (insert_app_next dv v0 v0 (v1 :: rest_v) (i + j) Hdv).
           rewrite (insert_app_next dk f0 (f1 - 1)%Z (f1 :: rest_k) (i + j) Hdk).
           rewrite (IH (dv ++ [v0; v0]) (dk ++ [f0; (f1 - 1)%Z]) (S i) (S j)).
           ++ cbn [List.map fst snd]. rewrite <- !List.app_assoc. reflexivity.
           ++ cbn in *; lia.
           ++ cbn in *; lia.
           ++ rewrite length_app; cbn; lia.
           ++ rewrite length_app; cbn; lia.
           ++ rewrite length_app; cbn; lia.
        -- py_simpl.
           replace (dv ++ v0 :: v1 :: rest_v) with ((dv ++ [v0]) ++ v1 :: rest_v)
             by (now rewrite <- List.app_assoc).
           replace (dk ++ f0 :: f1 :: rest_k) with ((dk ++ [f0]) ++ f1 :: rest_k)
             by (now rewrite <- List.app_assoc).
           rewrite (IH (dv ++ [v0]) (dk ++ [f0]) (S i) j).
           ++ cbn [List.map fst snd]. rewrite <- !List.app_assoc. reflexivity.
           ++ cbn in *; lia.
           ++ cbn in *; lia.
           ++ rewrite length_app; cbn; lia.
           ++ rewrite length_app; cbn; lia.
           ++ rewrite length_app; cbn; lia.
      * py_simpl.
        replace (dv ++ v0 :: v1 :: rest_v) with ((dv ++ [v0]) ++ v1 :: rest_v)
          by (now rewrite <- List.app_assoc).
        replace (dk ++ f0 :: f1 :: rest_k) with ((dk ++ [f0]) ++ f1 :: rest_k)
          by (now rewrite <- List.app_assoc).
        rewrite (IH (dv ++ [v0]) (dk ++ [f0]) (S i) j).
        -- cbn [List.map fst snd]. rewrite <- !List.app_assoc. reflexivity.
        -- cbn in *; lia.
        -- cbn in *; lia.
        -- rewrite length_app; cbn; lia.
        -- rewrite length_app; cbn; lia.
        -- rewrite length_app; cbn; lia.
Qed.

Lemma duplicate_constant_spec {A : Type} (pol : list bool) (kfs : list Z) (vals : list A) :
  length kfs = length pol ->
  length vals = length pol ->
  duplicate_constant pol vals kfs
  = Ok (List.map snd (with_holds (zip3 kfs vals pol)),
        List.map fst (with_holds (zip3 kfs vals pol))).
Proof.
  intros Hk Hv. unfold duplicate_constant.
  pose proof (duplicate_loop pol kfs vals [] [] [] 0 0 Hk Hv eq_refl eq_refl eq_refl) as H.
  cbn [List.app] in H.
  destruct (Py.for_each (duplicate_step pol) (seq 0 (length pol - 1)) (vals, kfs, 0%nat))
    as [st|e]; py_simpl_in H; py_simpl; [|discriminate].
  exact H.
Qed.

Lemma with_holds_pair {A : Type} :
  forall (pre : list (Z * A * bool)) (f0 : Z) (v0 : A) (p0 : bool)
         (f1 : Z) (v1 : A) (p1 : bool) (post : list (Z * A * bool)),
  exists before after : list (Z * A),
    with_holds (pre ++ (f0, v0, p0) :: (f1, v1, p1) :: post)
    = before ++ (f0, v0)
             :: (if p0 && (f1 - f0 >? 1)%Z then [((f1 - 1)%Z, v0)] else [])
             ++ (f1, v1) :: after
    /\ with_holds (pre ++ [(f0, v0, p0)]) = before ++ [(f0, v0)]
    /\ with_holds ((f1, v1, p1) :: post) = (f1, v1) :: after.
Proof.
  induction pre as [|[[f v] p] pre IH]; intros f0 v0 p0 f1 v1 p1 post.
  - exists [], (List.tl (with_holds ((f1, v1, p1) :: post))).
    cbn [List.app with_holds List.tl]. repeat split.
    destruct (p0 && (f1 - f0 >? 1)%Z); reflexivity.
  - destruct (IH f0 v0 p0 f1 v1 p1 post) as (before & after & H1 & H2 & H3).
    destruct pre as [|[[f' v'] p'] pre'].
    + cbn [List.app] in *.
      exists ((f, v) :: (if p && (f0 - f >? 1)%Z then [((f0 - 1)%Z, v)] else []) ++ before), after.
      change (with_holds ((f, v, p) :: (f0, v0, p0) :: (f1, v1, p1) :: post))
        with ((f, v) :: (if p && (f0 - f >? 1)%Z
                         then ((f0 - 1)%Z, v) :: with_holds ((f0, v0, p0) :: (f1, v1, p1) :: post)
                         else with_holds ((f0, v0, p0) :: (f1, v1, p1) :: post))).
      change (with_holds [(f, v, p); (f0, v0, p0)])
        with ((f, v) :: (if p && (f0 - f >? 1)%Z
                         then ((f0 - 1)%Z, v) :: with_holds [(f0, v0, p0)]
                         else with_holds [(f0, v0, p0)])).
      rewrite H1, H2. repeat split; [| |exact H3];
        destruct (p && (f0 - f >? 1)%Z); cbn [List.app]; rewrite <- ?List.app_assoc; reflexivity.
    + cbn [List.app] in *.
      exists ((f, v) :: (if p && (f' - f >? 1)%Z then [((f' - 1)%Z, v)] else []) ++ before), after.
      change (with_holds ((f, v, p) :: (f', v', p') :: pre' ++ (f0, v0, p0) :: (f1, v1, p1) :: post))
        with ((f, v) :: (if p && (f' - f >? 1)%Z
                         then ((f' - 1)%Z, v)
                              :: with_holds ((f', v', p') :: pre' ++ (f0, v0, p0) :: (f1, v1, p1) :: post)
                         else with_holds ((f', v', p') :: pre' ++ (f0, v0, p0) :: (f1, v1, p1) :: post))).
      change (with_holds ((f, v, p) :: (f', v', p') :: pre' ++ [(f0, v0, p0)]))
        with ((f, v) :: (if p && (f' - f >? 1)%Z
                         then ((f' - 1)%Z, v) :: with_holds ((f', v', p') :: pre' ++ [(f0, v0, p0)])
                         else with_holds ((f', v', p') :: pre' ++ [(f0, v0, p0)]))).
      rewrite H1, H2. repeat split; [| |exact H3];
        destruct (p && (f' - f >? 1)%Z); cbn [List.app]; rewrite <- ?List.app_assoc; reflexivity.
Qed.

Lemma zip3_length {A B C : Type} (xs : list A) (ys : list B) (zs : list C) :
  length ys = length xs -> length zs = length xs -> length (zip3 xs ys zs) = length xs.
Proof.
  revert ys zs. induction xs as [|x xs IH]; intros [|y ys] [|z zs] Hy Hz;
    cbn in *; try discriminate; try reflexivity.
  f_equal. apply IH; lia.
Qed.

Lemma map3_length {A B C D : Type} (f : A -> B -> C -> D)
      (xs : list A) (ys : list B) (zs : list C) :
  length ys = length xs -> length zs = length xs -> length (map3 f xs ys zs) = length xs.
Proof.
  revert ys zs. induction xs as [|x xs IH]; intros [|y ys] [|z zs] Hy Hz;
    cbn in *; try discriminate; try reflexivity.
  f_equal. apply IH; lia.
Qed.

Lemma map4_length {A B C D E : Type} (f : A -> B -> C -> D -> E)
      (ws : list A) (xs : list B) (ys : list C) (zs : list D) :
  length xs = length ws -> length ys = length ws -> length zs = length ws ->
  length (map4 f ws xs ys zs) = length ws.
Proof.
  revert xs ys zs. induction ws as [|w ws IH]; intros [|x xs] [|y ys] [|z zs] Hx Hy Hz;
    cbn in *; try discriminate; try reflexivity.
  f_equal. apply IH; lia.
Qed.

Lemma sample_values_length (fc : FCurve) : length (sample_values fc) = length fc.
Proof. unfold sample_values. apply length_map. Qed.

Lemma sample_frames_length (fc : FCurve) : length (sample_frames fc) = length fc.
Proof. unfold sample_frames. apply length_map. Qed.

Lemma flags3 (fx fy fz : FCurve) :
  length fy = length fx -> length fz = length fx ->
  map2 (fun a b => a && (b =? 0)%Z)
       (map2 (fun a b => a && (b =? 0)%Z)
             (map2 (fun a b => a && (b =? 0)%Z) (repeat true (length fx))
                   (List.map interpolation fx))
             (List.map interpolation fy))
       (List.map interpolation fz)
  = constant3 fx fy fz.
Proof.
  unfold constant3, is_constant.
  revert fy fz. induction fx as [|x fx IH]; intros [|y fy] [|z fz] Hy Hz;
    cbn in *; try discriminate; try reflexivity.
  f_equal. apply IH; lia.
Qed.

Lemma flags4 (fw fx fy fz : FCurve) :
  length fx = length fw -> length fy = length fw -> length fz = length fw ->
  map2 (fun a b => a && (b =? 0)%Z)
       (map2 (fun a b => a && (b =? 0)%Z)
             (map2 (fun a b => a && (b =? 0)%Z)
                   (map2 (fun a b => a && (b =? 0)%Z) (repeat true (length fw))
                         (List.map interpolation fw))
                   (List.map interpolation fx))
             (List.map interpolation fy))
       (List.map interpolation fz)
  = constant4 fw fx fy fz.
Proof.
  unfold constant4, is_constant.
  revert fx fy fz. induction fw as [|w fw IH]; intros [|x fx] [|y fy] [|z fz] Hx Hy Hz;
    cbn in *; try discriminate; try reflexivity.
  f_equal. apply IH; lia.
Qed.

Lemma foreach_get_interpolation_ok (fc : FCurve) (n : nat) :
  length fc = n ->
  foreach_get_interpolation fc (repeat true n) = Ok (List.map interpolation fc).
Proof.
  intros <-. unfold foreach_get_interpolation.
  destruct fc as [|p fc]; [reflexivity|].
  cbn [length repeat]. rewrite repeat_length, Nat.eqb_refl. reflexivity.
Qed.

Lemma constant_flags3 (fcurves : gmap string FCurve) (ax ay az : string) (fx fy fz : FCurve) :
  fcurves !! ax = Some fx -> fcurves !! ay = Some fy -> fcurves !! az = Some fz ->
  length fy = length fx -> length fz = length fx ->
  constant_flags fcurves [ax; ay; az] = Ok (constant3 fx fy fz).
Proof.
  intros Hx Hy Hz Ly Lz. unfold constant_flags.
  cbn [Py.index nth_error]. py_simpl. rewrite Hx. py_simpl.
  cbn [Py.for_each]. rewrite Hx, Hy, Hz. py_simpl.
  rewrite !foreach_get_interpolation_ok by congruence. py_simpl.
  now rewrite flags3.
Qed.

Lemma constant_flags4 (fcurves : gmap string FCurve) (aw ax ay az : string)
      (fw fx fy fz : FCurve) :
  fcurves !! aw = Some fw -> fcurves !! ax = Some fx ->
  fcurves !! ay = Some fy -> fcurves !! az = Some fz ->
  length fx = length fw -> length fy = length fw -> length fz = length fw ->
  constant_flags fcurves [aw; ax; ay; az] = Ok (constant4 fw fx fy fz).
Proof.
  intros Hw Hx Hy Hz Lx Ly Lz. unfold constant_flags.
  cbn [Py.index nth_error]. py_simpl. rewrite Hw. py_simpl.
  cbn [Py.for_each]. rewrite Hw, Hx, Hy, Hz. py_simpl.
  rewrite !foreach_get_interpolation_ok by congruence. py_simpl.
  now rewrite flags4.
Qed.

Lemma transform_location_ok (self : GMTExporter) (bone_name : string)
      (prop : GMTBlenderBoneProps) (vs : list Vector) :
  bone_props self !! bone_name = Some prop ->
  vs <> [] ->
  transform_location self bone_name vs = Ok (List.map (exported_position self prop) vs).
Proof.
  intros Hp Hvs. unfold transform_location, props_item. rewrite Hp. py_simpl.
  destruct vs as [|v vs]; [contradiction|]. reflexivity.
Qed.

Lemma inverted_inverse_of (m : Matrix4) :
  determinant m <> 0 -> inverted m = Ok (inverse_of m).
Proof.
  intros Hd. unfold inverted, inverse_of.
  destruct (Req_dec_T (determinant m) 0); [contradiction | reflexivity].
Qed.

Lemma transform_rotation_ok (to_quaternion : Matrix4 -> Quaternion) (self : GMTExporter)
      (bone_name : string) (prop : GMTBlenderBoneProps) (vs : list Quaternion) :
  bone_props self !! bone_name = Some prop ->
  determinant (to_4x4 (to_matrix (rot prop))) <> 0 ->
  transform_rotation to_quaternion self bone_name vs
  = Ok (List.map (exported_rotation to_quaternion prop) vs).
Proof.
  intros Hp Hd. unfold transform_rotation, props_item. rewrite Hp. py_simpl.
  rewrite (inverted_inverse_of _ Hd). py_simpl.
  induction vs as [|v vs IH]; [reflexivity|].
  cbn [Py.map_result List.map]. py_simpl. rewrite IH. reflexivity.
Qed.

Lemma make_curve_position
      (to_quaternion : Matrix4 -> Quaternion) (self : GMTExporter)
      (fcurves : gmap string FCurve) (ax ay az : string) (fx fy fz : FCurve)
      (curve_format : CurveFormat) (group_name : string) (prop : GMTBlenderBoneProps) :
  fcurves !! ax = Some fx -> fcurves !! ay = Some fy -> fcurves !! az = Some fz ->
  length fy = length fx -> length fz = length fx -> fx <> [] ->
  bone_props self !! group_name = Some prop ->
  let out := with_holds (zip3 (sample_frames fx)
                              (List.map (exported_position self prop)
                                        (sample_vectors fx fy fz))
                              (constant3 fx fy fz)) in
  make_curve to_quaternion self fcurves [ax; ay; az] curve_format group_name
  = Ok (mkCurve curve_format (mkGraph (List.map fst out) (-1))
                (Positions (List.map snd out))).
Proof.
  intros Hx Hy Hz Ly Lz Hne Hp out.
  unfold make_curve. cbn [Py.map_result]. rewrite Hx, Hy, Hz. py_simpl.
  cbn [Py.index nth_error]. py_simpl.
  rewrite make_curve_frames, !values_slice_co. fold (sample_vectors fx fy fz).
  assert (Lv : length (sample_vectors fx fy fz) = length fx).
  { unfold sample_vectors. rewrite map3_length; rewrite !sample_values_length; auto. }
  assert (Hvs : sample_vectors fx fy fz <> []).
  { intros E. rewrite E in Lv. destruct fx; [contradiction | discriminate]. }
  rewrite (transform_location_ok self group_name prop _ Hp Hvs).
  py_simpl. rewrite (constant_flags3 fcurves ax ay az fx fy fz) by assumption. py_simpl.
  rewrite duplicate_constant_spec.
  - reflexivity.
  - rewrite sample_frames_length. unfold constant3. now rewrite map3_length.
  - rewrite length_map, Lv. unfold constant3. now rewrite map3_length.
Qed.

Lemma make_curve_rotation
      (to_quaternion : Matrix4 -> Quaternion) (self : GMTExporter)
      (fcurves : gmap string FCurve) (aw ax ay az : string) (fw fx fy fz : FCurve)
      (curve_format : CurveFormat) (group_name : string) (prop : GMTBlenderBoneProps) :
  fcurves !! aw = Some fw -> fcurves !! ax = Some fx ->
  fcurves !! ay = Some fy -> fcurves !! az = Some fz ->
  length fx = length fw -> length fy = length fw -> length fz = length fw ->
  bone_props self !! group_name = Some prop ->
  determinant (to_4x4 (to_matrix (rot prop))) <> 0 ->
  let out := with_holds (zip3 (sample_frames fw)
                              (List.map (exported_rotation to_quaternion prop)
                                        (sample_quaternions fw fx fy fz))
                              (constant4 fw fx fy fz)) in
  make_curve to_quaternion self fcurves [aw; ax; ay; az] curve_format group_name
  = Ok (mkCurve curve_format (mkGraph (List.map fst out) (-1))
                (Rotations (List.map snd out))).
Proof.
  intros Hw Hx Hy Hz Lx Ly Lz Hp Hd out.
  unfold make_curve. cbn [Py.map_result]. rewrite Hw, Hx, Hy, Hz. py_simpl.
  cbn [Py.index nth_error]. py_simpl.
  rewrite make_curve_frames, !values_slice_co. fold (sample_quaternions fw fx fy fz).
  assert (Lv : length (sample_quaternions fw fx fy fz) = length fw).
  { unfold sample_quaternions. rewrite map4_length; rewrite !sample_values_length; auto. }
  rewrite (transform_rotation_ok to_quaternion self group_name prop) by assumption.
  py_simpl. rewrite (constant_flags4 fcurves aw ax ay az fw fx fy fz) by assumption. py_simpl.
  rewrite duplicate_constant_spec.
  - reflexivity.
  - rewrite sample_frames_length. unfold constant4. now rewrite map4_length.
  - rewrite length_map, Lv. unfold constant4. now rewrite map4_length.
Qed.

Lemma pattern_pairs_ok {A : Type} (c : A) (cs : list A) :
  (cols ← pattern1_from_blender (c :: cs); pattern_pairs cols)
  = Ok (map2 pair (c :: cs) (cs ++ [List.last cs c])).
Proof.
  unfold pattern1_from_blender, Py.last. py_simpl. reflexivity.
Qed.

Lemma make_curve_pattern_not_duplicated
      (to_quaternion : Matrix4 -> Quaternion) (self : GMTExporter)
      (fcurves : gmap string FCurve) (axis : string) (fc : FCurve)
      (curve_format : CurveFormat) (group_name : string) :
  fcurves !! axis = Some fc ->
  fc <> [] ->
  exists pairs : list (Z * Z),
    make_curve to_quaternion self fcurves [axis] curve_format group_name
    = Ok (mkCurve curve_format (mkGraph (sample_frames fc) (-1)) (Patterns pairs))
    /\ length pairs = length fc.
Proof.
  intros Hfc Hne. rewrite (make_curve_pattern_eq _ _ _ _ fc) by exact Hfc.
  set (codes := if is_dragon_engine self then sample_values fc
                else correct_pattern (sample_values fc)).
  assert (Hlen : length codes = length fc).
  { subst codes. destruct (is_dragon_engine self).
    - apply sample_values_length.
    - unfold correct_pattern. rewrite length_map. apply sample_values_length. }
  destruct codes as [|c cs] eqn:E.
  - destruct fc; [contradiction | discriminate].
  - pose proof (pattern_pairs_ok c cs) as Hp. py_simpl_in Hp.
    destruct (pattern1_from_blender (c :: cs)) as [cols|e]; py_simpl_in Hp; [|discriminate].
    py_simpl. rewrite Hp. py_simpl.
    eexists. split; [reflexivity|].
    rewrite length_map, map2_length.
    + exact Hlen.
    + cbn. rewrite length_app. cbn. lia.
Qed.

(** C4: for a position or rotation curve, [make_curve] returns the source
    keyframes in order and, after every keyframe that is
    constant-interpolated on all axes and more than one frame before the
    next one, one extra keyframe placed one frame before the next keyframe
    and carrying the held keyframe's value; nothing else is inserted.  A
    pattern curve keeps exactly its source frames. *)
Theorem make_curve_constant_duplication :
  (* the loop computes [with_holds] *)
  (forall (A : Type) (pol : list bool) (kfs : list Z) (vals : list A),
      length kfs = length pol -> length vals = length pol ->
      duplicate_constant pol vals kfs
      = Ok (List.map snd (with_holds (zip3 kfs vals pol)),
            List.map fst (with_holds (zip3 kfs vals pol))))
  (* what [with_holds] does between two consecutive source keyframes *)
  /\ (forall (A : Type) (pre : list (Z * A * bool)) (f0 : Z) (v0 : A) (p0 : bool)
             (f1 : Z) (v1 : A) (p1 : bool) (post : list (Z * A * bool)),
         exists before after : list (Z * A),
           with_holds (pre ++ (f0, v0, p0) :: (f1, v1, p1) :: post)
           = before ++ (f0, v0)
                    :: (if p0 && (f1 - f0 >? 1)%Z then [((f1 - 1)%Z, v0)] else [])
                    ++ (f1, v1) :: after
           /\ with_holds (pre ++ [(f0, v0, p0)]) = before ++ [(f0, v0)]
           /\ with_holds ((f1, v1, p1) :: post) = (f1, v1) :: after)
  (* position curves *)
  /\ (forall (to_quaternion : Matrix4 -> Quaternion) (self : GMTExporter)
             (fcurves : gmap string FCurve) (ax ay az : string) (fx fy fz : FCurve)
             (curve_format : CurveFormat) (group_name : string)
             (prop : GMTBlenderBoneProps),
         fcurves !! ax = Some fx -> fcurves !! ay = Some fy -> fcurves !! az = Some fz ->
         length fy = length fx -> length fz = length fx -> fx <> [] ->
         bone_props self !! group_name = Some prop ->
         let out := with_holds (zip3 (sample_frames fx)
                                     (List.map (exported_position self prop)
                                               (sample_vectors fx fy fz))
                                     (constant3 fx fy fz)) in
         make_curve to_quaternion self fcurves [ax; ay; az] curve_format group_name
         = Ok (mkCurve curve_format (mkGraph (List.map fst out) (-1))
                       (Positions (List.map snd out))))
  (* rotation curves *)
  /\ (forall (to_quaternion : Matrix4 -> Quaternion) (self : GMTExporter)
             (fcurves : gmap string FCurve) (aw ax ay az : string) (fw fx fy fz : FCurve)
             (curve_format : CurveFormat) (group_name : string)
             (prop : GMTBlenderBoneProps),
         fcurves !! aw = Some fw -> fcurves !! ax = Some fx ->
         fcurves !! ay = Some fy -> fcurves !! az = Some fz ->
         length fx = length fw -> length fy = length fw -> length fz = length fw ->
         bone_props self !! group_name = Some prop ->
         determinant (to_4x4 (to_matrix (rot prop))) <> 0 ->
         let out := with_holds (zip3 (sample_frames fw)
                                     (List.map (exported_rotation to_quaternion prop)
                                               (sample_quaternions fw fx fy fz))
                                     (constant4 fw fx fy fz)) in
         make_curve to_quaternion self fcurves [aw; ax; ay; az] curve_format group_name
         = Ok (mkCurve curve_format (mkGraph (List.map fst out) (-1))
                       (Rotations (List.map snd out))))
  (* pattern curves: no duplication, whatever the interpolation flags *)
  /\ (forall (to_quaternion : Matrix4 -> Quaternion) (self : GMTExporter)
             (fcurves : gmap string FCurve) (axis : string) (fc : FCurve)
             (curve_format : CurveFormat) (group_name : string),
         fcurves !! axis = Some fc -> fc <> [] ->
         exists pairs : list (Z * Z),
           make_curve to_quaternion self fcurves [axis] curve_format group_name
           = Ok (mkCurve curve_format (mkGraph (sample_frames fc) (-1)) (Patterns pairs))
           /\ length pairs = length fc).
Proof.
  split; [| split; [| split; [| split]]].
  - intros A. exact (@duplicate_constant_spec A).
  - intros A. exact (@with_holds_pair A).
  - exact make_curve_position.
  - exact make_curve_rotation.
  - exact make_curve_pattern_not_duplicated.
Qed.

(** The example of C4: position keyframes at frames 0 and 10, constant on
    every axis, are exported as frames 0, 9, 10, and frame 9 carries the
    value of frame 0. *)
Lemma make_curve_constant_duplication_witness :
  exists v0 v1 : Tuple3,
    make_curve (fun _ => Quaternion_identity)
               (mkExporter {[ "center_c_n"%string := GMTBlenderBoneProps_default ]} false)
               {[ "x"%string := [mkPoint (0, 1)%Q 0; mkPoint (10, 2)%Q 0];
                  "y"%string := [mkPoint (0, 3)%Q 0; mkPoint (10, 4)%Q 0];
                  "z"%string := [mkPoint (0, 5)%Q 0; mkPoint (10, 6)%Q 0] ]}
               ["x"%string; "y"%string; "z"%string] POS_VEC3 "center_c_n"%string
    = Ok (mkCurve POS_VEC3 (mkGraph [0; 9; 10]%Z (-1)) (Positions [v0; v0; v1])).
Proof.
  destruct make_curve_constant_duplication as (_ & _ & Hpos & _).
  do 2 eexists.
  rewrite (Hpos (fun _ => Quaternion_identity) _ _ "x"%string "y"%string "z"%string
                [mkPoint (0, 1)%Q 0; mkPoint (10, 2)%Q 0]
                [mkPoint (0, 3)%Q 0; mkPoint (10, 4)%Q 0]
                [mkPoint (0, 5)%Q 0; mkPoint (10, 6)%Q 0]
                POS_VEC3 "center_c_n"%string GMTBlenderBoneProps_default).
  - reflexivity.
  - reflexivity.
  - reflexivity.
  - reflexivity.
  - reflexivity.
  - reflexivity.
  - discriminate.
  - apply lookup_singleton_eq.
Defined.

(** ** [merge_vector] *)

(** C8, the claim as stated fails: with the old vector version and an
    animation from auth/hact, the merge is not a no-op (the vector bone's
    curves are reset) and yet nothing is added to the center bone: its
    curves stay as they were, although adding the vector's location would
    have changed them. *)
Lemma merge_vector_auth_counterexample :
  let slerp := fun (a _ : Quaternion) (_ : R) => a in
  let center := mkBone (LocationCurve [mkKeyframe 0 (mkVector 1 2 3)])
                       (RotationCurve [mkKeyframe 0 Quaternion_identity]) in
  let vector := mkBone (LocationCurve [mkKeyframe 0 (mkVector 5 0 0)])
                       (RotationCurve [mkKeyframe 0 Quaternion_identity]) in
  merge_vector slerp (Some center) (Some vector) OLD_VECTOR true
  = Ok (Some center, Some (mkBone (LocationCurve []) (RotationCurve [])))
  /\ add_curve slerp (location center) (location vector)
     = Ok (LocationCurve [mkKeyframe 0 (vadd (mkVector 1 2 3) (mkVector 5 0 0))])
  /\ LocationCurve [mkKeyframe 0 (vadd (mkVector 1 2 3) (mkVector 5 0 0))]
     <> location center.
Proof.
  cbv zeta. split; [reflexivity | split; [reflexivity |]].
  cbn [location vadd vx vy vz]. intros H. injection H as H. lra.
Qed.

Lemma adds_vector_cases (vector_version : GMTVectorVersion) (is_auth : bool) :
  adds_vector vector_version is_auth = true
  <-> vector_version = DRAGON_VECTOR \/ (vector_version = OLD_VECTOR /\ is_auth = false).
Proof.
  unfold adds_vector. destruct vector_version, is_auth; cbn; split; intros H;
    try discriminate; try reflexivity; auto;
    destruct H as [H | [H1 H2]]; discriminate.
Qed.

(** C8 as amended: when the merge is not a no-op (a vector version other
    than [NO_VECTOR], both bones present), the call ends with the vector
    bone's curves reset to empty curves of their kinds.  The vector's
    location and rotation are added into the center's curves by [add_curve]
    (so the center's own data takes part in the result) when the version is
    [DRAGON_VECTOR], or [OLD_VECTOR] with [is_auth] false; with [OLD_VECTOR]
    and [is_auth] true nothing is added and the center bone is unchanged.
    In the no-op cases both bones are returned as they were. *)
Theorem merge_vector_outcome :
  forall (slerp : Quaternion -> Quaternion -> R -> Quaternion)
         (center vector : GMTBone) (vector_version : GMTVectorVersion) (is_auth : bool),
    let reset := mkBone (GMTCurve_new LOCATION) (GMTCurve_new ROTATION) in
    (vector_version = DRAGON_VECTOR \/ (vector_version = OLD_VECTOR /\ is_auth = false) ->
     merge_vector slerp (Some center) (Some vector) vector_version is_auth
     = (l ← add_curve slerp (location center) (location vector);
        r ← add_curve slerp (rotation center) (rotation vector);
        mret (Some (mkBone l r), Some reset)))
    /\ (vector_version = OLD_VECTOR /\ is_auth = true ->
        merge_vector slerp (Some center) (Some vector) vector_version is_auth
        = Ok (Some center, Some reset))
    /\ merge_vector slerp (Some center) (Some vector) NO_VECTOR is_auth
       = Ok (Some center, Some vector)
    /\ (forall other : option GMTBone,
           merge_vector slerp None other vector_version is_auth = Ok (None, other)
           /\ merge_vector slerp other None vector_version is_auth = Ok (other, None)).
Proof.
  intros slerp center vector vv ia reset.
  split; [| split; [| split; [| intros other; split]]].
  - intros H. apply adds_vector_cases in H. unfold merge_vector. rewrite H.
    assert (Hv : vv <> NO_VECTOR).
    { intros ->. cbn in H. discriminate. }
    rewrite bool_decide_eq_false_2 by exact Hv.
    destruct (add_curve slerp (location center) (location vector)) as [l|e];
      py_simpl; [|reflexivity].
    destruct (add_curve slerp (rotation center) (rotation vector)) as [r|e];
      py_simpl; reflexivity.
  - intros [-> ->]. reflexivity.
  - reflexivity.
  - destruct other; reflexivity.
  - destruct other; reflexivity.
Qed.

Lemma merge_vector_outcome_witness :
  let slerp := fun (a _ : Quaternion) (_ : R) => a in
  let center := mkBone (LocationCurve [mkKeyframe 0 (mkVector 1 2 3)])
                       (RotationCurve [mkKeyframe 0 Quaternion_identity]) in
  let vector := mkBone (LocationCurve [mkKeyframe 0 (mkVector 5 0 0)])
                       (RotationCurve [mkKeyframe 0 Quaternion_identity]) in
  merge_vector slerp (Some center) (Some vector) DRAGON_VECTOR true
  = Ok (Some (mkBone
                (LocationCurve [mkKeyframe 0 (vadd (mkVector 1 2 3) (mkVector 5 0 0))])
                (RotationCurve [mkKeyframe 0 (qmul Quaternion_identity Quaternion_identity)])),
        Some (mkBone (LocationCurve []) (RotationCurve []))).
Proof.
  cbv zeta.
  destruct (merge_vector_outcome
              (fun (a _ : Quaternion) (_ : R) => a)
              (mkBone (LocationCurve [mkKeyframe 0 (mkVector 1 2 3)])
                      (RotationCurve [mkKeyframe 0 Quaternion_identity]))
              (mkBone (LocationCurve [mkKeyframe 0 (mkVector 5 0 0)])
                      (RotationCurve [mkKeyframe 0 Quaternion_identity]))
              DRAGON_VECTOR true) as [Hadd _].
  rewrite Hadd by (left; reflexivity). reflexivity.
Defined.

(** ** [add_curve]: the frames of a merge *)

Section DictFacts.

Context {V : Type}.

Lemma dict_get_set (d : dict V) (k : Z) (v : V) (i : Z) :
  dict_get (dict_set d k v) i = if (k =? i)%Z then Some v else dict_get d i.
Proof.
  induction d as [|[k' v'] d IH]; cbn.
  - reflexivity.
  - destruct (k' =? k)%Z eqn:Ek; cbn.
    + apply Z.eqb_eq in Ek. subst k'. destruct (k =? i)%Z; reflexivity.
    + rewrite IH. destruct (k' =? i)%Z eqn:Ei; [|reflexivity].
      apply Z.eqb_eq in Ei. subst k'. now rewrite Z.eqb_sym, Ek.
Qed.

Lemma has_key_fold (kfs : list (GMTKeyframe V)) (d : dict V) (i : Z) :
  has_key (fold_left (fun d kf => dict_set d (frame kf) (value kf)) kfs d) i = true
  <-> has_key d i = true \/ In i (frames_of kfs).
Proof.
  revert d. induction kfs as [|kf kfs IH]; intros d; cbn [fold_left frames_of List.map In].
  - tauto.
  - rewrite IH. unfold has_key at 1. rewrite dict_get_set.
    destruct (frame kf =? i)%Z eqn:E.
    + apply Z.eqb_eq in E. tauto.
    + apply Z.eqb_neq in E. fold (has_key d i). tauto.
Qed.

Lemma has_key_dict_of (kfs : list (GMTKeyframe V)) (i : Z) :
  has_key (dict_of_keyframes kfs) i = true <-> In i (frames_of kfs).
Proof.
  unfold dict_of_keyframes. rewrite has_key_fold. unfold has_key. cbn.
  split; [intros [H|H]; [discriminate | exact H] | tauto].
Qed.

Lemma has_key_keys (d : dict V) (k : Z) :
  In k (dict_keys d) -> has_key d k = true.
Proof.
  unfold has_key. induction d as [|[k' v'] d IH]; cbn; [tauto|].
  intros [-> | H].
  - now rewrite Z.eqb_refl.
  - destruct (k' =? k)%Z; [reflexivity | auto].
Qed.

Lemma dict_item_ok (d : dict V) (k : Z) :
  has_key d k = true -> exists v, dict_item d k = Ok v.
Proof.
  unfold has_key, dict_item. destruct (dict_get d k) as [v|]; [eauto | discriminate].
Qed.

Lemma next_filter_in (p : Z -> bool) (l : list Z) (dflt : Z) :
  In (Py.next (List.filter p l) dflt) l \/ Py.next (List.filter p l) dflt = dflt.
Proof.
  destruct (List.filter p l) as [|x xs] eqn:E; cbn; [now right | left].
  assert (H : In x (List.filter p l)) by (rewrite E; now left).
  now apply filter_In in H.
Qed.

Variable lerp : V -> V -> R -> V.

(** With its bounds among the keys, the value of a curve at a frame is
    always defined. *)
Lemma value_at_ok (d : dict V) (d_min d_max : Z) (i : Z) :
  has_key d d_min = true -> has_key d d_max = true ->
  exists v, value_at lerp d d_min d_max i = Ok v.
Proof.
  intros Hmin Hmax. unfold value_at.
  destruct (dict_get d i) as [v|] eqn:E; [eauto|].
  unfold interpolate_at.
  set (less := Py.next (List.filter (fun k => (k <? i)%Z) (rev (dict_keys d))) d_min).
  set (more := Py.next (List.filter (fun k => (k >? i)%Z) (dict_keys d)) d_max).
  assert (Hl : has_key d less = true).
  { subst less. destruct (next_filter_in (fun k => (k <? i)%Z) (rev (dict_keys d)) d_min)
      as [H | ->]; [|exact Hmin].
    apply has_key_keys. now apply in_rev. }
  assert (Hm : has_key d more = true).
  { subst more. destruct (next_filter_in (fun k => (k >? i)%Z) (dict_keys d) d_max)
      as [H | ->]; [|exact Hmax].
    now apply has_key_keys. }
  destruct (dict_item_ok d less Hl) as [a Ha].
  destruct (dict_item_ok d more Hm) as [b Hb].
  destruct (less =? more)%Z eqn:Elm; cbn [negb].
  - eauto.
  - rewrite Ha, Hb. py_simpl. rewrite truediv_ok.
    + py_simpl. eauto.
    + apply not_0_IZR. apply Z.eqb_neq in Elm. lia.
Qed.

Variable add : V -> V -> V.

(** The dense pass: a keyframe for every frame of the range that holds an
    explicit keyframe of either curve, and for no other. *)
Lemma merge_pass (cd od : dict V) (c_min c_max o_min o_max : Z) :
  has_key cd c_min = true -> has_key cd c_max = true ->
  has_key od o_min = true -> has_key od o_max = true ->
  forall (l : list Z) (acc : list (GMTKeyframe V)),
  exists res : list (GMTKeyframe V),
    Py.for_each
      (fun acc i =>
         match dict_get cd i, dict_get od i with
         | None, None => Ok acc
         | _, _ =>
             v1 ← value_at lerp cd c_min c_max i;
             v2 ← value_at lerp od o_min o_max i;
             mret (acc ++ [mkKeyframe i (add v1 v2)])
         end) l acc
    = Ok (acc ++ res)
    /\ frames_of res = List.filter (fun i => has_key cd i || has_key od i) l
    /\ Forall (fun kf => exists v1 v2,
                   value_at lerp cd c_min c_max (frame kf) = Ok v1
                   /\ value_at lerp od o_min o_max (frame kf) = Ok v2
                   /\ value kf = add v1 v2) res.
Proof.
  intros Hc1 Hc2 Ho1 Ho2 l.
  induction l as [|i l IH]; intros acc.
  - exists []. cbn. rewrite List.app_nil_r. repeat split. constructor.
  - cbn [Py.for_each List.filter].
    destruct (value_at_ok cd c_min c_max i Hc1 Hc2) as [v1 Hv1].
    destruct (value_at_ok od o_min o_max i Ho1 Ho2) as [v2 Hv2].
    unfold has_key at 1 2.
    destruct (dict_get cd i) as [a|] eqn:Ec; [|destruct (dict_get od i) as [b|] eqn:Eo].
    + rewrite Hv1, Hv2. py_simpl.
      destruct (IH (acc ++ [mkKeyframe i (add v1 v2)])) as (res & Hres & Hf & Hall).
      exists (mkKeyframe i (add v1 v2) :: res). rewrite Hres, <- List.app_assoc.
      cbn [orb]. repeat split.
      * change (frames_of (mkKeyframe i (add v1 v2) :: res)) with (i :: frames_of res).
        now rewrite Hf.
      * constructor; [cbn; eauto | exact Hall].
    + rewrite Hv1, Hv2. py_simpl.
      destruct (IH (acc ++ [mkKeyframe i (add v1 v2)])) as (res & Hres & Hf & Hall).
      exists (mkKeyframe i (add v1 v2) :: res). rewrite Hres, <- List.app_assoc.
      cbn [orb]. repeat split.
      * change (frames_of (mkKeyframe i (add v1 v2) :: res)) with (i :: frames_of res).
        now rewrite Hf.
      * constructor; [cbn; eauto | exact Hall].
    + py_simpl. cbn [orb]. apply IH.
Qed.

End DictFacts.

Lemma in_range (n i : Z) : In i (Py.range n) <-> (0 <= i < n)%Z.
Proof.
  unfold Py.range. rewrite in_map_iff. split.
  - intros (k & <- & Hk). apply in_seq in Hk. lia.
  - intros H. exists (Z.to_nat i). split; [lia|]. apply in_seq. lia.
Qed.

Lemma seq_sorted (len start : nat) :
  StronglySorted Z.lt (List.map Z.of_nat (seq start len)).
Proof.
  revert start. induction len as [|len IH]; intros start; cbn; constructor.
  - apply IH.
  - apply List.Forall_forall. intros z Hz. apply in_map_iff in Hz.
    destruct Hz as (k & <- & Hk). apply in_seq in Hk. lia.
Qed.

Lemma filter_sorted (p : Z -> bool) (l : list Z) :
  StronglySorted Z.lt l -> StronglySorted Z.lt (List.filter p l).
Proof.
  induction 1 as [|x l Hs IH Hx]; cbn; [constructor|].
  destruct (p x); [|exact IH].
  constructor; [exact IH|].
  apply List.Forall_forall. intros y Hy. apply filter_In in Hy.
  rewrite List.Forall_forall in Hx. now apply Hx.
Qed.

Lemma last_cons {A : Type} (x d : A) (l : list A) :
  List.last (x :: l) d = List.last l x.
Proof.
  revert x d. induction l as [|a l IH]; intros x d; [reflexivity|].
  change (List.last (x :: a :: l) d) with (List.last (a :: l) d).
  now rewrite !IH.
Qed.

Lemma last_frame_in {V : Type} (k : GMTKeyframe V) (ks : list (GMTKeyframe V)) :
  In (frame (List.last ks k)) (frames_of (k :: ks)).
Proof.
  revert k. induction ks as [|k' ks IH]; intros k.
  - now left.
  - right. rewrite last_cons. apply (IH k').
Qed.

Lemma frames_below_end {V : Type} (k : GMTKeyframe V) (ks : list (GMTKeyframe V)) (f : Z) :
  StronglySorted Z.lt (frames_of (k :: ks)) ->
  In f (frames_of (k :: ks)) -> (f <= get_end_frame (k :: ks))%Z.
Proof.
  cbn [get_end_frame]. revert k. induction ks as [|k' ks IH]; intros k Hs Hin.
  - destruct Hin as [<- | []]. cbn. lia.
  - change (frames_of (k :: k' :: ks)) with (frame k :: frames_of (k' :: ks)) in *.
    inversion Hs as [|x l Hs' Hall]; subst.
    rewrite last_cons.
    destruct Hin as [<- | Hin].
    + rewrite List.Forall_forall in Hall.
      specialize (Hall _ (last_frame_in k' ks)). lia.
    + now apply IH.
Qed.

Section AddKeyframes.

Context {V : Type}.
Variable add : V -> V -> V.
Variable lerp : V -> V -> R -> V.

(** What [add_keyframes] returns for two curves that have keyframes. *)
Lemma add_keyframes_spec (c : GMTKeyframe V) (cs : list (GMTKeyframe V))
      (o : GMTKeyframe V) (os : list (GMTKeyframe V)) :
  let curve := c :: cs in
  let other := o :: os in
  let cd := dict_of_keyframes curve in
  let od := dict_of_keyframes other in
  exists res : list (GMTKeyframe V),
    add_keyframes add lerp curve other = Ok res
    /\ frames_of res
       = List.filter (fun i => has_key cd i || has_key od i)
                     (Py.range (Z.max (get_end_frame curve) (get_end_frame other) + 1))
    /\ Forall (fun kf => exists v1 v2,
                   value_at lerp cd (frame c) (frame (List.last cs c)) (frame kf) = Ok v1
                   /\ value_at lerp od (frame o) (frame (List.last os o)) (frame kf) = Ok v2
                   /\ value kf = add v1 v2) res.
Proof.
  intros curve other cd od.
  assert (Hc1 : has_key cd (frame c) = true) by (apply has_key_dict_of; now left).
  assert (Hc2 : has_key cd (frame (List.last cs c)) = true)
    by (apply has_key_dict_of, last_frame_in).
  assert (Ho1 : has_key od (frame o) = true) by (apply has_key_dict_of; now left).
  assert (Ho2 : has_key od (frame (List.last os o)) = true)
    by (apply has_key_dict_of, last_frame_in).
  destruct (merge_pass lerp add cd od _ _ _ _ Hc1 Hc2 Ho1 Ho2
              (Py.range (Z.max (get_end_frame curve) (get_end_frame other) + 1)) [])
    as (res & Hres & Hf & Hall).
  exists res. split; [|split; assumption].
  unfold add_keyframes. cbn [Py.first Py.last Py.index nth_error]. py_simpl.
  subst curve other. cbn [Py.last]. py_simpl. exact Hres.
Qed.

Lemma add_keyframes_frames (curve other : list (GMTKeyframe V)) :
  curve <> [] -> other <> [] ->
  valid_frames (frames_of curve) -> valid_frames (frames_of other) ->
  exists res : list (GMTKeyframe V),
    add_keyframes add lerp curve other = Ok res
    /\ (forall i : Z, In i (frames_of res)
                      <-> In i (frames_of curve) \/ In i (frames_of other))
    /\ StronglySorted Z.lt (frames_of res).
Proof.
  intros Hc Ho [Hc0 Hcs] [Ho0 Hos].
  destruct curve as [|c cs]; [contradiction|]. destruct other as [|o os]; [contradiction|].
  destruct (add_keyframes_spec c cs o os) as (res & Hres & Hf & _).
  exists res. split; [exact Hres|]. rewrite Hf. split.
  - intros i. rewrite filter_In, in_range, orb_true_iff, !has_key_dict_of.
    split; [tauto|]. intros H. split; [|exact H].
    rewrite List.Forall_forall in Hc0, Ho0.
    destruct H as [H|H].
    + pose proof (frames_below_end c cs i Hcs H). specialize (Hc0 i H). cbn beta in Hc0. lia.
    + pose proof (frames_below_end o os i Hos H). specialize (Ho0 i H). cbn beta in Ho0. lia.
  - apply filter_sorted. apply seq_sorted.
Qed.

End AddKeyframes.

Lemma seed_nonempty {V : Type} (identity : V) (kfs : list (GMTKeyframe V)) :
  kfs <> [] -> seed identity kfs = kfs.
Proof. destruct kfs; [contradiction | reflexivity]. Qed.

(** C2: for two curves with keyframes, of the same type (location or
    rotation, the types [add_curve] merges) and with valid frames,
    [add_curve] returns a merged curve of that type whose frames are exactly
    the frames that hold a keyframe in either curve: each of them is there,
    once and in increasing order, and no other frame is. *)
Theorem add_curve_frames_union :
  forall (slerp : Quaternion -> Quaternion -> R -> Quaternion) (curve other : GMTCurve),
    curve_type curve = curve_type other ->
    curve_type curve <> PATTERN_HAND ->
    curve_frames curve <> [] -> curve_frames other <> [] ->
    valid_frames (curve_frames curve) -> valid_frames (curve_frames other) ->
    exists merged : GMTCurve,
      add_curve slerp curve other = Ok merged
      /\ curve_type merged = curve_type curve
      /\ (forall i : Z, In i (curve_frames merged)
                        <-> In i (curve_frames curve) \/ In i (curve_frames other))
      /\ StronglySorted Z.lt (curve_frames merged).
Proof.
  intros slerp curve other Hty Hkind Hc Ho Vc Vo.
  unfold add_curve. rewrite bool_decide_eq_true_2 by exact Hty. cbn [negb].
  destruct curve as [ck|ck|ck], other as [ok|ok|ok]; try discriminate;
    try (exfalso; apply Hkind; reflexivity); cbn [curve_frames] in *.
  - assert (Hck : ck <> []) by (intros ->; apply Hc; reflexivity).
    assert (Hok : ok <> []) by (intros ->; apply Ho; reflexivity).
    rewrite seed_nonempty by exact Hck.
    destruct (add_keyframes_frames vadd vlerp ck ok Hck Hok Vc Vo) as (res & Hres & Hin & Hs).
    exists (LocationCurve res). rewrite Hres. repeat split; try assumption; apply Hin.
  - assert (Hck : ck <> []) by (intros ->; apply Hc; reflexivity).
    assert (Hok : ok <> []) by (intros ->; apply Ho; reflexivity).
    rewrite seed_nonempty by exact Hck.
    destruct (add_keyframes_frames qmul slerp ck ok Hck Hok Vc Vo) as (res & Hres & Hin & Hs).
    exists (RotationCurve res). rewrite Hres. repeat split; try assumption; apply Hin.
Qed.

Lemma add_curve_frames_union_witness :
  let slerp := fun (a _ : Quaternion) (_ : R) => a in
  let v := mkVector 1 2 3 in
  let curve := LocationCurve [mkKeyframe 0 v; mkKeyframe 5 v; mkKeyframe 10 v] in
  let other := LocationCurve [mkKeyframe 0 v; mkKeyframe 3 v; mkKeyframe 10 v] in
  exists merged : GMTCurve,
    add_curve slerp curve other = Ok merged
    /\ (forall i : Z, In i (curve_frames merged) <-> In i [0; 3; 5; 10]%Z).
Proof.
  cbv zeta.
  destruct (add_curve_frames_union
              (fun (a _ : Quaternion) (_ : R) => a)
              (LocationCurve [mkKeyframe 0 (mkVector 1 2 3); mkKeyframe 5 (mkVector 1 2 3);
                              mkKeyframe 10 (mkVector 1 2 3)])
              (LocationCurve [mkKeyframe 0 (mkVector 1 2 3); mkKeyframe 3 (mkVector 1 2 3);
                              mkKeyframe 10 (mkVector 1 2 3)]))
    as (merged & Hm & _ & Hin & _).
  - reflexivity.
  - discriminate.
  - discriminate.
  - discriminate.
  - split; cbn; repeat constructor; lia.
  - split; cbn; repeat constructor; lia.
  - exists merged. split; [exact Hm|].
    intros i. rewrite Hin. cbn. intuition.
Defined.

(** ** [add_curve] and curves without keyframes *)

(** C3, the code at the failing input: when [other] has no keyframes,
    [add_curve] raises [IndexError] (at [other.keyframes[0]]), whatever
    [curve] holds; only [curve] is seeded. *)
Theorem add_curve_empty_other_raises :
  forall (slerp : Quaternion -> Quaternion -> R -> Quaternion)
         (ck : list (GMTKeyframe Vector)) (rk : list (GMTKeyframe Quaternion)),
    add_curve slerp (LocationCurve ck) (GMTCurve_new LOCATION) = Err IndexError
    /\ add_curve slerp (RotationCurve rk) (GMTCurve_new ROTATION) = Err IndexError.
Proof.
  intros slerp ck rk. unfold add_curve. cbn [curve_type GMTCurve_new].
  rewrite !bool_decide_eq_true_2 by reflexivity. cbn [negb].
  split.
  - destruct ck as [|c ck]; unfold add_keyframes; cbn [seed length Nat.eqb List.app];
      cbn [Py.first Py.last Py.index nth_error]; py_simpl; reflexivity.
  - destruct rk as [|c rk]; unfold add_keyframes; cbn [seed length Nat.eqb List.app];
      cbn [Py.first Py.last Py.index nth_error]; py_simpl; reflexivity.
Qed.

Section SeededMerge.

Context {V : Type}.
Variable add : V -> V -> V.
Variable lerp : V -> V -> R -> V.
Variable identity : V.
Hypothesis add_identity : forall v : V, add identity v = v.

Lemma dict_get_fold_other (kfs : list (GMTKeyframe V)) (d : dict V) (i : Z) :
  ~ In i (frames_of kfs) ->
  dict_get (fold_left (fun d kf => dict_set d (frame kf) (value kf)) kfs d) i
  = dict_get d i.
Proof.
  revert d. induction kfs as [|kf kfs IH]; intros d Hn; [reflexivity|].
  cbn [fold_left]. rewrite IH.
  - rewrite dict_get_set. destruct (frame kf =? i)%Z eqn:E; [|reflexivity].
    apply Z.eqb_eq in E. exfalso. apply Hn. now left.
  - intros H. apply Hn. now right.
Qed.

Lemma dict_get_fold_in (kfs : list (GMTKeyframe V)) (d : dict V) (kf : GMTKeyframe V) :
  List.NoDup (frames_of kfs) -> In kf kfs ->
  dict_get (fold_left (fun d kf => dict_set d (frame kf) (value kf)) kfs d) (frame kf)
  = Some (value kf).
Proof.
  revert d. induction kfs as [|k kfs IH]; intros d Hnd Hin; [contradiction|].
  change (frames_of (k :: kfs)) with (frame k :: frames_of kfs) in Hnd.
  inversion Hnd as [|x l Hx Hnd']; subst.
  cbn [fold_left]. destruct Hin as [-> | Hin].
  - rewrite dict_get_fold_other by exact Hx.
    rewrite dict_get_set. now rewrite Z.eqb_refl.
  - now apply IH.
Qed.

Lemma sorted_nodup (fs : list Z) : StronglySorted Z.lt fs -> List.NoDup fs.
Proof.
  induction 1 as [|x l Hs IH Hx]; constructor; [|exact IH].
  intros Hin. rewrite List.Forall_forall in Hx. specialize (Hx x Hin). lia.
Qed.

(** The seeded curve has the identity at every frame. *)
Lemma value_at_seed (i : Z) :
  value_at lerp (dict_of_keyframes [mkKeyframe 0 identity]) 0 0 i = Ok identity.
Proof.
  unfold value_at, interpolate_at. destruct i as [|p|p]; reflexivity.
Qed.

(** Merging into a curve without keyframes: the curve is seeded with the
    identity at frame 0 and every keyframe of [other] comes out as it is. *)
Lemma add_keyframes_seeded (other : list (GMTKeyframe V)) :
  other <> [] -> valid_frames (frames_of other) ->
  exists res : list (GMTKeyframe V),
    add_keyframes add lerp (seed identity []) other = Ok res
    /\ (forall kf : GMTKeyframe V, In kf other -> In kf res)
    /\ (forall i : Z, In i (frames_of res) <-> i = 0%Z \/ In i (frames_of other)).
Proof.
  intros Hne [H0 Hs]. destruct other as [|o os]; [contradiction|].
  cbn [seed length Nat.eqb List.app].
  destruct (add_keyframes_spec add lerp (mkKeyframe 0 identity) [] o os)
    as (res & Hres & Hf & Hall).
  cbn [List.last frame] in Hall.
  exists res. split; [exact Hres|].
  assert (Hfr : forall i : Z, In i (frames_of res) <-> i = 0%Z \/ In i (frames_of (o :: os))).
  { intros i. rewrite Hf, filter_In, in_range, orb_true_iff, !has_key_dict_of.
    cbn [frames_of List.map In frame].
    split; [intros [_ [[H|[]]|H]]; auto|].
    rewrite List.Forall_forall in H0.
    intros [-> | H].
    - split; [|left; now left].
      pose proof (frames_below_end o os _ Hs (or_introl eq_refl)).
      specialize (H0 (frame o) (or_introl eq_refl)). cbn beta in H0.
      cbn [get_end_frame List.last frame]. lia.
    - split; [|now right].
      pose proof (frames_below_end o os i Hs H). specialize (H0 i H). cbn beta in H0.
      lia. }
  split; [|exact Hfr].
  intros kf Hkf.
  assert (Hin : In (frame kf) (frames_of res)).
  { apply Hfr. right. unfold frames_of. now apply in_map. }
  unfold frames_of in Hin. apply in_map_iff in Hin. destruct Hin as (kf' & Hfk & Hin').
  rewrite List.Forall_forall in Hall.
  destruct (Hall kf' Hin') as (v1 & v2 & Hv1 & Hv2 & Hval).
  rewrite value_at_seed in Hv1. injection Hv1 as <-.
  unfold value_at in Hv2. rewrite Hfk in Hv2.
  unfold dict_of_keyframes in Hv2.
  rewrite (dict_get_fold_in (o :: os) [] kf (sorted_nodup _ Hs) Hkf) in Hv2.
  injection Hv2 as <-. rewrite add_identity in Hval.
  destruct kf' as [f' v'], kf as [f v]. cbn in Hfk, Hval. subst. exact Hin'.
Qed.

End SeededMerge.

Lemma vadd_zero_l (v : Vector) : vadd Vector_zero v = v.
Proof. destruct v as [x y z]. unfold vadd. cbn. f_equal; ring. Qed.

Lemma qmul_identity_l (q : Quaternion) : qmul Quaternion_identity q = q.
Proof. destruct q as [w x y z]. unfold qmul. cbn. f_equal; ring. Qed.

(** The part of the merge identity the code does provide: merged into a
    curve that starts without keyframes, a curve with keyframes (valid
    frames) comes out with every keyframe unchanged; the result has a
    keyframe at frame 0 as well. *)
Lemma add_curve_into_empty :
  forall (slerp : Quaternion -> Quaternion -> R -> Quaternion),
    (forall other : list (GMTKeyframe Vector),
        other <> [] -> valid_frames (frames_of other) ->
        exists res : list (GMTKeyframe Vector),
          add_curve slerp (GMTCurve_new LOCATION) (LocationCurve other)
          = Ok (LocationCurve res)
          /\ (forall kf, In kf other -> In kf res)
          /\ (forall i : Z, In i (frames_of res) <-> i = 0%Z \/ In i (frames_of other)))
    /\ (forall other : list (GMTKeyframe Quaternion),
           other <> [] -> valid_frames (frames_of other) ->
           exists res : list (GMTKeyframe Quaternion),
             add_curve slerp (GMTCurve_new ROTATION) (RotationCurve other)
             = Ok (RotationCurve res)
             /\ (forall kf, In kf other -> In kf res)
             /\ (forall i : Z, In i (frames_of res) <-> i = 0%Z \/ In i (frames_of other))).
Proof.
  intros slerp. split; intros other Hne Hv; unfold add_curve;
    cbn [curve_type GMTCurve_new]; rewrite bool_decide_eq_true_2 by reflexivity; cbn [negb].
  - destruct (add_keyframes_seeded vadd vlerp Vector_zero vadd_zero_l other Hne Hv)
      as (res & Hres & Hk & Hf).
    exists res. rewrite Hres. repeat split; auto; apply Hf.
  - destruct (add_keyframes_seeded qmul slerp Quaternion_identity qmul_identity_l other Hne Hv)
      as (res & Hres & Hk & Hf).
    exists res. rewrite Hres. repeat split; auto; apply Hf.
Qed.

(** ** Bone-space transforms *)

Ltac mat_unfold :=
  cbv [mmul build entry inverted inverse_of determinant cofactor minor det3 skip
       Nat.even Nat.add Nat.ltb Nat.leb
       m00 m01 m02 m03 m10 m11 m12 m13 m20 m21 m22 m23 m30 m31 m32 m33
       a00 a01 a02 a10 a11 a12 a20 a21 a22
       Matrix_identity Translation to_translation to_4x4 to_matrix vx vy vz affine].

Lemma mmul_assoc (a b c : Matrix4) : mmul (mmul a b) c = mmul a (mmul b c).
Proof. destruct a, b, c. mat_unfold. f_equal; ring. Qed.

Lemma mmul_identity_l (a : Matrix4) : mmul Matrix_identity a = a.
Proof. destruct a. mat_unfold. f_equal; ring. Qed.

Lemma mmul_identity_r (a : Matrix4) : mmul a Matrix_identity = a.
Proof. destruct a. mat_unfold. f_equal; ring. Qed.

(** [Matrix.inverted] returns a two-sided inverse whenever the determinant
    is not zero. *)
Lemma inverted_ok (m : Matrix4) :
  determinant m <> 0 ->
  exists m' : Matrix4,
    inverted m = Ok m' /\ mmul m' m = Matrix_identity /\ mmul m m' = Matrix_identity.
Proof.
  intros Hd. exists (inverse_of m). split; [now apply inverted_inverse_of|].
  destruct m. revert Hd. mat_unfold. intros Hd.
  split; f_equal; field; exact Hd.
Qed.

Lemma determinant_Translation (v : Vector) : determinant (Translation v) = 1.
Proof. destruct v. mat_unfold. ring. Qed.

Lemma determinant_rotation (q : Quaternion) :
  determinant (to_4x4 (to_matrix q))
  = 1 + 4 * (qx q * qx q + qy q * qy q + qz q * qz q) * (qdot q q - 1).
Proof. destruct q as [w x y z]. unfold qdot. mat_unfold. cbn. ring. Qed.

Lemma determinant_unit (q : Quaternion) :
  is_unit q -> determinant (to_4x4 (to_matrix q)) = 1.
Proof. intros H. rewrite determinant_rotation, H. ring. Qed.

Lemma affine_rotation_translation (q : Quaternion) (v : Vector) :
  affine (mmul (to_4x4 (to_matrix q)) (Translation v)).
Proof. destruct q, v. mat_unfold. repeat split; ring. Qed.

(** Conjugating a translation by an affine matrix and its inverse gives a
    translation again. *)
Lemma conjugated_translation (P P' : Matrix4) (d : Vector) :
  affine P -> mmul P' P = Matrix_identity -> mmul P P' = Matrix_identity ->
  mmul (mmul P' (Translation d)) P
  = Translation (to_translation (mmul (mmul P' (Translation d)) P)).
Proof.
  destruct P as [p00 p01 p02 p03 p10 p11 p12 p13 p20 p21 p22 p23 p30 p31 p32 p33].
  destruct P' as [q00 q01 q02 q03 q10 q11 q12 q13 q20 q21 q22 q23 q30 q31 q32 q33].
  destruct d as [d0 d1 d2].
  mat_unfold. intros (H30 & H31 & H32 & H33) Hl Hr. subst p30 p31 p32 p33.
  injection Hr as _ _ _ _ _ _ _ _ _ _ _ _ R30 R31 R32 R33.
  injection Hl as L00 L01 L02 _ L10 L11 L12 _ L20 L21 L22 _ _ _ _ _.
  assert (q30 = 0) by lra. assert (q31 = 0) by lra.
  assert (q32 = 0) by lra. assert (q33 = 1) by lra. subst q30 q31 q32 q33.
  f_equal; lra.
Qed.

Lemma translation_roundtrip (P P' : Matrix4) (d : Vector) :
  affine P -> mmul P' P = Matrix_identity -> mmul P P' = Matrix_identity ->
  to_translation
    (mmul (mmul P (Translation (to_translation (mmul (mmul P' (Translation d)) P)))) P')
  = d.
Proof.
  intros Ha Hl Hr.
  rewrite <- (conjugated_translation P P' d Ha Hl Hr).
  rewrite (mmul_assoc P' (Translation d) P).
  rewrite <- (mmul_assoc P P' (mmul (Translation d) P)).
  rewrite Hr, mmul_identity_l.
  rewrite (mmul_assoc (Translation d) P P'), Hr, mmul_identity_r.
  destruct d. reflexivity.
Qed.

Lemma qmul_assoc (a b c : Quaternion) : qmul (qmul a b) c = qmul a (qmul b c).
Proof. destruct a, b, c. unfold qmul. cbn. f_equal; ring. Qed.

Lemma qmul_identity_r (q : Quaternion) : qmul q Quaternion_identity = q.
Proof. destruct q as [w x y z]. unfold qmul. cbn. f_equal; ring. Qed.

Lemma qinverted_l (q : Quaternion) :
  qdot q q <> 0 -> qmul (qinverted q) q = Quaternion_identity.
Proof.
  intros Hq. unfold qinverted. destruct (Req_dec_T (qdot q q) 0) as [E|_]; [contradiction|].
  destruct q as [w x y z]. unfold qdot, qmul, qconjugated, Quaternion_identity in *.
  cbn in *. f_equal; field; exact Hq.
Qed.

Lemma qinverted_r (q : Quaternion) :
  qdot q q <> 0 -> qmul q (qinverted q) = Quaternion_identity.
Proof.
  intros Hq. unfold qinverted. destruct (Req_dec_T (qdot q q) 0) as [E|_]; [contradiction|].
  destruct q as [w x y z]. unfold qdot, qmul, qconjugated, Quaternion_identity in *.
  cbn in *. f_equal; field; exact Hq.
Qed.

Lemma unit_nonzero (q : Quaternion) : is_unit q -> qdot q q <> 0.
Proof. unfold is_unit. intros ->. lra. Qed.

Lemma identity_unit : is_unit Quaternion_identity.
Proof. unfold is_unit, qdot. cbn. ring. Qed.


Lemma unit_invertible (q : Quaternion) : is_unit q -> invertible_rotation q.
Proof.
  intros Hq. split; [now apply unit_nonzero|].
  rewrite determinant_unit by exact Hq. lra.
Qed.

(** A table of unit quaternions is valid. *)
Lemma unit_bone_props_valid (bone_props : gmap string GMTBlenderBoneProps) :
  (forall (name : string) (p : GMTBlenderBoneProps),
      bone_props !! name = Some p -> is_unit (rot p) /\ is_unit (rot_local p)) ->
  valid_bone_props bone_props.
Proof.
  intros H name p Hp. destruct (H name p Hp) as [Hr Hl].
  split; [now apply unit_invertible | now apply unit_nonzero].
Qed.

Lemma get_props_valid (bone_props : gmap string GMTBlenderBoneProps) (bone_name : string) :
  valid_bone_props bone_props ->
  invertible_rotation (rot (get_props bone_props bone_name))
  /\ qdot (rot_local (get_props bone_props bone_name))
          (rot_local (get_props bone_props bone_name)) <> 0.
Proof.
  intros Hv. unfold get_props.
  destruct (bone_props !! bone_name) as [p|] eqn:E; cbn.
  - exact (Hv _ _ E).
  - split; [apply unit_invertible | apply unit_nonzero]; exact identity_unit.
Qed.

Lemma parent_rot_nonzero (bone_props : gmap string GMTBlenderBoneProps)
      (prop : GMTBlenderBoneProps) :
  valid_bone_props bone_props ->
  qdot (parent_rot_of bone_props prop) (parent_rot_of bone_props prop) <> 0.
Proof.
  intros Hv. unfold parent_rot_of, get_parent.
  destruct (parent_name prop) as [n|]; cbn; [|apply unit_nonzero, identity_unit].
  destruct (bone_props !! n) as [p|] eqn:E; [|apply unit_nonzero, identity_unit].
  exact (proj2 (Hv _ _ E)).
Qed.


(** The two matrices of the location transforms, and that they are inverse
    to each other. *)
Lemma location_matrices (q : Quaternion) (l : Vector) :
  determinant (to_4x4 (to_matrix q)) <> 0 ->
  exists pre : Matrix4,
    (tl ← inverted (Translation l);
     rt ← inverted (to_4x4 (to_matrix q));
     mret (mmul tl rt)) = Ok pre
    /\ mmul pre (mmul (to_4x4 (to_matrix q)) (Translation l)) = Matrix_identity
    /\ mmul (mmul (to_4x4 (to_matrix q)) (Translation l)) pre = Matrix_identity.
Proof.
  intros Hq.
  destruct (inverted_ok (Translation l)) as (tl & Htl & Htl1 & Htl2).
  { rewrite determinant_Translation. lra. }
  destruct (inverted_ok (to_4x4 (to_matrix q)) Hq) as (rt & Hrt & Hrt1 & Hrt2).
  exists (mmul tl rt). rewrite Htl, Hrt. py_simpl. split; [reflexivity|]. split.
  - rewrite mmul_assoc, <- (mmul_assoc rt), Hrt1, mmul_identity_l. exact Htl1.
  - rewrite mmul_assoc, <- (mmul_assoc (Translation l)), Htl2, mmul_identity_l. exact Hrt2.
Qed.








(** ** Field of view: the two conversions undo each other *)

(** X1: for a field of view strictly between -pi and pi, other than 0, and
    a sensor height other than 0, converting to a focal length and back
    returns the field of view. *)
Theorem fov_roundtrip :
  forall fov sensor_height : R,
    - PI < fov < PI -> fov <> 0 -> sensor_height <> 0 ->
    (focal ← fov_to_blender fov sensor_height; fov_from_blender focal sensor_height)
    = Ok fov.
Proof.
  intros fov sh Hr Hf Hs.
  assert (Ht : tan (fov / 2) <> 0).
  { destruct (Rlt_or_le 0 fov) as [Hp|Hn].
    - apply Rgt_not_eq. apply tan_gt_0; lra.
    - apply Rlt_not_eq. apply tan_lt_0; lra. }
  unfold fov_to_blender, fov_from_blender.
  rewrite (truediv_ok sh 2) by lra. rewrite (truediv_ok fov 2) by lra. py_simpl.
  rewrite truediv_ok by exact Ht. py_simpl.
  rewrite truediv_ok.
  - py_simpl. f_equal.
    replace (sh / (2 * (sh / 2 / tan (fov / 2)))) with (tan (fov / 2)) by (field; split; auto).
    rewrite atan_tan by lra. lra.
  - intros E. apply Ht.
    assert (E' : sh / 2 / tan (fov / 2) = 0) by lra.
    apply (f_equal (fun t => t * tan (fov / 2) * 2)) in E'.
    replace (sh / 2 / tan (fov / 2) * tan (fov / 2) * 2) with sh in E' by (field; exact Ht).
    lra.
Qed.

Lemma fov_roundtrip_witness :
  (focal ← fov_to_blender 1 100; fov_from_blender focal 100) = Ok 1.
Proof.
  apply fov_roundtrip; try lra. pose proof PI_RGT_0. pose proof PI2_1. lra.
Defined.

(** X2: for a focal length and a sensor height other than 0, converting to
    a field of view and back returns the focal length. *)
Theorem focal_roundtrip :
  forall focal sensor_height : R,
    focal <> 0 -> sensor_height <> 0 ->
    (fov ← fov_from_blender focal sensor_height; fov_to_blender fov sensor_height)
    = Ok focal.
Proof.
  intros focal sh Hf Hs.
  unfold fov_to_blender, fov_from_blender.
  rewrite (truediv_ok sh (2 * focal)) by lra. py_simpl.
  rewrite (truediv_ok sh 2) by lra. py_simpl.
  rewrite (truediv_ok (2 * atan (sh / (2 * focal))) 2) by lra. py_simpl.
  replace (2 * atan (sh / (2 * focal)) / 2) with (atan (sh / (2 * focal))) by lra.
  rewrite tan_atan.
  assert (Hq : sh / (2 * focal) <> 0).
  { intros E. apply Hs.
    apply (f_equal (fun t => t * (2 * focal))) in E.
    replace (sh / (2 * focal) * (2 * focal)) with sh in E by (field; exact Hf). lra. }
  rewrite truediv_ok by exact Hq. f_equal. field. split; assumption.
Qed.

Lemma focal_roundtrip_witness :
  (fov ← fov_from_blender 50 100; fov_to_blender fov 100) = Ok 50.
Proof. apply focal_roundtrip; lra. Defined.

(** ** More on the bone-space transforms *)

Lemma rotation_identity_matrix : to_4x4 (to_matrix Quaternion_identity) = Matrix_identity.
Proof. mat_unfold. cbn. f_equal; ring. Qed.

Lemma Translation_zero : Translation Vector_zero = Matrix_identity.
Proof. reflexivity. Qed.

Lemma to_translation_Translation (v : Vector) : to_translation (Translation v) = v.
Proof. destruct v. reflexivity. Qed.

Lemma qinverted_identity : qinverted Quaternion_identity = Quaternion_identity.
Proof.
  rewrite <- (qmul_identity_r (qinverted Quaternion_identity)).
  apply qinverted_l. apply unit_nonzero, identity_unit.
Qed.

Lemma vector_unchanged (x : Vector) : vadd (vsub x Vector_zero) Vector_zero = x.
Proof. destruct x. unfold vadd, vsub. cbn. f_equal; ring. Qed.

Lemma vector_unchanged' (x : Vector) : vsub (vadd x Vector_zero) Vector_zero = x.
Proof. destruct x. unfold vadd, vsub. cbn. f_equal; ring. Qed.

(** X3: a bone that is not in the table is no error for the converter's
    transforms: they use the identity descriptor, so the to-editor
    transforms return the values as they are and the from-editor transforms
    only apply the coordinate maps. *)
Theorem unregistered_bone_transforms :
  forall (bone_props : gmap string GMTBlenderBoneProps) (bone_name : string)
         (vs : list Vector) (qs : list Quaternion),
    bone_props !! bone_name = None ->
    transform_location_to_blender bone_props bone_name vs = Ok vs
    /\ transform_location_from_blender bone_props bone_name vs
       = Ok (List.map pos_from_blender vs)
    /\ transform_rotation_to_blender bone_props bone_name qs = qs
    /\ transform_rotation_from_blender bone_props bone_name qs
       = List.map rot_from_blender qs.
Proof.
  intros bone_props bone_name vs qs Hnone.
  assert (Hp : get_props bone_props bone_name = GMTBlenderBoneProps_default).
  { unfold get_props. now rewrite Hnone. }
  destruct (location_matrices Quaternion_identity Vector_zero) as (pre & Hpre & Hl & _).
  { rewrite rotation_identity_matrix. mat_unfold. lra. }
  rewrite rotation_identity_matrix, Translation_zero, !mmul_identity_r in Hl.
  subst pre.
  unfold transform_location_to_blender, transform_location_from_blender,
    transform_rotation_to_blender, transform_rotation_from_blender.
  rewrite Hp. cbn [head loc rot rot_local GMTBlenderBoneProps_default parent_head_of
                   parent_rot_of get_parent parent_name mbind option_bind].
  rewrite Hpre. py_simpl.
  rewrite rotation_identity_matrix, Translation_zero, !mmul_identity_r, qinverted_identity.
  rewrite !qmul_identity_l.
  repeat split.
  - f_equal. rewrite <- (List.map_id vs) at 2. apply List.map_ext. intros x.
    rewrite mmul_identity_l, mmul_identity_r, to_translation_Translation.
    apply vector_unchanged.
  - f_equal. apply List.map_ext. intros x.
    rewrite mmul_identity_l, mmul_identity_r, to_translation_Translation.
    now rewrite vector_unchanged'.
  - rewrite <- (List.map_id qs) at 2. apply List.map_ext. intros x.
    now rewrite qmul_identity_l, qmul_identity_r.
  - apply List.map_ext. intros x. now rewrite qmul_identity_l, qmul_identity_r.
Qed.

Lemma unregistered_bone_transforms_witness :
  transform_location_to_blender ∅ "helper"%string [mkVector 1 2 3] = Ok [mkVector 1 2 3]
  /\ transform_rotation_to_blender ∅ "helper"%string [mkQuaternion 0 1 0 0]
     = [mkQuaternion 0 1 0 0].
Proof.
  destruct (unregistered_bone_transforms ∅ "helper"%string [mkVector 1 2 3]
              [mkQuaternion 0 1 0 0]) as (H1 & _ & H3 & _).
  - apply lookup_empty.
  - split; assumption.
Defined.

Lemma inverse_affine (P P' : Matrix4) :
  affine P -> mmul P P' = Matrix_identity -> affine P'.
Proof.
  destruct P as [p00 p01 p02 p03 p10 p11 p12 p13 p20 p21 p22 p23 p30 p31 p32 p33].
  destruct P' as [q00 q01 q02 q03 q10 q11 q12 q13 q20 q21 q22 q23 q30 q31 q32 q33].
  mat_unfold. intros (H30 & H31 & H32 & H33) Hr. subst p30 p31 p32 p33.
  injection Hr as _ _ _ _ _ _ _ _ _ _ _ _ R30 R31 R32 R33.
  repeat split; lra.
Qed.

Lemma affine_to_4x4 (m : Matrix3) : affine (to_4x4 m).
Proof. destruct m. mat_unfold. repeat split; reflexivity. Qed.

Lemma vector_forth (t h p : Vector) : vadd (vsub (vsub (vadd t h) p) h) p = t.
Proof. destruct t, h, p. unfold vsub, vadd. cbn. f_equal; ring. Qed.

Lemma pos_to_from (v : Vector) : pos_to_blender (pos_from_blender v) = v.
Proof.
  destruct v as [x y z]. unfold pos_to_blender, pos_from_blender. cbn.
  now rewrite Ropp_involutive.
Qed.

Lemma rot_to_from (q : Quaternion) : rot_to_blender (rot_from_blender q) = q.
Proof.
  destruct q as [w x y z]. unfold rot_to_blender, rot_from_blender. cbn.
  now rewrite Ropp_involutive.
Qed.

Lemma rotation_roundtrip_back (r rl pr x : Quaternion) :
  qdot r r <> 0 -> qdot rl rl <> 0 -> qdot pr pr <> 0 ->
  qmul (qmul (qmul (qinverted r) pr)
             (qmul (qmul (qmul (qinverted pr) r) x)
                   (qmul (qmul (qinverted r) pr) rl)))
       (qmul (qmul (qinverted rl) (qinverted pr)) r)
  = x.
Proof.
  intros Hr Hrl Hpr.
  rewrite !qmul_assoc.
  rewrite <- (qmul_assoc pr (qinverted pr)), (qinverted_r pr Hpr), qmul_identity_l.
  rewrite <- (qmul_assoc (qinverted r) r), (qinverted_l r Hr), qmul_identity_l.
  rewrite <- (qmul_assoc rl (qinverted rl)), (qinverted_r rl Hrl), qmul_identity_l.
  rewrite <- (qmul_assoc pr (qinverted pr)), (qinverted_r pr Hpr), qmul_identity_l.
  rewrite (qinverted_l r Hr). apply qmul_identity_r.
Qed.

(** X4: the round trip in the other direction.  For a valid table, editor
    values taken to the engine by the from-editor transforms and brought
    back (through [pos_to_blender], resp. [rot_to_blender], and the
    to-editor transforms) are the editor values they were. *)
Theorem bone_transform_roundtrip_back :
  forall (bone_props : gmap string GMTBlenderBoneProps) (bone_name : string),
    valid_bone_props bone_props ->
    (forall ys : list Vector,
        exists ps : list Tuple3,
          transform_location_from_blender bone_props bone_name ys = Ok ps
          /\ transform_location_to_blender bone_props bone_name (List.map pos_to_blender ps)
             = Ok ys)
    /\ (forall qs : list Quaternion,
           transform_rotation_to_blender bone_props bone_name
             (List.map rot_to_blender
                       (transform_rotation_from_blender bone_props bone_name qs))
           = qs).
Proof.
  intros bone_props bone_name Hv. split.
  - intros ys. unfold transform_location_to_blender, transform_location_from_blender.
    destruct (get_props_valid bone_props bone_name Hv) as [[_ Hr] _].
    set (prop := get_props bone_props bone_name) in *.
    destruct (location_matrices (rot prop) (loc prop) Hr) as (pre & Hpre & Hl & Hrr).
    rewrite Hpre. py_simpl. eexists. split; [reflexivity|]. f_equal.
    rewrite !List.map_map. rewrite <- (List.map_id ys) at 2.
    apply List.map_ext. intros y.
    rewrite pos_to_from, vector_forth.
    apply (translation_roundtrip pre _ y).
    + apply (inverse_affine _ pre (affine_rotation_translation _ _) Hrr).
    + exact Hrr.
    + exact Hl.
  - intros qs. unfold transform_rotation_to_blender, transform_rotation_from_blender.
    destruct (get_props_valid bone_props bone_name Hv) as [[Hr _] Hrl].
    set (prop := get_props bone_props bone_name) in *.
    pose proof (parent_rot_nonzero bone_props prop Hv) as Hp.
    rewrite !List.map_map. rewrite <- (List.map_id qs) at 2.
    apply List.map_ext. intros x. rewrite rot_to_from.
    now apply rotation_roundtrip_back.
Qed.

Lemma bone_transform_roundtrip_back_witness :
  let spine := mkProps (mkVector 0 1 0) (Some "root"%string) (mkVector 0 0 2)
                       (mkQuaternion 0 1 0 0) Quaternion_identity in
  let bone_props := {[ "spine"%string := spine ]} : gmap string GMTBlenderBoneProps in
  transform_rotation_to_blender bone_props "spine"%string
    (List.map rot_to_blender
              (transform_rotation_from_blender bone_props "spine"%string
                                               [mkQuaternion 0 0 1 0]))
  = [mkQuaternion 0 0 1 0].
Proof.
  cbv zeta.
  destruct (bone_transform_roundtrip_back
              ({[ "spine"%string :=
                    mkProps (mkVector 0 1 0) (Some "root"%string) (mkVector 0 0 2)
                            (mkQuaternion 0 1 0 0) Quaternion_identity ]})
              "spine"%string) as (_ & Hrot).
  - apply unit_bone_props_valid.
    intros name p Hp. apply lookup_singleton_Some in Hp as [_ <-].
    split; unfold is_unit, qdot; cbn; ring.
  - apply Hrot.
Defined.

Lemma qdot_qmul (a b : Quaternion) :
  qdot (qmul a b) (qmul a b) = qdot a a * qdot b b.
Proof. destruct a, b. unfold qdot, qmul. cbn. ring. Qed.

Lemma qinverted_unit (q : Quaternion) : is_unit q -> is_unit (qinverted q).
Proof.
  intros Hq. unfold is_unit.
  pose proof (qdot_qmul (qinverted q) q) as H.
  rewrite (qinverted_l q (unit_nonzero q Hq)) in H.
  rewrite Hq in H. rewrite identity_unit in H. lra.
Qed.

Lemma qmul_unit (a b : Quaternion) : is_unit a -> is_unit b -> is_unit (qmul a b).
Proof. unfold is_unit. intros Ha Hb. rewrite qdot_qmul, Ha, Hb. ring. Qed.

Lemma tuple_norm2_rot_from (q : Quaternion) : tuple_norm2 (rot_from_blender q) = qdot q q.
Proof. destruct q. unfold tuple_norm2, rot_from_blender, qdot. cbn. ring. Qed.

(** X5: with rest rotations that are unit quaternions, both rotation
    transforms keep unit quaternions unit: no renormalisation is needed
    after them. *)
Theorem rotation_transforms_keep_unit :
  forall (bone_props : gmap string GMTBlenderBoneProps) (bone_name : string)
         (qs : list Quaternion),
    (forall (name : string) (p : GMTBlenderBoneProps),
        bone_props !! name = Some p -> is_unit (rot p) /\ is_unit (rot_local p)) ->
    Forall is_unit qs ->
    Forall is_unit (transform_rotation_to_blender bone_props bone_name qs)
    /\ Forall (fun t => tuple_norm2 t = 1)
              (transform_rotation_from_blender bone_props bone_name qs).
Proof.
  intros bone_props bone_name qs Hu Hqs.
  assert (Hr : is_unit (rot (get_props bone_props bone_name))
               /\ is_unit (rot_local (get_props bone_props bone_name))).
  { unfold get_props. destruct (bone_props !! bone_name) as [p|] eqn:E; cbn.
    - exact (Hu _ _ E).
    - split; exact identity_unit. }
  destruct Hr as [Hr Hrl].
  assert (Hp : is_unit (parent_rot_of bone_props (get_props bone_props bone_name))).
  { unfold parent_rot_of, get_parent.
    destruct (parent_name (get_props bone_props bone_name)) as [n|]; cbn;
      [|exact identity_unit].
    destruct (bone_props !! n) as [p|] eqn:E; [|exact identity_unit].
    exact (proj2 (Hu _ _ E)). }
  unfold transform_rotation_to_blender, transform_rotation_from_blender.
  split; apply List.Forall_map; (eapply List.Forall_impl; [|exact Hqs]); intros q Hq.
  - repeat apply qmul_unit; auto using qinverted_unit.
  - rewrite tuple_norm2_rot_from. change (is_unit (qmul (qmul (qmul (qinverted
      (parent_rot_of bone_props (get_props bone_props bone_name)))
      (rot (get_props bone_props bone_name))) q)
      (qmul (qmul (qinverted (rot (get_props bone_props bone_name)))
                  (parent_rot_of bone_props (get_props bone_props bone_name)))
            (rot_local (get_props bone_props bone_name))))).
    repeat apply qmul_unit; auto using qinverted_unit.
Qed.

Lemma rotation_transforms_keep_unit_witness :
  Forall is_unit
         (transform_rotation_to_blender
            {[ "spine"%string :=
                 mkProps (mkVector 0 1 0) None (mkVector 0 0 2)
                         (mkQuaternion 0 1 0 0) (mkQuaternion 0 0 0 1) ]}
            "spine"%string [mkQuaternion 0 0 1 0]).
Proof.
  apply (rotation_transforms_keep_unit
           {[ "spine"%string :=
                mkProps (mkVector 0 1 0) None (mkVector 0 0 2)
                        (mkQuaternion 0 1 0 0) (mkQuaternion 0 0 0 1) ]}
           "spine"%string [mkQuaternion 0 0 1 0]).
  - intros name p Hp. apply lookup_singleton_Some in Hp as [_ <-].
    split; unfold is_unit, qdot; cbn; ring.
  - repeat constructor. unfold is_unit, qdot; cbn; ring.
Defined.

Lemma Translation_comm (a b : Vector) :
  mmul (Translation a) (Translation b) = mmul (Translation b) (Translation a).
Proof. destruct a, b. mat_unfold. f_equal; ring. Qed.

(** The inverse of a rotation matrix has no translation part, so that
    multiplying by it on the right keeps the translation. *)
Lemma to_translation_mmul_inverse (m : Matrix3) (rt M : Matrix4) :
  mmul rt (to_4x4 m) = Matrix_identity ->
  to_translation (mmul M rt) = to_translation M.
Proof.
  destruct m as [r00 r01 r02 r10 r11 r12 r20 r21 r22].
  destruct rt as [q00 q01 q02 q03 q10 q11 q12 q13 q20 q21 q22 q23 q30 q31 q32 q33].
  destruct M as [p00 p01 p02 p03 p10 p11 p12 p13 p20 p21 p22 p23 p30 p31 p32 p33].
  mat_unfold. intros H.
  injection H as _ _ _ L03 _ _ _ L13 _ _ _ L23 _ _ _ L33.
  assert (q03 = 0) by lra. assert (q13 = 0) by lra.
  assert (q23 = 0) by lra. assert (q33 = 1) by lra. subst.
  f_equal; ring.
Qed.

Lemma inverted_products (m : Matrix4) :
  determinant m <> 0 ->
  inverted m = Ok (inverse_of m)
  /\ mmul (inverse_of m) m = Matrix_identity
  /\ mmul m (inverse_of m) = Matrix_identity.
Proof.
  intros Hd. destruct (inverted_ok m Hd) as (m' & Hm & H1 & H2).
  rewrite (inverted_inverse_of m Hd) in Hm. injection Hm as <-. auto using inverted_inverse_of.
Qed.

Lemma determinant_Translation_nonzero (v : Vector) : determinant (Translation v) <> 0.
Proof. rewrite determinant_Translation. lra. Qed.

(** [transform_location_from_blender] without the rest translation. *)
Lemma location_from_blender_formula (bone_props : gmap string GMTBlenderBoneProps)
      (bone_name : string) (vs : list Vector) :
  let prop := get_props bone_props bone_name in
  let R4 := to_4x4 (to_matrix (rot prop)) in
  determinant R4 <> 0 ->
  transform_location_from_blender bone_props bone_name vs
  = Ok (List.map
          (fun x => pos_from_blender
                      (vsub (vadd (to_translation (mmul R4 (Translation x)))
                                  (head prop))
                            (parent_head_of bone_props prop)))
          vs).
Proof.
  intros prop R4 Hd.
  destruct (inverted_products R4 Hd) as (Hrt & Hrt1 & Hrt2).
  destruct (inverted_products (Translation (loc prop)) (determinant_Translation_nonzero _))
    as (Htl & Htl1 & Htl2).
  unfold transform_location_from_blender.
  fold prop. fold R4. rewrite Htl, Hrt. py_simpl.
  set (tl := inverse_of (Translation (loc prop))) in *.
  set (rt := inverse_of R4) in *.
  f_equal; apply List.map_ext; intros x.
  do 3 f_equal.
  transitivity (to_translation (mmul (mmul R4 (Translation x)) rt)).
  { f_equal.
    rewrite (mmul_assoc R4 (Translation (loc prop)) (Translation x)).
    rewrite (Translation_comm (loc prop) x).
    rewrite <- (mmul_assoc R4 (Translation x) (Translation (loc prop))).
    rewrite (mmul_assoc (mmul R4 (Translation x)) (Translation (loc prop)) (mmul tl rt)).
    rewrite <- (mmul_assoc (Translation (loc prop)) tl rt).
    rewrite Htl2, (mmul_identity_l rt). reflexivity. }
  apply (to_translation_mmul_inverse (to_matrix (rot prop))). exact Hrt1.
Qed.

(** X6: in exact arithmetic the rest translation [loc] of a descriptor
    has no effect on the location transforms; the rounding of single
    precision is outside the statement.  Over the real numbers, when the
    matrix of [rot] has an inverse, the
    to-editor transform is the translation part of
    [inverse(R) @ Translation(x - head + parent_head) @ R], and the
    from-editor transform is [pos_from_blender] of the translation part of
    [R @ Translation(x)], plus [head], minus [parent_head]. *)
Theorem location_transforms_ignore_loc :
  forall (bone_props : gmap string GMTBlenderBoneProps) (bone_name : string)
         (vs : list Vector),
    let prop := get_props bone_props bone_name in
    let R4 := to_4x4 (to_matrix (rot prop)) in
    determinant R4 <> 0 ->
    transform_location_to_blender bone_props bone_name vs
    = Ok (List.map
            (fun x => to_translation
                        (mmul (mmul (inverse_of R4)
                                    (Translation (vadd (vsub x (head prop))
                                                       (parent_head_of bone_props prop))))
                              R4))
            vs)
    /\ transform_location_from_blender bone_props bone_name vs
       = Ok (List.map
               (fun x => pos_from_blender
                           (vsub (vadd (to_translation (mmul R4 (Translation x)))
                                       (head prop))
                                 (parent_head_of bone_props prop)))
               vs).
Proof.
  intros bone_props bone_name vs prop R4 Hd.
  split; [|exact (location_from_blender_formula bone_props bone_name vs Hd)].
  destruct (inverted_products R4 Hd) as (Hrt & Hrt1 & Hrt2).
  destruct (inverted_products (Translation (loc prop)) (determinant_Translation_nonzero _))
    as (Htl & Htl1 & Htl2).
  unfold transform_location_to_blender.
  fold prop. fold R4. rewrite Htl, Hrt. py_simpl.
  set (tl := inverse_of (Translation (loc prop))) in *.
  set (rt := inverse_of R4) in *.
  f_equal; apply List.map_ext; intros x.
  set (d := vadd (vsub x (head prop)) (parent_head_of bone_props prop)).
  pose proof (conjugated_translation R4 rt d (affine_to_4x4 _) Hrt1 Hrt2) as HY.
  set (Y := mmul (mmul rt (Translation d)) R4) in *.
  transitivity (to_translation (mmul tl (mmul Y (Translation (loc prop))))).
  { f_equal. subst Y. now rewrite !mmul_assoc. }
  rewrite HY. set (y := to_translation Y).
  rewrite (Translation_comm y (loc prop)).
  rewrite <- (mmul_assoc tl (Translation (loc prop)) (Translation y)).
  rewrite Htl1, (mmul_identity_l (Translation y)).
  rewrite !to_translation_Translation. reflexivity.
Qed.

Lemma location_transforms_ignore_loc_witness :
  transform_location_to_blender
    {[ "spine"%string := mkProps (mkVector 0 1 0) None (mkVector 7 8 9)
                                 Quaternion_identity Quaternion_identity ]}
    "spine"%string [mkVector 1 2 3]
  = Ok [to_translation
          (mmul (mmul (inverse_of (to_4x4 (to_matrix Quaternion_identity)))
                      (Translation (vadd (vsub (mkVector 1 2 3) (mkVector 0 1 0)) Vector_zero)))
                (to_4x4 (to_matrix Quaternion_identity)))].
Proof.
  destruct (location_transforms_ignore_loc
              {[ "spine"%string := mkProps (mkVector 0 1 0) None (mkVector 7 8 9)
                                           Quaternion_identity Quaternion_identity ]}
              "spine"%string [mkVector 1 2 3]) as [Hto _].
  - change (determinant (to_4x4 (to_matrix Quaternion_identity)) <> 0).
    rewrite rotation_identity_matrix. mat_unfold. lra.
  - exact Hto.
Defined.

(** X7: a rest rotation whose matrix has no inverse makes both location
    transforms raise [ValueError] (from [Matrix.inverted]), whatever the
    values, even an empty list. *)
Theorem location_transforms_singular :
  forall (bone_props : gmap string GMTBlenderBoneProps) (bone_name : string)
         (vs : list Vector),
    determinant (to_4x4 (to_matrix (rot (get_props bone_props bone_name)))) = 0 ->
    transform_location_to_blender bone_props bone_name vs = Err ValueError
    /\ transform_location_from_blender bone_props bone_name vs = Err ValueError.
Proof.
  intros bone_props bone_name vs Hd.
  unfold transform_location_to_blender, transform_location_from_blender.
  rewrite (inverted_inverse_of _ (determinant_Translation_nonzero _)). py_simpl.
  unfold inverted at 1 2.
  destruct (Req_dec_T _ 0) as [_|Hn]; [|contradiction].
  split; reflexivity.
Qed.

Lemma location_transforms_singular_witness :
  transform_location_to_blender
    {[ "spine"%string := mkProps Vector_zero None Vector_zero
                                 (mkQuaternion 0 (1 / 2) (1 / 2) 0) Quaternion_identity ]}
    "spine"%string [] = Err ValueError.
Proof.
  apply (location_transforms_singular
           {[ "spine"%string := mkProps Vector_zero None Vector_zero
                                        (mkQuaternion 0 (1 / 2) (1 / 2) 0)
                                        Quaternion_identity ]}
           "spine"%string []).
  change (determinant (to_4x4 (to_matrix (mkQuaternion 0 (1 / 2) (1 / 2) 0))) = 0).
  rewrite determinant_rotation. unfold qdot. cbn [qw qx qy qz]. field.
Defined.

(** X8: in exact arithmetic the exporter's own [transform_location] and
    the converter's [transform_location_from_blender] are the same function:
    over the real numbers, for a registered bone whose rest rotation matrix
    has an inverse and a non-empty list of values, they return the same
    values; the rounding of single precision is outside the statement. *)
Theorem exporter_location_agrees :
  forall (self : GMTExporter) (bone_name : string) (prop : GMTBlenderBoneProps)
         (vs : list Vector),
    bone_props self !! bone_name = Some prop ->
    determinant (to_4x4 (to_matrix (rot prop))) <> 0 ->
    vs <> [] ->
    transform_location self bone_name vs
    = transform_location_from_blender (bone_props self) bone_name vs.
Proof.
  intros self bone_name prop vs Hp Hd Hvs.
  assert (Hg : get_props (bone_props self) bone_name = prop).
  { unfold get_props. now rewrite Hp. }
  pose proof (location_from_blender_formula (bone_props self) bone_name vs) as Hfrom.
  cbv zeta in Hfrom. rewrite Hg in Hfrom.
  rewrite (Hfrom Hd). rewrite (transform_location_ok self bone_name prop vs Hp Hvs).
  reflexivity.
Qed.

Lemma exporter_location_agrees_witness :
  let self := mkExporter {[ "spine"%string :=
                              mkProps (mkVector 0 1 0) None (mkVector 7 8 9)
                                      Quaternion_identity Quaternion_identity ]} false in
  transform_location self "spine"%string [mkVector 1 2 3]
  = transform_location_from_blender (bone_props self) "spine"%string [mkVector 1 2 3].
Proof.
  cbv zeta.
  apply (exporter_location_agrees
           (mkExporter {[ "spine"%string :=
                            mkProps (mkVector 0 1 0) None (mkVector 7 8 9)
                                    Quaternion_identity Quaternion_identity ]} false)
           "spine"%string
           (mkProps (mkVector 0 1 0) None (mkVector 7 8 9)
                    Quaternion_identity Quaternion_identity)).
  - reflexivity.
  - change (determinant (to_4x4 (to_matrix Quaternion_identity)) <> 0).
    rewrite rotation_identity_matrix. mat_unfold. lra.
  - discriminate.
Defined.

(** ** More on [correct_pattern] and [make_curve] *)

Lemma py_int_le_17 (x : Q) : (x <= 17)%Q -> (py_int x <= 17)%Z.
Proof.
  unfold py_int, Qle. destruct x as [n d]. cbn [Qnum Qden]. intros H.
  destruct (Z.lt_ge_cases n 0) as [Hn|Hn].
  - pose proof (Z.quot_opp_l n (Z.pos d) ltac:(lia)) as Ho.
    pose proof (Z.quot_pos (- n) (Z.pos d) ltac:(lia) ltac:(lia)). lia.
  - rewrite Z.quot_div_nonneg by lia.
    apply Z.div_le_upper_bound; lia.
Qed.

Lemma correct_pattern_bound (pattern : list Q) :
  Forall (fun x => (x <= 17)%Q) (correct_pattern pattern).
Proof.
  unfold correct_pattern. apply List.Forall_map. apply List.Forall_forall. intros x _.
  destruct (Qlt_le_dec 17 x) as [_|Hle]; [|exact Hle].
  unfold Qle. cbn. lia.
Qed.

Lemma correct_pattern_fixed (pattern : list Q) :
  Forall (fun x => (x <= 17)%Q) pattern -> correct_pattern pattern = pattern.
Proof.
  unfold correct_pattern. induction 1 as [|x l Hx Hl IH]; [reflexivity|].
  cbn [List.map]. rewrite IH. f_equal.
  destruct (Qlt_le_dec 17 x) as [Hlt|_]; [|reflexivity].
  exfalso. apply (Qlt_irrefl 17). eapply Qlt_le_trans; eassumption.
Qed.

Lemma map2_pair_forall {A : Type} (P : A -> Prop) (xs ys : list A) :
  Forall P xs -> Forall P ys -> Forall (fun p => P (fst p) /\ P (snd p)) (map2 pair xs ys).
Proof.
  intros Hx. revert ys. induction Hx as [|x xs Hx Hxs IH]; intros ys Hy; [constructor|].
  destruct Hy as [|y ys Hy Hys]; cbn; constructor; auto.
Qed.

Lemma last_forall {A : Type} (P : A -> Prop) (l : list A) (d : A) :
  P d -> Forall P l -> P (List.last l d).
Proof.
  intros Hd Hl. revert d Hd. induction Hl as [|x l Hx Hl IH]; intros d Hd; [exact Hd|].
  rewrite last_cons. now apply IH.
Qed.

(** X9: [correct_pattern] leaves no code above 17, keeps the number of
    codes, and changes nothing when applied again; as a result every
    pattern pair that [make_curve] exports for a preset other than Dragon
    Engine has both its codes at most 17. *)
Theorem exported_patterns_bounded :
  (forall pattern : list Q,
      Forall (fun x => (x <= 17)%Q) (correct_pattern pattern)
      /\ length (correct_pattern pattern) = length pattern
      /\ correct_pattern (correct_pattern pattern) = correct_pattern pattern)
  /\ (forall (to_quaternion : Matrix4 -> Quaternion) (self : GMTExporter)
             (fcurves : gmap string FCurve) (axis : string) (fc : FCurve)
             (curve_format : CurveFormat) (group_name : string) (c : Curve),
         is_dragon_engine self = false ->
         fcurves !! axis = Some fc ->
         make_curve to_quaternion self fcurves [axis] curve_format group_name = Ok c ->
         exists pairs : list (Z * Z),
           values c = Patterns pairs
           /\ Forall (fun p => (fst p <= 17)%Z /\ (snd p <= 17)%Z) pairs).
Proof.
  split.
  - intros pattern. split; [apply correct_pattern_bound | split].
    + unfold correct_pattern. apply length_map.
    + apply correct_pattern_fixed, correct_pattern_bound.
  - intros tq self fcurves axis fc fmt group c Hde Hfc Hmk.
    rewrite (make_curve_pattern_eq tq self fcurves axis fc fmt group Hfc) in Hmk.
    rewrite Hde in Hmk.
    pose proof (correct_pattern_bound (sample_values fc)) as Hb.
    destruct (correct_pattern (sample_values fc)) as [|x xs] eqn:E.
    + discriminate Hmk.
    + pose proof (pattern_pairs_ok x xs) as Hp. py_simpl_in Hp.
      destruct (pattern1_from_blender (x :: xs)) as [cols|e]; py_simpl_in Hp; [|discriminate].
      py_simpl_in Hmk. rewrite Hp in Hmk. py_simpl_in Hmk. injection Hmk as <-.
      eexists. split; [reflexivity|]. cbn [values].
      apply List.Forall_map.
      assert (Hends : Forall (fun q => (q <= 17)%Q) (xs ++ [List.last xs x])).
      { inversion Hb; subst. apply List.Forall_app. split; [assumption|].
        constructor; [|constructor]. now apply last_forall. }
      pose proof (map2_pair_forall (fun q => (q <= 17)%Q) (x :: xs) _ Hb Hends) as Hall.
      eapply List.Forall_impl; [|exact Hall].
      intros [s e] [Hs He]. cbn in *. split; now apply py_int_le_17.
Qed.

Lemma exported_patterns_bounded_witness :
  exists pairs : list (Z * Z),
    values (mkCurve PAT1_LEFT_HAND (mkGraph [0; 4]%Z (-1)) (Patterns [(2, 0); (0, 0)]%Z))
    = Patterns pairs
    /\ Forall (fun p => (fst p <= 17)%Z /\ (snd p <= 17)%Z) pairs.
Proof.
  destruct exported_patterns_bounded as [_ H].
  apply (H (fun _ => Quaternion_identity) (mkExporter ∅ false)
           {[ "left_0"%string := [mkPoint (0, 2)%Q 0; mkPoint (4, 20)%Q 0] ]}
           "left_0"%string [mkPoint (0, 2)%Q 0; mkPoint (4, 20)%Q 0]
           PAT1_LEFT_HAND "kata_l_n"%string).
  - reflexivity.
  - reflexivity.
  - reflexivity.
Defined.

(** X10: how [make_curve] fails.  Without axes it raises [IndexError]; an
    axis that is not a key of [fcurves] raises [KeyError]; a location curve
    for a bone that is not registered raises [KeyError] (the exporter has no
    fallback descriptor); location F-curves without keyframe points raise
    [IndexError]; so does a pattern F-curve without keyframe points. *)
Theorem make_curve_errors :
  forall (to_quaternion : Matrix4 -> Quaternion) (self : GMTExporter)
         (fcurves : gmap string FCurve) (curve_format : CurveFormat) (group_name : string),
    make_curve to_quaternion self fcurves [] curve_format group_name = Err IndexError
    /\ (forall (axis : string) (axes : list string),
           fcurves !! axis = None ->
           make_curve to_quaternion self fcurves (axis :: axes) curve_format group_name
           = Err KeyError)
    /\ (forall (ax ay az : string) (fx fy fz : FCurve),
           fcurves !! ax = Some fx -> fcurves !! ay = Some fy -> fcurves !! az = Some fz ->
           bone_props self !! group_name = None ->
           make_curve to_quaternion self fcurves [ax; ay; az] curve_format group_name
           = Err KeyError)
    /\ (forall (ax ay az : string) (fy fz : FCurve),
           fcurves !! ax = Some [] -> fcurves !! ay = Some fy -> fcurves !! az = Some fz ->
           is_Some (bone_props self !! group_name) ->
           make_curve to_quaternion self fcurves [ax; ay; az] curve_format group_name
           = Err IndexError)
    /\ (forall axis : string,
           fcurves !! axis = Some [] ->
           make_curve to_quaternion self fcurves [axis] curve_format group_name
           = Err IndexError).
Proof.
  intros tq self fcurves fmt group. split; [reflexivity|]. split; [|split; [|split]].
  - intros axis axes Hnone. unfold make_curve. cbn [Py.map_result]. now rewrite Hnone.
  - intros ax ay az fx fy fz Hx Hy Hz Hb.
    unfold make_curve. cbn [Py.map_result]. rewrite Hx, Hy, Hz. py_simpl.
    cbn [Py.index nth_error]. py_simpl.
    unfold transform_location, props_item. now rewrite Hb.
  - intros ax ay az fy fz Hx Hy Hz [prop Hb].
    unfold make_curve. cbn [Py.map_result]. rewrite Hx, Hy, Hz. py_simpl.
    cbn [Py.index nth_error]. py_simpl.
    unfold transform_location, props_item. rewrite Hb. py_simpl. reflexivity.
  - intros axis Hx. rewrite (make_curve_pattern_eq tq self fcurves axis [] fmt group Hx).
    destruct (is_dragon_engine self); reflexivity.
Qed.

Lemma make_curve_errors_witness :
  make_curve (fun _ => Quaternion_identity) (mkExporter ∅ false)
             {[ "x"%string := [mkPoint (0, 1)%Q 0] ]}
             ["w"%string; "x"%string] POS_VEC3 "spine"%string
  = Err KeyError.
Proof.
  destruct (make_curve_errors (fun _ => Quaternion_identity) (mkExporter ∅ false)
              {[ "x"%string := [mkPoint (0, 1)%Q 0] ]} POS_VEC3 "spine"%string)
    as (_ & Hkey & _).
  apply Hkey. reflexivity.
Defined.

(** ** Invariants of the duplication *)

Lemma with_holds_lower {A : Type} (src : list (Z * A * bool)) (f0 : Z) (e : Z * A) :
  StronglySorted Z.lt (source_frames src) ->
  Forall (fun f => (f0 <= f)%Z) (source_frames src) ->
  In e (with_holds src) -> (f0 <= fst e)%Z.
Proof.
  revert f0 e. induction src as [|[[f v] p] rest IH]; intros f0 e Hs Hall Hin; [contradiction|].
  cbn [source_frames List.map fst] in Hs, Hall.
  inversion Hs as [|x l Hs' Hlt]; subst. inversion Hall as [|x l Hf Hall']; subst.
  cbn [with_holds] in Hin. destruct Hin as [<- | Hin]; [exact Hf|].
  destruct rest as [|[[f1 v1] p1] rest']; [contradiction|].
  assert (Hf1 : (f < f1)%Z).
  { rewrite List.Forall_forall in Hlt. apply Hlt. now left. }
  assert (Hrest : forall e', In e' (with_holds ((f1, v1, p1) :: rest')) -> (f0 <= fst e')%Z).
  { intros e' He'. apply (IH f0 e' Hs'); [|exact He'].
    eapply List.Forall_impl; [|exact Hlt]. cbn. intros; lia. }
  destruct (p && (f1 - f >? 1)%Z) eqn:E.
  - destruct Hin as [<- | Hin]; [|now apply Hrest].
    cbn. apply andb_true_iff in E as [_ E]. apply Z.gtb_lt in E. lia.
  - now apply Hrest.
Qed.

Lemma with_holds_sorted {A : Type} (src : list (Z * A * bool)) :
  StronglySorted Z.lt (source_frames src) ->
  StronglySorted Z.lt (List.map fst (with_holds src)).
Proof.
  induction src as [|[[f v] p] rest IH]; intros Hs; [constructor|].
  cbn [source_frames List.map fst] in Hs. inversion Hs as [|x l Hs' Hlt]; subst.
  specialize (IH Hs').
  destruct rest as [|[[f1 v1] p1] rest']; [repeat constructor|].
  assert (Hf1 : (f < f1)%Z).
  { rewrite List.Forall_forall in Hlt. apply Hlt. now left. }
  assert (Hlow : forall e, In e (with_holds ((f1, v1, p1) :: rest')) -> (f1 <= fst e)%Z).
  { intros e He. apply (with_holds_lower _ f1 e Hs'); [|exact He].
    inversion Hs' as [|x l Hs'' Hlt1]; subst. constructor; [cbn; lia|].
    eapply List.Forall_impl; [|exact Hlt1]. cbn. intros; lia. }
  change (with_holds ((f, v, p) :: (f1, v1, p1) :: rest'))
    with ((f, v) :: (if p && (f1 - f >? 1)%Z
                     then ((f1 - 1)%Z, v) :: with_holds ((f1, v1, p1) :: rest')
                     else with_holds ((f1, v1, p1) :: rest'))).
  destruct (p && (f1 - f >? 1)%Z) eqn:E; cbn [List.map fst].
  - apply andb_true_iff in E as [_ E]. apply Z.gtb_lt in E.
    constructor; [constructor; [exact IH|] |].
    + apply List.Forall_forall. intros g Hg. apply in_map_iff in Hg as (e & <- & He).
      specialize (Hlow e He). lia.
    + constructor; [lia|].
      apply List.Forall_forall. intros g Hg. apply in_map_iff in Hg as (e & <- & He).
      specialize (Hlow e He). lia.
  - constructor; [exact IH|].
    apply List.Forall_forall. intros g Hg. apply in_map_iff in Hg as (e & <- & He).
    specialize (Hlow e He). lia.
Qed.

Lemma with_holds_length {A : Type} (src : list (Z * A * bool)) :
  (length src <= length (with_holds src))%nat
  /\ (length (with_holds src) <= 2 * length src - 1)%nat.
Proof.
  induction src as [|[[f v] p] rest IH]; [cbn; lia|].
  destruct rest as [|[[f1 v1] p1] rest']; [cbn; lia|].
  change (with_holds ((f, v, p) :: (f1, v1, p1) :: rest'))
    with ((f, v) :: (if p && (f1 - f >? 1)%Z
                     then ((f1 - 1)%Z, v) :: with_holds ((f1, v1, p1) :: rest')
                     else with_holds ((f1, v1, p1) :: rest'))).
  destruct (p && (f1 - f >? 1)%Z); cbn [length] in *; lia.
Qed.

Lemma with_holds_sublist {A : Type} (src : list (Z * A * bool)) :
  sublist (source_points src) (with_holds src).
Proof.
  induction src as [|[[f v] p] rest IH]; [constructor|].
  destruct rest as [|[[f1 v1] p1] rest']; [repeat constructor|].
  change (with_holds ((f, v, p) :: (f1, v1, p1) :: rest'))
    with ((f, v) :: (if p && (f1 - f >? 1)%Z
                     then ((f1 - 1)%Z, v) :: with_holds ((f1, v1, p1) :: rest')
                     else with_holds ((f1, v1, p1) :: rest'))).
  change (source_points ((f, v, p) :: (f1, v1, p1) :: rest'))
    with ((f, v) :: source_points ((f1, v1, p1) :: rest')).
  destruct (p && (f1 - f >? 1)%Z).
  - apply sublist_skip. apply sublist_cons. exact IH.
  - apply sublist_skip. exact IH.
Qed.

Lemma zip3_frames {A : Type} (kfs : list Z) (vals : list A) (pol : list bool) :
  length vals = length kfs -> length pol = length kfs ->
  source_frames (zip3 kfs vals pol) = kfs.
Proof.
  revert vals pol. induction kfs as [|k kfs IH]; intros [|v vals] [|p pol] Hv Hp;
    cbn in *; try discriminate; try reflexivity.
  f_equal. apply IH; lia.
Qed.

Lemma zip3_points {A : Type} (kfs : list Z) (vals : list A) (pol : list bool) :
  length vals = length kfs -> length pol = length kfs ->
  source_points (zip3 kfs vals pol) = combine kfs vals.
Proof.
  revert vals pol. induction kfs as [|k kfs IH]; intros [|v vals] [|p pol] Hv Hp;
    cbn in *; try discriminate; try reflexivity.
  f_equal. apply IH; lia.
Qed.

(** X11: the loop that duplicates keyframes keeps a curve well formed.
    For flags, frames and values of one length, with strictly increasing
    frames, it returns as many values as frames; the frames are still
    strictly increasing; every source keyframe is still there, in order;
    and there are at most 2n - 1 keyframes for n source keyframes. *)
Theorem duplicate_constant_invariants :
  forall (A : Type) (pol : list bool) (kfs : list Z) (vals : list A),
    length kfs = length pol -> length vals = length pol ->
    StronglySorted Z.lt kfs ->
    exists (vals' : list A) (kfs' : list Z),
      duplicate_constant pol vals kfs = Ok (vals', kfs')
      /\ length vals' = length kfs'
      /\ StronglySorted Z.lt kfs'
      /\ sublist (combine kfs vals) (combine kfs' vals')
      /\ (length kfs <= length kfs' <= 2 * length kfs - 1)%nat.
Proof.
  intros A pol kfs vals Hk Hv Hs.
  rewrite (duplicate_constant_spec pol kfs vals Hk Hv).
  set (src := zip3 kfs vals pol).
  assert (Hf : source_frames src = kfs) by (apply zip3_frames; congruence).
  assert (Hp : source_points src = combine kfs vals) by (apply zip3_points; congruence).
  assert (Hl : length src = length kfs) by (apply zip3_length; congruence).
  do 2 eexists. split; [reflexivity|]. split; [now rewrite !length_map|].
  split; [apply with_holds_sorted; now rewrite Hf|]. split.
  - rewrite <- Hp.
    replace (combine (List.map fst (with_holds src)) (List.map snd (with_holds src)))
      with (with_holds src); [apply with_holds_sublist|].
    clear. induction (with_holds src) as [|[f v] l IH]; [reflexivity|].
    cbn. now rewrite <- IH.
  - rewrite length_map, <- Hl. apply with_holds_length.
Qed.

Lemma duplicate_constant_invariants_witness :
  exists (vals' : list nat) (kfs' : list Z),
    duplicate_constant [true; false; true] [7; 8; 9]%nat [0; 10; 20]%Z = Ok (vals', kfs')
    /\ length vals' = length kfs'
    /\ StronglySorted Z.lt kfs'.
Proof.
  destruct (duplicate_constant_invariants nat [true; false; true] [0; 10; 20]%Z [7; 8; 9]%nat)
    as (vals' & kfs' & H1 & H2 & H3 & _).
  - reflexivity.
  - reflexivity.
  - repeat constructor; lia.
  - exists vals', kfs'. auto.
Defined.

Lemma with_holds_no_constant {A : Type} (src : list (Z * A * bool)) :
  (forall pre f0 v0 p0 f1 v1 p1 post,
      src = pre ++ (f0, v0, p0) :: (f1, v1, p1) :: post ->
      p0 = false \/ (f1 - f0 <= 1)%Z) ->
  with_holds src = source_points src.
Proof.
  induction src as [|[[f v] p] rest IH]; intros H; [reflexivity|].
  destruct rest as [|[[f1 v1] p1] rest']; [reflexivity|].
  change (with_holds ((f, v, p) :: (f1, v1, p1) :: rest'))
    with ((f, v) :: (if p && (f1 - f >? 1)%Z
                     then ((f1 - 1)%Z, v) :: with_holds ((f1, v1, p1) :: rest')
                     else with_holds ((f1, v1, p1) :: rest'))).
  change (source_points ((f, v, p) :: (f1, v1, p1) :: rest'))
    with ((f, v) :: source_points ((f1, v1, p1) :: rest')).
  assert (E : p && (f1 - f >? 1)%Z = false).
  { destruct (H [] f v p f1 v1 p1 rest' eq_refl) as [-> | Hg]; [reflexivity|].
    apply andb_false_iff. right. rewrite Z.gtb_ltb. apply Z.ltb_ge. lia. }
  rewrite E. f_equal. apply IH.
  intros pre f0' v0' p0' f1' v1' p1' post Heq.
  apply (H ((f, v, p) :: pre) f0' v0' p0' f1' v1' p1' post). cbn. now rewrite Heq.
Qed.

Lemma combine_fst {A B : Type} (xs : list A) (ys : list B) :
  length ys = length xs -> List.map fst (combine xs ys) = xs.
Proof.
  revert ys. induction xs as [|x xs IH]; intros [|y ys] H; cbn in *; try discriminate;
    try reflexivity.
  f_equal. apply IH. lia.
Qed.

Lemma combine_snd {A B : Type} (xs : list A) (ys : list B) :
  length ys = length xs -> List.map snd (combine xs ys) = ys.
Proof.
  revert ys. induction xs as [|x xs IH]; intros [|y ys] H; cbn in *; try discriminate;
    try reflexivity.
  f_equal. apply IH. lia.
Qed.

Lemma zip3_flag_in {A : Type} (kfs : list Z) (vals : list A) (pol : list bool)
      (e : Z * A * bool) :
  In e (zip3 kfs vals pol) -> In (snd e) pol.
Proof.
  revert vals pol. induction kfs as [|k kfs IH]; intros [|v vals] [|p pol] H;
    cbn in *; try contradiction.
  destruct H as [<- | H]; [now left | right; eauto].
Qed.

(** X12: when there is nothing to hold, the duplication loop returns the
    frames and values it was given: this is so when no keyframe is flagged
    constant, and also when no two consecutive frames are more than one
    frame apart. *)
Theorem duplicate_constant_identity :
  forall (A : Type) (pol : list bool) (kfs : list Z) (vals : list A),
    length kfs = length pol -> length vals = length pol ->
    Forall (fun p => p = false) pol
    \/ (forall (pre : list Z) (a b : Z) (post : list Z),
           kfs = pre ++ a :: b :: post -> (b - a <= 1)%Z) ->
    duplicate_constant pol vals kfs = Ok (vals, kfs).
Proof.
  intros A pol kfs vals Hk Hv Hcase.
  rewrite (duplicate_constant_spec pol kfs vals Hk Hv).
  set (src := zip3 kfs vals pol).
  assert (Hf : source_frames src = kfs) by (apply zip3_frames; congruence).
  assert (Hp : source_points src = combine kfs vals) by (apply zip3_points; congruence).
  rewrite (with_holds_no_constant src).
  - rewrite Hp, combine_fst, combine_snd by congruence. reflexivity.
  - intros pre f0 v0 p0 f1 v1 p1 post Heq.
    destruct Hcase as [Hfalse | Hgap].
    + left. rewrite List.Forall_forall in Hfalse.
      apply (Hfalse p0).
      apply (zip3_flag_in kfs vals pol (f0, v0, p0)). fold src. rewrite Heq.
      apply in_or_app. right. now left.
    + right. apply (Hgap (source_frames pre) f0 f1 (source_frames post)).
      rewrite <- Hf, Heq. unfold source_frames. rewrite List.map_app. reflexivity.
Qed.

Lemma duplicate_constant_identity_witness :
  duplicate_constant [true; true; true] [7; 8; 9]%nat [3; 4; 5]%Z
  = Ok ([7; 8; 9]%nat, [3; 4; 5]%Z).
Proof.
  apply duplicate_constant_identity; try reflexivity.
  right. intros pre a b post H.
  destruct pre as [|x pre]; [injection H as <- <- _; lia|].
  destruct pre as [|y pre]; [injection H as _ <- <- _; lia|].
  destruct pre as [|z pre]; [discriminate H|].
  destruct pre; discriminate H.
Defined.

(** ** Sampling a curve inside [add_curve] *)

Section Sampling.

Context {V : Type}.
Variable lerp : V -> V -> R -> V.

Lemma dict_set_new (d : dict V) (k : Z) (v : V) :
  ~ In k (dict_keys d) -> dict_set d k v = d ++ [(k, v)].
Proof.
  induction d as [|[k' v'] d IH]; intros Hn; [reflexivity|].
  cbn in *. destruct (k' =? k)%Z eqn:E.
  - apply Z.eqb_eq in E. exfalso. apply Hn. now left.
  - rewrite IH; [reflexivity|]. intros H. apply Hn. now right.
Qed.

Lemma dict_fold_nodup (kfs : list (GMTKeyframe V)) (d : dict V) :
  List.NoDup (frames_of kfs) ->
  (forall f, In f (frames_of kfs) -> ~ In f (dict_keys d)) ->
  fold_left (fun d kf => dict_set d (frame kf) (value kf)) kfs d
  = d ++ List.map (fun kf => (frame kf, value kf)) kfs.
Proof.
  revert d. induction kfs as [|kf kfs IH]; intros d Hnd Hdis.
  - cbn. now rewrite List.app_nil_r.
  - change (frames_of (kf :: kfs)) with (frame kf :: frames_of kfs) in *.
    inversion Hnd as [|x l Hx Hnd']; subst.
    cbn [fold_left List.map].
    rewrite dict_set_new by (apply Hdis; now left).
    rewrite IH; [now rewrite <- List.app_assoc | exact Hnd' |].
    intros f Hf Hin. unfold dict_keys in Hin. rewrite List.map_app in Hin.
    apply in_app_or in Hin as [Hin | [<- | []]].
    + apply (Hdis f); [now right | exact Hin].
    + exact (Hx Hf).
Qed.

Lemma dict_keys_of (kfs : list (GMTKeyframe V)) :
  List.NoDup (frames_of kfs) -> dict_keys (dict_of_keyframes kfs) = frames_of kfs.
Proof.
  intros Hnd. unfold dict_of_keyframes. rewrite dict_fold_nodup; [|exact Hnd|auto].
  cbn [List.app]. unfold dict_keys, frames_of. rewrite List.map_map. reflexivity.
Qed.

Lemma dict_get_absent (kfs : list (GMTKeyframe V)) (i : Z) :
  ~ In i (frames_of kfs) -> dict_get (dict_of_keyframes kfs) i = None.
Proof.
  intros Hn. pose proof (has_key_dict_of kfs i) as H. unfold has_key in H.
  destruct (dict_get (dict_of_keyframes kfs) i); [|reflexivity].
  exfalso. apply Hn, H. reflexivity.
Qed.

Lemma dict_item_of (kfs : list (GMTKeyframe V)) (kf : GMTKeyframe V) :
  List.NoDup (frames_of kfs) -> In kf kfs ->
  dict_item (dict_of_keyframes kfs) (frame kf) = Ok (value kf).
Proof.
  intros Hnd Hin. unfold dict_item, dict_of_keyframes.
  now rewrite (dict_get_fold_in kfs [] kf Hnd Hin).
Qed.

Lemma filter_none (p : Z -> bool) (l : list Z) :
  Forall (fun k => p k = false) l -> List.filter p l = [].
Proof.
  induction 1 as [|x l Hx Hl IH]; [reflexivity|]. cbn. now rewrite Hx.
Qed.

Lemma sorted_split (pre : list Z) (a b : Z) (post : list Z) :
  StronglySorted Z.lt (pre ++ a :: b :: post) ->
  Forall (fun k => (k < a)%Z) pre /\ (a < b)%Z /\ Forall (fun k => (b < k)%Z) post.
Proof.
  induction pre as [|x pre IH]; cbn; intros Hs.
  - inversion Hs as [|x l Hs' Ha]; subst. inversion Hs' as [|x l Hs'' Hb]; subst.
    inversion Ha; subst. auto.
  - inversion Hs as [|y l Hs' Hx]; subst. destruct (IH Hs') as (Hp & Hab & Hq).
    split; [|auto]. constructor; [|exact Hp].
    rewrite List.Forall_forall in Hx. apply Hx. apply in_or_app. right. now left.
Qed.

Lemma frames_above_first (c : GMTKeyframe V) (cs : list (GMTKeyframe V)) :
  StronglySorted Z.lt (frames_of (c :: cs)) ->
  Forall (fun k => (frame c <= k)%Z) (frames_of (c :: cs)).
Proof.
  change (frames_of (c :: cs)) with (frame c :: frames_of cs).
  intros Hs. inversion Hs as [|x l Hs' Hlt]; subst.
  constructor; [lia|]. eapply List.Forall_impl; [|exact Hlt]. cbn. intros; lia.
Qed.

Lemma frames_below_last (c : GMTKeyframe V) (cs : list (GMTKeyframe V)) :
  StronglySorted Z.lt (frames_of (c :: cs)) ->
  Forall (fun k => (k <= frame (List.last cs c))%Z) (frames_of (c :: cs)).
Proof.
  intros Hs. apply List.Forall_forall. intros k Hk.
  exact (frames_below_end c cs k Hs Hk).
Qed.

Lemma rev_last_head (c : GMTKeyframe V) (cs : list (GMTKeyframe V)) :
  exists l, rev (frames_of (c :: cs)) = frame (List.last cs c) :: l.
Proof.
  revert c. induction cs as [|c' cs IH]; intros c.
  - exists []. reflexivity.
  - destruct (IH c') as [l Hl]. exists (l ++ [frame c]).
    change (frames_of (c :: c' :: cs)) with (frame c :: frames_of (c' :: cs)).
    cbn [rev]. rewrite Hl, last_cons. reflexivity.
Qed.

(** The value of a curve at its keyframes and outside them. *)
Lemma value_at_ends (c : GMTKeyframe V) (cs : list (GMTKeyframe V)) :
  StronglySorted Z.lt (frames_of (c :: cs)) ->
  let sample := value_at lerp (dict_of_keyframes (c :: cs))
                         (frame c) (frame (List.last cs c)) in
  (forall kf, In kf (c :: cs) -> sample (frame kf) = Ok (value kf))
  /\ (forall i, (i < frame c)%Z -> sample i = Ok (value c))
  /\ (forall i, (frame (List.last cs c) < i)%Z -> sample i = Ok (value (List.last cs c))).
Proof.
  intros Hs sample.
  pose proof (sorted_nodup _ Hs) as Hnd.
  pose proof (frames_above_first c cs Hs) as Hlow.
  pose proof (frames_below_last c cs Hs) as Hhigh.
  assert (Hlast : In (List.last cs c) (c :: cs)).
  { clear. revert c. induction cs as [|c' cs IH]; intros c; [now left|].
    right. rewrite last_cons. apply IH. }
  subst sample. unfold value_at, interpolate_at. rewrite (dict_keys_of _ Hnd).
  split; [|split].
  - intros kf Hin. unfold dict_of_keyframes.
    now rewrite (dict_get_fold_in (c :: cs) [] kf Hnd Hin).
  - intros i Hi.
    rewrite dict_get_absent.
    2:{ intros Hin. rewrite List.Forall_forall in Hlow. specialize (Hlow i Hin). lia. }
    rewrite filter_none.
    2:{ apply List.Forall_forall. intros k Hk. apply in_rev in Hk.
        rewrite List.Forall_forall in Hlow. specialize (Hlow k Hk). cbn beta in Hlow.
        apply Z.ltb_ge. lia. }
    change (frames_of (c :: cs)) with (frame c :: frames_of cs). cbn [List.filter].
    replace (frame c >? i)%Z with true by (symmetry; apply Z.gtb_lt; lia).
    cbn [Py.next]. rewrite Z.eqb_refl. cbn [negb].
    apply (dict_item_of (c :: cs) c Hnd). now left.
  - intros i Hi.
    rewrite dict_get_absent.
    2:{ intros Hin. rewrite List.Forall_forall in Hhigh. specialize (Hhigh i Hin).
        cbn beta in Hhigh. lia. }
    rewrite (filter_none (fun k => (k >? i)%Z)).
    2:{ apply List.Forall_forall. intros k Hk.
        rewrite List.Forall_forall in Hhigh. specialize (Hhigh k Hk). cbn beta in Hhigh.
        rewrite Z.gtb_ltb. apply Z.ltb_ge. lia. }
    destruct (rev_last_head c cs) as [l Hl]. rewrite Hl. cbn [List.filter].
    replace (frame (List.last cs c) <? i)%Z with true by (symmetry; apply Z.ltb_lt; lia).
    cbn [Py.next]. rewrite Z.eqb_refl. cbn [negb].
    apply (dict_item_of (c :: cs) _ Hnd Hlast).
Qed.

(** X13: the value [add_curve] reads from a curve at a frame.  For a curve
    with strictly increasing frames: at the frame of a keyframe it is that
    keyframe's value; before the first keyframe it is the first value;
    after the last keyframe it is the last value; strictly between two
    consecutive keyframes it is [lerp] of their values with the factor
    (i - less) / (more - less). *)
Theorem curve_sampling :
  forall (c : GMTKeyframe V) (cs : list (GMTKeyframe V)),
    StronglySorted Z.lt (frames_of (c :: cs)) ->
    let sample := value_at lerp (dict_of_keyframes (c :: cs))
                           (frame c) (frame (List.last cs c)) in
    (forall kf, In kf (c :: cs) -> sample (frame kf) = Ok (value kf))
    /\ (forall i, (i < frame c)%Z -> sample i = Ok (value c))
    /\ (forall i, (frame (List.last cs c) < i)%Z -> sample i = Ok (value (List.last cs c)))
    /\ (forall pre a b post i,
           c :: cs = pre ++ a :: b :: post ->
           (frame a < i < frame b)%Z ->
           sample i = Ok (lerp (value a) (value b)
                               (IZR (i - frame a) / IZR (frame b - frame a)))).
Proof.
  intros c cs Hs sample.
  destruct (value_at_ends c cs Hs) as (Hkey & Hbefore & Hafter).
  split; [exact Hkey | split; [exact Hbefore | split; [exact Hafter|]]].
  pose proof (sorted_nodup _ Hs) as Hnd.
  subst sample. unfold value_at, interpolate_at. rewrite (dict_keys_of _ Hnd).
  intros pre a b post i Heq Hi.
    assert (Hfr : frames_of (c :: cs)
                  = frames_of pre ++ frame a :: frame b :: frames_of post).
    { rewrite Heq. unfold frames_of. rewrite List.map_app. reflexivity. }
    rewrite Hfr in Hs. destruct (sorted_split _ _ _ _ Hs) as (Hpre & Hab & Hpost).
    rewrite dict_get_absent.
    2:{ rewrite Hfr. intros Hin. apply in_app_or in Hin as [Hin | [Hin | [Hin | Hin]]].
        - rewrite List.Forall_forall in Hpre. specialize (Hpre i Hin). cbn beta in Hpre. lia.
        - lia.
        - lia.
        - rewrite List.Forall_forall in Hpost. specialize (Hpost i Hin).
          cbn beta in Hpost. lia. }
    rewrite Hfr.
    replace (rev (frames_of pre ++ frame a :: frame b :: frames_of post))
      with (rev (frames_of post) ++ frame b :: frame a :: rev (frames_of pre)).
    2:{ rewrite List.rev_app_distr. cbn [rev]. rewrite <- !List.app_assoc. reflexivity. }
    rewrite !List.filter_app. cbn [List.filter].
    rewrite (filter_none (fun k => (k <? i)%Z) (rev (frames_of post))).
    2:{ apply List.Forall_forall. intros k Hk. apply in_rev in Hk.
        rewrite List.Forall_forall in Hpost. specialize (Hpost k Hk). cbn beta in Hpost.
        apply Z.ltb_ge. lia. }
    rewrite (filter_none (fun k => (k >? i)%Z) (frames_of pre)).
    2:{ apply List.Forall_forall. intros k Hk.
        rewrite List.Forall_forall in Hpre. specialize (Hpre k Hk). cbn beta in Hpre.
        rewrite Z.gtb_ltb. apply Z.ltb_ge. lia. }
    replace (frame b <? i)%Z with false by (symmetry; apply Z.ltb_ge; lia).
    replace (frame a <? i)%Z with true by (symmetry; apply Z.ltb_lt; lia).
    replace (frame a >? i)%Z with false by (symmetry; rewrite Z.gtb_ltb; apply Z.ltb_ge; lia).
    replace (frame b >? i)%Z with true by (symmetry; apply Z.gtb_lt; lia).
    cbn [List.app Py.next].
    replace (frame a =? frame b)%Z with false by (symmetry; apply Z.eqb_neq; lia).
    cbn [negb].
    rewrite (dict_item_of (c :: cs) a Hnd) by (rewrite Heq; apply in_or_app; right; now left).
    rewrite (dict_item_of (c :: cs) b Hnd)
      by (rewrite Heq; apply in_or_app; right; right; now left).
    py_simpl. rewrite truediv_ok; [reflexivity|]. apply not_0_IZR. lia.
Qed.

End Sampling.

Lemma curve_sampling_witness :
  value_at vlerp
           (dict_of_keyframes [mkKeyframe 0 (mkVector 0 0 0); mkKeyframe 10 (mkVector 10 0 0)])
           0 10 4
  = Ok (vlerp (mkVector 0 0 0) (mkVector 10 0 0) (IZR (4 - 0) / IZR (10 - 0))).
Proof.
  destruct (curve_sampling vlerp (mkKeyframe 0 (mkVector 0 0 0))
                           [mkKeyframe 10 (mkVector 10 0 0)]) as (_ & _ & _ & H).
  - repeat constructor; cbn; lia.
  - apply (H [] (mkKeyframe 0 (mkVector 0 0 0)) (mkKeyframe 10 (mkVector 10 0 0)) [] 4%Z).
    + reflexivity.
    + cbn. lia.
Defined.

(** ** The values of a merge *)

Section MergedValues.

Context {V : Type}.
Variable add : V -> V -> V.
Variable lerp : V -> V -> R -> V.

(** A frame that holds a keyframe of either curve holds, in the result, the
    sum of the two curves' values at that frame. *)
Lemma merged_keyframe (c : GMTKeyframe V) (cs : list (GMTKeyframe V))
      (o : GMTKeyframe V) (os : list (GMTKeyframe V)) (res : list (GMTKeyframe V))
      (f : Z) (v1 v2 : V) :
  valid_frames (frames_of (c :: cs)) -> valid_frames (frames_of (o :: os)) ->
  add_keyframes add lerp (c :: cs) (o :: os) = Ok res ->
  In f (frames_of (c :: cs)) \/ In f (frames_of (o :: os)) ->
  value_at lerp (dict_of_keyframes (c :: cs)) (frame c) (frame (List.last cs c)) f = Ok v1 ->
  value_at lerp (dict_of_keyframes (o :: os)) (frame o) (frame (List.last os o)) f = Ok v2 ->
  In (mkKeyframe f (add v1 v2)) res.
Proof.
  intros [Hc0 Hcs] [Ho0 Hos] Hres Hin Hv1 Hv2.
  destruct (add_keyframes_spec add lerp c cs o os) as (res' & Hres' & Hf & Hall).
  rewrite Hres in Hres'. injection Hres' as <-.
  assert (Hfr : In f (frames_of res)).
  { rewrite Hf, filter_In, in_range, orb_true_iff, !has_key_dict_of. split; [|exact Hin].
    rewrite List.Forall_forall in Hc0, Ho0. destruct Hin as [H|H].
    - pose proof (frames_below_end c cs f Hcs H). specialize (Hc0 f H). cbn beta in Hc0. lia.
    - pose proof (frames_below_end o os f Hos H). specialize (Ho0 f H). cbn beta in Ho0. lia. }
  unfold frames_of in Hfr. apply in_map_iff in Hfr as (kf & Hkf & Hin').
  rewrite List.Forall_forall in Hall.
  destruct (Hall kf Hin') as (w1 & w2 & Hw1 & Hw2 & Hval).
  rewrite Hkf in Hw1, Hw2. rewrite Hv1 in Hw1. rewrite Hv2 in Hw2.
  injection Hw1 as <-. injection Hw2 as <-.
  destruct kf as [f' v']. cbn in Hkf, Hval. subst. exact Hin'.
Qed.

Lemma merged_values (c : GMTKeyframe V) (cs : list (GMTKeyframe V))
      (o : GMTKeyframe V) (os : list (GMTKeyframe V)) :
  valid_frames (frames_of (c :: cs)) -> valid_frames (frames_of (o :: os)) ->
  exists res : list (GMTKeyframe V),
    add_keyframes add lerp (c :: cs) (o :: os) = Ok res
    /\ (forall kf1 kf2,
           In kf1 (c :: cs) -> In kf2 (o :: os) -> frame kf1 = frame kf2 ->
           In (mkKeyframe (frame kf1) (add (value kf1) (value kf2))) res)
    /\ (forall kf2,
           In kf2 (o :: os) -> (frame (List.last cs c) < frame kf2)%Z ->
           In (mkKeyframe (frame kf2) (add (value (List.last cs c)) (value kf2))) res)
    /\ (forall kf1,
           In kf1 (c :: cs) -> (frame (List.last os o) < frame kf1)%Z ->
           In (mkKeyframe (frame kf1) (add (value kf1) (value (List.last os o)))) res).
Proof.
  intros Vc Vo.
  destruct (add_keyframes_spec add lerp c cs o os) as (res & Hres & _).
  destruct (value_at_ends lerp c cs (proj2 Vc)) as (Hc1 & _ & Hc3).
  destruct (value_at_ends lerp o os (proj2 Vo)) as (Ho1 & _ & Ho3).
  exists res. split; [exact Hres|]. split; [|split].
  - intros kf1 kf2 H1 H2 Heq.
    apply (merged_keyframe c cs o os res (frame kf1) _ _ Vc Vo Hres).
    + left. unfold frames_of. now apply in_map.
    + now apply Hc1.
    + rewrite Heq. now apply Ho1.
  - intros kf2 H2 Hlt.
    apply (merged_keyframe c cs o os res (frame kf2) _ _ Vc Vo Hres).
    + right. unfold frames_of. now apply in_map.
    + now apply Hc3.
    + now apply Ho1.
  - intros kf1 H1 Hlt.
    apply (merged_keyframe c cs o os res (frame kf1) _ _ Vc Vo Hres).
    + left. unfold frames_of. now apply in_map.
    + now apply Hc1.
    + now apply Ho3.
Qed.

End MergedValues.

(** X14: the values of a merge.  For location curves with keyframes and
    valid frames, at a frame where both curves hold a keyframe the merged
    keyframe is the vector sum of the two values; at a keyframe of one
    curve that lies after the other curve's last keyframe, the other
    curve contributes its last value.  For rotation curves the same holds
    with the quaternion product, the curve merged into on the left. *)
Theorem add_curve_values :
  forall (slerp : Quaternion -> Quaternion -> R -> Quaternion),
    (forall (c : GMTKeyframe Vector) cs (o : GMTKeyframe Vector) os,
        valid_frames (frames_of (c :: cs)) -> valid_frames (frames_of (o :: os)) ->
        exists res : list (GMTKeyframe Vector),
          add_curve slerp (LocationCurve (c :: cs)) (LocationCurve (o :: os))
          = Ok (LocationCurve res)
          /\ (forall kf1 kf2,
                 In kf1 (c :: cs) -> In kf2 (o :: os) -> frame kf1 = frame kf2 ->
                 In (mkKeyframe (frame kf1) (vadd (value kf1) (value kf2))) res)
          /\ (forall kf2,
                 In kf2 (o :: os) -> (frame (List.last cs c) < frame kf2)%Z ->
                 In (mkKeyframe (frame kf2) (vadd (value (List.last cs c)) (value kf2))) res)
          /\ (forall kf1,
                 In kf1 (c :: cs) -> (frame (List.last os o) < frame kf1)%Z ->
                 In (mkKeyframe (frame kf1) (vadd (value kf1) (value (List.last os o)))) res))
    /\ (forall (c : GMTKeyframe Quaternion) cs (o : GMTKeyframe Quaternion) os,
           valid_frames (frames_of (c :: cs)) -> valid_frames (frames_of (o :: os)) ->
           exists res : list (GMTKeyframe Quaternion),
             add_curve slerp (RotationCurve (c :: cs)) (RotationCurve (o :: os))
             = Ok (RotationCurve res)
             /\ (forall kf1 kf2,
                    In kf1 (c :: cs) -> In kf2 (o :: os) -> frame kf1 = frame kf2 ->
                    In (mkKeyframe (frame kf1) (qmul (value kf1) (value kf2))) res)
             /\ (forall kf2,
                    In kf2 (o :: os) -> (frame (List.last cs c) < frame kf2)%Z ->
                    In (mkKeyframe (frame kf2) (qmul (value (List.last cs c)) (value kf2)))
                       res)
             /\ (forall kf1,
                    In kf1 (c :: cs) -> (frame (List.last os o) < frame kf1)%Z ->
                    In (mkKeyframe (frame kf1) (qmul (value kf1) (value (List.last os o))))
                       res)).
Proof.
  intros slerp. split; intros c cs o os Vc Vo; unfold add_curve;
    cbn [curve_type]; rewrite bool_decide_eq_true_2 by reflexivity; cbn [negb];
    rewrite seed_nonempty by discriminate.
  - destruct (merged_values vadd vlerp c cs o os Vc Vo) as (res & Hres & H).
    exists res. rewrite Hres. split; [reflexivity | exact H].
  - destruct (merged_values qmul slerp c cs o os Vc Vo) as (res & Hres & H).
    exists res. rewrite Hres. split; [reflexivity | exact H].
Qed.

Lemma add_curve_values_witness :
  exists res : list (GMTKeyframe Vector),
    add_curve (fun (a _ : Quaternion) (_ : R) => a)
              (LocationCurve [mkKeyframe 0 (mkVector 1 2 3); mkKeyframe 5 (mkVector 4 5 6)])
              (LocationCurve [mkKeyframe 5 (mkVector 1 1 1); mkKeyframe 9 (mkVector 2 2 2)])
    = Ok (LocationCurve res)
    /\ In (mkKeyframe 5 (vadd (mkVector 4 5 6) (mkVector 1 1 1))) res
    /\ In (mkKeyframe 9 (vadd (mkVector 4 5 6) (mkVector 2 2 2))) res.
Proof.
  destruct (add_curve_values (fun (a _ : Quaternion) (_ : R) => a)) as [Hloc _].
  destruct (Hloc (mkKeyframe 0 (mkVector 1 2 3)) [mkKeyframe 5 (mkVector 4 5 6)]
                 (mkKeyframe 5 (mkVector 1 1 1)) [mkKeyframe 9 (mkVector 2 2 2)])
    as (res & Hres & Hboth & Hafter & _).
  - split; cbn; repeat constructor; lia.
  - split; cbn; repeat constructor; lia.
  - exists res. split; [exact Hres|]. split.
    + apply (Hboth (mkKeyframe 5 (mkVector 4 5 6)) (mkKeyframe 5 (mkVector 1 1 1))).
      * right. now left.
      * now left.
      * reflexivity.
    + apply (Hafter (mkKeyframe 9 (mkVector 2 2 2))).
      * right. now left.
      * cbn. lia.
Defined.

(** X15: the two refusals of [add_curve].  Curves of different types are
    refused before anything else; two curves of one type that is neither
    location nor rotation are refused as incompatible. *)
Theorem add_curve_refusals :
  forall (slerp : Quaternion -> Quaternion -> R -> Quaternion) (curve other : GMTCurve),
    (curve_type curve <> curve_type other ->
     add_curve slerp curve other
     = Err (Exception "Curves with different types cannot be added"))
    /\ (curve_type curve = PATTERN_HAND -> curve_type other = PATTERN_HAND ->
        add_curve slerp curve other
        = Err (Exception "Incompatible curve type for addition")).
Proof.
  intros slerp curve other. split.
  - intros Hne. unfold add_curve. now rewrite bool_decide_eq_false_2.
  - intros Hc Ho. unfold add_curve.
    rewrite bool_decide_eq_true_2 by congruence.
    destruct curve, other; try discriminate. reflexivity.
Qed.

Lemma add_curve_refusals_witness :
  add_curve (fun (a _ : Quaternion) (_ : R) => a)
            (LocationCurve [mkKeyframe 0 (mkVector 1 2 3)])
            (RotationCurve [mkKeyframe 0 Quaternion_identity])
  = Err (Exception "Curves with different types cannot be added").
Proof.
  destruct (add_curve_refusals (fun (a _ : Quaternion) (_ : R) => a)
              (LocationCurve [mkKeyframe 0 (mkVector 1 2 3)])
              (RotationCurve [mkKeyframe 0 Quaternion_identity])) as [H _].
  apply H. discriminate.
Defined.

(** ** Merging into a curve without keyframes, exactly *)

Lemma sorted_unique (l1 l2 : list Z) :
  StronglySorted Z.lt l1 -> StronglySorted Z.lt l2 ->
  (forall x, In x l1 <-> In x l2) -> l1 = l2.
Proof.
  intros H1. revert l2. induction H1 as [|a l1 Hs1 IH Ha]; intros l2 H2 Hin.
  - destruct l2 as [|b l2]; [reflexivity|]. exfalso. apply (Hin b). now left.
  - destruct H2 as [|b l2 Hs2 Hb].
    + exfalso. apply (Hin a). now left.
    + rewrite List.Forall_forall in Ha, Hb.
      assert (Hab : a = b).
      { destruct (proj1 (Hin a) (or_introl eq_refl)) as [E|E]; [now symmetry|].
        destruct (proj2 (Hin b) (or_introl eq_refl)) as [E'|E']; [exact E'|].
        specialize (Ha b E'). specialize (Hb a E). lia. }
      subst b. f_equal. apply IH; [exact Hs2|].
      intros x. split; intros Hx.
      * destruct (proj1 (Hin x) (or_intror Hx)) as [E|E]; [|exact E].
        specialize (Ha x Hx). lia.
      * destruct (proj2 (Hin x) (or_intror Hx)) as [E|E]; [|exact E].
        specialize (Hb x Hx). lia.
Qed.

Section SeededExact.

Context {V : Type}.
Variable add : V -> V -> V.
Variable lerp : V -> V -> R -> V.
Variable identity : V.
Hypothesis add_identity : forall v : V, add identity v = v.

Lemma keyframes_from_frames (res : list (GMTKeyframe V)) (s : Z -> V) :
  Forall (fun kf => value kf = s (frame kf)) res ->
  res = List.map (fun f => mkKeyframe f (s f)) (frames_of res).
Proof.
  induction 1 as [|[f v] res Hkf Hres IH]; [reflexivity|].
  cbn in Hkf. subst v. cbn [frames_of List.map frame]. f_equal. exact IH.
Qed.

Lemma add_keyframes_seeded_exact (o : GMTKeyframe V) (os : list (GMTKeyframe V)) :
  valid_frames (frames_of (o :: os)) ->
  add_keyframes add lerp (seed identity []) (o :: os)
  = Ok (if (frame o =? 0)%Z then o :: os else mkKeyframe 0 (value o) :: o :: os).
Proof.
  intros [H0 Hs].
  destruct (add_keyframes_seeded add lerp identity add_identity (o :: os)
              ltac:(discriminate) (conj H0 Hs)) as (res & Hres & _ & Hfr).
  rewrite Hres. f_equal.
  cbn [seed length Nat.eqb List.app] in Hres.
  destruct (add_keyframes_spec add lerp (mkKeyframe 0 identity) [] o os)
    as (res' & Hres' & Hf & Hall).
  rewrite Hres in Hres'. injection Hres' as <-.
  cbn [List.last frame] in Hall.
  destruct (value_at_ends lerp o os Hs) as (Hs1 & Hs2 & _).
  set (sample := value_at lerp (dict_of_keyframes (o :: os)) (frame o)
                          (frame (List.last os o))) in *.
  set (s := fun f => match sample f with Ok v => v | Err _ => identity end).
  assert (Hval : Forall (fun kf => value kf = s (frame kf)) res).
  { eapply List.Forall_impl; [|exact Hall]. intros kf (v1 & v2 & Hv1 & Hv2 & Hv).
    rewrite value_at_seed in Hv1. injection Hv1 as <-.
    unfold s. rewrite Hv2, Hv. apply add_identity. }
  rewrite (keyframes_from_frames res s Hval).
  assert (Hsorted : StronglySorted Z.lt (frames_of res)).
  { rewrite Hf. apply filter_sorted, seq_sorted. }
  assert (Hback : List.map (fun f => mkKeyframe f (s f)) (frames_of (o :: os)) = o :: os).
  { unfold frames_of. rewrite List.map_map. rewrite <- (List.map_id (o :: os)) at 2.
    apply List.map_ext_in. intros kf Hkf. unfold s. rewrite (Hs1 kf Hkf).
    destruct kf. reflexivity. }
  assert (Hpos : (0 <= frame o)%Z).
  { rewrite List.Forall_forall in H0. apply (H0 (frame o)). now left. }
  destruct (frame o =? 0)%Z eqn:E.
  - apply Z.eqb_eq in E.
    rewrite (sorted_unique (frames_of res) (frames_of (o :: os)) Hsorted Hs); [exact Hback|].
    intros x. rewrite Hfr. split; [|tauto].
    intros [-> | H]; [|exact H]. left. cbn. now symmetry.
  - apply Z.eqb_neq in E.
    rewrite (sorted_unique (frames_of res) (0%Z :: frames_of (o :: os)) Hsorted).
    + cbn [List.map]. rewrite Hback. f_equal. unfold s. rewrite Hs2 by lia. reflexivity.
    + constructor; [exact Hs|].
      pose proof (frames_above_first o os Hs) as Hlow.
      eapply List.Forall_impl; [|exact Hlow]. cbn. intros; lia.
    + intros x. rewrite Hfr. cbn [In]. split; intros [H|H]; auto.
Qed.

End SeededExact.

(** X16: merging into a curve that has no keyframes, exactly.  For a
    location or rotation curve [other] with keyframes and valid frames,
    [add_curve] applied to an empty curve of the same type and [other]
    returns the keyframes of [other] unchanged when the first one is at
    frame 0, and otherwise these keyframes preceded by one more keyframe at
    frame 0 that holds the first value of [other]. *)
Theorem add_curve_into_empty_exact :
  forall (slerp : Quaternion -> Quaternion -> R -> Quaternion),
    (forall (o : GMTKeyframe Vector) (os : list (GMTKeyframe Vector)),
        valid_frames (frames_of (o :: os)) ->
        add_curve slerp (GMTCurve_new LOCATION) (LocationCurve (o :: os))
        = Ok (LocationCurve (if (frame o =? 0)%Z then o :: os
                             else mkKeyframe 0 (value o) :: o :: os)))
    /\ (forall (o : GMTKeyframe Quaternion) (os : list (GMTKeyframe Quaternion)),
           valid_frames (frames_of (o :: os)) ->
           add_curve slerp (GMTCurve_new ROTATION) (RotationCurve (o :: os))
           = Ok (RotationCurve (if (frame o =? 0)%Z then o :: os
                                else mkKeyframe 0 (value o) :: o :: os))).
Proof.
  intros slerp. split; intros o os Hv; unfold add_curve;
    cbn [curve_type GMTCurve_new]; rewrite bool_decide_eq_true_2 by reflexivity; cbn [negb].
  - rewrite (add_keyframes_seeded_exact vadd vlerp Vector_zero vadd_zero_l o os Hv).
    reflexivity.
  - rewrite (add_keyframes_seeded_exact qmul slerp Quaternion_identity qmul_identity_l o os Hv).
    reflexivity.
Qed.

Lemma add_curve_into_empty_exact_witness :
  add_curve (fun (a _ : Quaternion) (_ : R) => a) (GMTCurve_new LOCATION)
            (LocationCurve [mkKeyframe 3 (mkVector 1 2 3); mkKeyframe 7 (mkVector 4 5 6)])
  = Ok (LocationCurve [mkKeyframe 0 (mkVector 1 2 3); mkKeyframe 3 (mkVector 1 2 3);
                       mkKeyframe 7 (mkVector 4 5 6)]).
Proof.
  destruct (add_curve_into_empty_exact (fun (a _ : Quaternion) (_ : R) => a)) as [H _].
  rewrite (H (mkKeyframe 3 (mkVector 1 2 3)) [mkKeyframe 7 (mkVector 4 5 6)]).
  - reflexivity.
  - split; cbn; repeat constructor; lia.
Defined.

(** X17: [merge_vector] cannot add a vector bone whose location curve has
    no keyframes.  When the vector version and [is_auth] ask for the
    addition and the center bone's location is a location curve, a vector
    bone with an empty location curve (as [merge_vector] itself leaves it
    when it resets the vector bone) makes the call raise [IndexError]. *)
Theorem merge_vector_empty_vector :
  forall (slerp : Quaternion -> Quaternion -> R -> Quaternion)
         (ck : list (GMTKeyframe Vector)) (center_rotation vector_rotation : GMTCurve)
         (vector_version : GMTVectorVersion) (is_auth : bool),
    vector_version = DRAGON_VECTOR \/ (vector_version = OLD_VECTOR /\ is_auth = false) ->
    merge_vector slerp
                 (Some (mkBone (LocationCurve ck) center_rotation))
                 (Some (mkBone (GMTCurve_new LOCATION) vector_rotation))
                 vector_version is_auth
    = Err IndexError.
Proof.
  intros slerp ck cr vr vv ia H. apply adds_vector_cases in H.
  unfold merge_vector. rewrite H.
  assert (Hv : vv <> NO_VECTOR) by (intros ->; cbn in H; discriminate).
  rewrite bool_decide_eq_false_2 by exact Hv.
  assert (Hadd : add_curve slerp (LocationCurve ck) (GMTCurve_new LOCATION)
                 = Err IndexError).
  { unfold add_curve. cbn [curve_type GMTCurve_new].
    rewrite bool_decide_eq_true_2 by reflexivity. cbn [negb].
    destruct ck as [|c ck]; unfold add_keyframes; cbn [seed length Nat.eqb List.app];
      cbn [Py.first Py.last Py.index nth_error]; py_simpl; reflexivity. }
  cbn [location]. rewrite Hadd. reflexivity.
Qed.

Lemma merge_vector_empty_vector_witness :
  merge_vector (fun (a _ : Quaternion) (_ : R) => a)
               (Some (mkBone (LocationCurve [mkKeyframe 0 (mkVector 1 2 3)])
                             (RotationCurve [mkKeyframe 0 Quaternion_identity])))
               (Some (mkBone (GMTCurve_new LOCATION) (GMTCurve_new ROTATION)))
               DRAGON_VECTOR false
  = Err IndexError.
Proof.
  apply merge_vector_empty_vector. now left.
Defined.

(** ** The camera importer *)

Lemma convert_cam_data_eq (d : CameraImporter.CMTData) :
  CameraImporter.convert_cam_data d
  = CameraImporter.mkCMTData
      (- CameraImporter.pos_x d) (CameraImporter.pos_z d) (CameraImporter.pos_y d)
      (- CameraImporter.foc_x d) (CameraImporter.foc_z d) (CameraImporter.foc_y d)
      (CameraImporter.fov d) (CameraImporter.rot d).
Proof. destruct d. reflexivity. Qed.

(** X18: [convert_cam_to_blender] applies to the position and to the focus
    point of every camera frame the axis map of [pos_to_blender], leaves
    the field of view and the roll as they are, keeps the number of
    frames, and applied twice gives the frames back. *)
Theorem convert_cam_to_blender_axes :
  forall data_list : list CameraImporter.CMTData,
    length (CameraImporter.convert_cam_to_blender data_list) = length data_list
    /\ CameraImporter.convert_cam_to_blender
         (CameraImporter.convert_cam_to_blender data_list) = data_list
    /\ Forall2
         (fun d d' =>
            mkVector (CameraImporter.pos_x d') (CameraImporter.pos_y d')
                     (CameraImporter.pos_z d')
            = pos_to_blender (CameraImporter.pos_x d, CameraImporter.pos_y d,
                              CameraImporter.pos_z d)
            /\ mkVector (CameraImporter.foc_x d') (CameraImporter.foc_y d')
                        (CameraImporter.foc_z d')
               = pos_to_blender (CameraImporter.foc_x d, CameraImporter.foc_y d,
                                 CameraImporter.foc_z d)
            /\ CameraImporter.fov d' = CameraImporter.fov d
            /\ CameraImporter.rot d' = CameraImporter.rot d)
         data_list (CameraImporter.convert_cam_to_blender data_list).
Proof.
  intros data_list. unfold CameraImporter.convert_cam_to_blender.
  split; [apply length_map | split].
  - rewrite List.map_map. rewrite <- (List.map_id data_list) at 2.
    apply List.map_ext. intros d. rewrite !convert_cam_data_eq.
    destruct d. cbn. now rewrite !Ropp_involutive.
  - induction data_list as [|d l IH]; cbn [List.map]; constructor; [|exact IH].
    rewrite convert_cam_data_eq. destruct d. cbn. repeat split.
Qed.

Lemma camera_loop (sh : R) (data : list CameraImporter.CMTData)
      (locs : list Vector) (lens : list R) :
  Py.for_each
    (fun acc d =>
       let '(locations, foc_lengths) := acc in
       let pos := mkVector (CameraImporter.pos_x d) (CameraImporter.pos_y d)
                           (CameraImporter.pos_z d) in
       let locations := locations ++ [pos] in
       h ← truediv sh 2;
       a ← truediv (CameraImporter.fov d) 2;
       foc_len ← truediv h (tan a);
       mret (locations, foc_lengths ++ [foc_len]))
    data (locs, lens)
  = (fl ← Py.map_result (fun d => fov_to_blender (CameraImporter.fov d) sh) data;
     mret (locs ++ List.map (fun d => mkVector (CameraImporter.pos_x d)
                                               (CameraImporter.pos_y d)
                                               (CameraImporter.pos_z d)) data,
           lens ++ fl)).
Proof.
  match goal with |- Py.for_each ?F _ _ = _ => set (body := F) end.
  revert locs lens. induction data as [|d data IH]; intros locs lens.
  - cbn. now rewrite !List.app_nil_r.
  - cbn [Py.for_each Py.map_result List.map]. unfold body at 1. cbn beta iota.
    unfold fov_to_blender at 1.
    rewrite (truediv_ok sh 2) by lra.
    rewrite (truediv_ok (CameraImporter.fov d) 2) by lra. py_simpl.
    destruct (truediv (sh / 2) (tan (CameraImporter.fov d / 2))) as [f|e]; py_simpl;
      [|reflexivity].
    rewrite IH.
    destruct (Py.map_result (fun d0 => fov_to_blender (CameraImporter.fov d0) sh) data)
      as [fl|e]; py_simpl; [|reflexivity].
    now rewrite <- !List.app_assoc.
Qed.

(** X19: the focal lengths that [animate_camera] collects are those of
    [fov_to_blender], frame by frame, next to the frame positions; a single
    frame whose half field of view has tangent zero (a field of view of 0,
    for one) makes the whole loop raise [ZeroDivisionError]. *)
Theorem camera_samples_results :
  forall (sensor_height : R) (anm_data : list CameraImporter.CMTData),
    CameraImporter.camera_samples sensor_height anm_data
    = (fl ← Py.map_result (fun d => fov_to_blender (CameraImporter.fov d) sensor_height)
                          anm_data;
       mret (List.map (fun d => mkVector (CameraImporter.pos_x d) (CameraImporter.pos_y d)
                                         (CameraImporter.pos_z d)) anm_data,
             fl))
    /\ (Exists (fun d => tan (CameraImporter.fov d / 2) = 0) anm_data ->
        CameraImporter.camera_samples sensor_height anm_data = Err ZeroDivisionError)
    /\ (Forall (fun d => tan (CameraImporter.fov d / 2) <> 0) anm_data ->
        CameraImporter.camera_samples sensor_height anm_data
        = Ok (List.map (fun d => mkVector (CameraImporter.pos_x d) (CameraImporter.pos_y d)
                                          (CameraImporter.pos_z d)) anm_data,
              List.map (fun d => sensor_height / 2 / tan (CameraImporter.fov d / 2))
                       anm_data)).
Proof.
  intros sh data.
  assert (Heq : CameraImporter.camera_samples sh data
                = (fl ← Py.map_result (fun d => fov_to_blender (CameraImporter.fov d) sh) data;
                   mret (List.map (fun d => mkVector (CameraImporter.pos_x d)
                                                     (CameraImporter.pos_y d)
                                                     (CameraImporter.pos_z d)) data,
                         fl))).
  { unfold CameraImporter.camera_samples.
    etransitivity; [exact (camera_loop sh data [] [])|reflexivity]. }
  split; [exact Heq | split]; intros H; rewrite Heq; clear Heq.
  - induction H as [d l Hd | d l Hl IH]; cbn [Py.map_result].
    + unfold fov_to_blender at 1. rewrite (truediv_ok sh 2) by lra.
      rewrite (truediv_ok (CameraImporter.fov d) 2) by lra. py_simpl.
      rewrite (truediv_zero _ _ Hd). reflexivity.
    + destruct (fov_to_blender (CameraImporter.fov d) sh) as [f|e] eqn:E; py_simpl.
      * destruct (Py.map_result (fun d0 => fov_to_blender (CameraImporter.fov d0) sh) l)
          as [fl|e]; py_simpl_in IH; py_simpl; [discriminate IH | exact IH].
      * unfold fov_to_blender in E. rewrite (truediv_ok sh 2) in E by lra.
        rewrite (truediv_ok (CameraImporter.fov d) 2) in E by lra. py_simpl_in E.
        unfold truediv in E. destruct (Req_dec_T _ 0); [|discriminate E].
        now injection E as <-.
  - induction H as [|d l Hd Hl IH]; [reflexivity|].
    cbn [Py.map_result List.map]. unfold fov_to_blender at 1.
    rewrite (truediv_ok sh 2) by lra.
    rewrite (truediv_ok (CameraImporter.fov d) 2) by lra. py_simpl.
    rewrite (truediv_ok _ _ Hd). py_simpl.
    destruct (Py.map_result (fun d0 => fov_to_blender (CameraImporter.fov d0) sh) l)
      as [fl|e]; py_simpl_in IH; py_simpl; [|discriminate IH].
    injection IH as <-. reflexivity.
Qed.

Lemma camera_samples_results_witness :
  CameraImporter.camera_samples 100
    [CameraImporter.mkCMTData 1 2 3 4 5 6 1 0; CameraImporter.mkCMTData 1 2 3 4 5 6 0 0]
  = Err ZeroDivisionError.
Proof.
  destruct (camera_samples_results 100
              [CameraImporter.mkCMTData 1 2 3 4 5 6 1 0;
               CameraImporter.mkCMTData 1 2 3 4 5 6 0 0]) as (_ & H & _).
  apply H. apply Exists_cons_tl. apply Exists_cons_hd.
  cbn. replace (0 / 2) with 0 by lra. apply tan_0.
Defined.

(** ** [make_curve]: which keyframe points are held *)

Lemma map2_lookup {A B C : Type} (f : A -> B -> C) (xs : list A) (ys : list B) (i : nat) :
  map2 f xs ys !! i
  = match xs !! i, ys !! i with
    | Some x, Some y => Some (f x y)
    | _, _ => None
    end.
Proof.
  revert ys i. induction xs as [|x xs IH]; intros [|y ys] [|i]; cbn; try reflexivity.
  - now destruct (xs !! i).
  - apply IH.
Qed.

Lemma map2_length_eq {A B C : Type} (f : A -> B -> C) (xs : list A) (ys : list B) :
  length ys = length xs -> length (map2 f xs ys) = length xs.
Proof.
  revert ys. induction xs as [|x xs IH]; intros [|y ys] H; cbn in *; try lia.
  now rewrite IH by lia.
Qed.

Lemma repeat_lookup_lt {A : Type} (x : A) (n i : nat) :
  (i < n)%nat -> repeat x n !! i = Some x.
Proof.
  revert i. induction n as [|n IH]; intros [|i] H; cbn; try lia; [reflexivity|].
  apply IH. lia.
Qed.

Lemma constant_flags_loop (fcurves : gmap string FCurve) (buf : list bool)
      (axes : list string) (pol0 pol : list bool) :
  length pol0 = length buf ->
  Py.for_each
    (fun pol axis =>
       fc ← match fcurves !! axis with Some fc => Ok fc | None => Err KeyError end;
       ip ← foreach_get_interpolation fc buf;
       mret (map2 (fun a b => a && (b =? 0)%Z) pol ip))
    axes pol0 = Ok pol ->
  length pol = length buf
  /\ forall i : nat,
       pol !! i = Some true
       <-> pol0 !! i = Some true
           /\ Forall (fun axis => exists (fc : FCurve) (p : KeyframePoint),
                          fcurves !! axis = Some fc /\ fc !! i = Some p
                          /\ interpolation p = 0%Z) axes.
Proof.
  match goal with |- _ -> Py.for_each ?F _ _ = _ -> _ => set (body := F) end.
  revert pol0. induction axes as [|axis axes IH]; intros pol0 Hlen Hrun.
  - cbn in Hrun. injection Hrun as <-. split; [exact Hlen|].
    intros i. split; [intros H; split; [exact H | constructor] | now intros [H _]].
  - cbn [Py.for_each] in Hrun. unfold body at 1 in Hrun. cbn beta in Hrun.
    destruct (fcurves !! axis) as [fc|] eqn:Hfc; py_simpl_in Hrun; [|discriminate Hrun].
    unfold foreach_get_interpolation in Hrun.
    destruct buf as [|b buf'].
    { py_simpl_in Hrun. destruct pol0 as [|a pol0']; [|discriminate Hlen].
      cbn [map2] in Hrun. apply IH in Hrun; [|reflexivity].
      destruct Hrun as [Hlp Hiff]. split; [exact Hlp|].
      intros i. rewrite Hiff. rewrite lookup_nil.
      split; intros [Hi _]; discriminate Hi. }
    set (buf := b :: buf') in *.
    destruct (length buf =? length fc)%nat eqn:Hl; py_simpl_in Hrun; [|discriminate Hrun].
    apply Nat.eqb_eq in Hl.
    apply IH in Hrun; [|rewrite map2_length_eq; [exact Hlen | rewrite length_map; lia]].
    destruct Hrun as [Hlp Hiff]. split; [exact Hlp|].
    intros i. rewrite Hiff, map2_lookup, list_lookup_fmap. clear Hiff IH.
    split.
    + intros [Hi Hrest].
      destruct (pol0 !! i) as [a|] eqn:Ha; [|discriminate Hi].
      destruct (fc !! i) as [p|] eqn:Hp; cbn in Hi; [|discriminate Hi].
      injection Hi as Hi. apply andb_true_iff in Hi as [-> Hz].
      apply Z.eqb_eq in Hz.
      split; [reflexivity|]. constructor; [|exact Hrest].
      exists fc, p. now rewrite Hfc.
    + intros [Hi Hall]. inversion Hall as [|? ? (fc' & p & Hfc' & Hp & Hz) Hrest]; subst.
      rewrite Hfc in Hfc'. injection Hfc' as <-.
      rewrite Hi, Hp. cbn. rewrite Hz. split; [reflexivity | exact Hrest].
Qed.

(** X20: the flags [make_curve] computes before duplicating keyframes hold
    one entry per keyframe point of the first axis, and the entry of a
    point is true exactly when every axis of the curve, not only the first,
    has CONSTANT interpolation (code 0) at that point. *)
Theorem constant_flags_every_axis :
  forall (fcurves : gmap string FCurve) (axes : list string) (pol : list bool),
    constant_flags fcurves axes = Ok pol ->
    (exists (a0 : string) (fc0 : FCurve),
        axes !! 0%nat = Some a0 /\ fcurves !! a0 = Some fc0 /\ length pol = length fc0)
    /\ forall i : nat,
         pol !! i = Some true
         <-> (i < length pol)%nat
             /\ Forall (fun axis => exists (fc : FCurve) (p : KeyframePoint),
                            fcurves !! axis = Some fc /\ fc !! i = Some p
                            /\ interpolation p = 0%Z) axes.
Proof.
  intros fcurves axes pol H. unfold constant_flags in H.
  unfold Py.index in H. destruct axes as [|a0 axes']; [discriminate H|].
  cbn [nth_error] in H. py_simpl_in H.
  destruct (fcurves !! a0) as [fc0|] eqn:Hfc0; py_simpl_in H; [|discriminate H].
  apply constant_flags_loop in H; [|reflexivity].
  destruct H as [Hlen Hiff]. rewrite repeat_length in Hlen.
  split; [exists a0, fc0; repeat split; assumption|].
  intros i. rewrite Hiff. split.
  - intros [Hi Hall]. split; [|exact Hall].
    apply lookup_lt_Some in Hi. rewrite repeat_length in Hi. lia.
  - intros [Hi Hall]. split; [|exact Hall].
    apply repeat_lookup_lt. lia.
Qed.

(** Three axes with two keyframe points each: the first point is constant
    on every axis and is flagged, the second is linear on the y axis only and
    is not. *)
Lemma constant_flags_every_axis_witness :
  let fcurves : gmap string FCurve :=
    {[ "x"%string := [mkPoint (0, 1)%Q 0; mkPoint (10, 2)%Q 0];
       "y"%string := [mkPoint (0, 3)%Q 0; mkPoint (10, 4)%Q 1];
       "z"%string := [mkPoint (0, 5)%Q 0; mkPoint (10, 6)%Q 0] ]} in
  constant_flags fcurves ["x"%string; "y"%string; "z"%string] = Ok [true; false]
  /\ Forall (fun axis => exists (fc : FCurve) (p : KeyframePoint),
                 fcurves !! axis = Some fc /\ fc !! 0%nat = Some p
                 /\ interpolation p = 0%Z) ["x"%string; "y"%string; "z"%string].
Proof.
  intros fcurves.
  assert (H : constant_flags fcurves ["x"%string; "y"%string; "z"%string]
              = Ok [true; false]) by reflexivity.
  split; [exact H|].
  destruct (constant_flags_every_axis fcurves _ _ H) as [_ Hiff].
  apply (proj1 (Hiff 0%nat)). reflexivity.
Defined.

(** ** [make_bone] *)

Section BoneExport.

Import MakeBone.

Lemma foreach_app {S A : Type} (body : S -> A -> outcome S) (xs ys : list A) (st : S) :
  foreach body (xs ++ ys) st = outcome_bind (foreach body xs st) (foreach body ys).
Proof.
  revert st. induction xs as [|x xs IH]; intros st; cbn; [reflexivity|].
  destruct (body st x); cbn; [apply IH | reflexivity | reflexivity].
Qed.

Lemma foreach_not_done {S A : Type} (body : S -> A -> outcome S) (xs : list A) (st : S) :
  Exists (fun x => forall st' st'', body st' x <> Done st'') xs ->
  forall st', foreach body xs st <> Done st'.
Proof.
  intros H. revert st. induction H as [x xs Hx | x xs _ IH]; intros st st'; cbn.
  - destruct (body st x) as [a| |] eqn:E; cbn; [|discriminate..].
    now destruct (Hx st a).
  - destruct (body st x); cbn; [apply IH | discriminate..].
Qed.

Lemma fcurves_of_set (d : dict) (k : string) (c : Channel) :
  fcurves_of (dict_set d k c) = <[k := keyframe_points c]> (fcurves_of d).
Proof.
  unfold fcurves_of. induction d as [|[k' c'] d IH]; cbn [dict_set List.map].
  - reflexivity.
  - destruct (String.eqb k' k) eqn:E; cbn [List.map list_to_map foldr fst snd].
    + apply String.eqb_eq in E. subst k'. now rewrite insert_insert_eq.
    + apply String.eqb_neq in E. rewrite IH. now apply insert_insert_ne.
Qed.

Lemma dict_set_keys (d : dict) (k : string) (c : Channel) :
  List.map fst (dict_set d k c)
  = if bool_decide (k ∈ List.map fst d) then List.map fst d else List.map fst d ++ [k].
Proof.
  induction d as [|[k' c'] d IH]; cbn [dict_set List.map fst].
  - reflexivity.
  - destruct (String.eqb k' k) eqn:E; cbn [List.map fst].
    + apply String.eqb_eq in E. subst k'.
      rewrite bool_decide_eq_true_2 by (left). reflexivity.
    + apply String.eqb_neq in E. rewrite IH.
      destruct (bool_decide (k ∈ List.map fst d)) eqn:B.
      * apply bool_decide_eq_true_1 in B.
        rewrite bool_decide_eq_true_2 by (now right). reflexivity.
      * apply bool_decide_eq_false_1 in B.
        rewrite bool_decide_eq_false_2; [reflexivity|].
        intros H. apply elem_of_cons in H as [H|H]; [now subst | contradiction].
Qed.

Lemma dict_set_nodup (d : dict) (k : string) (c : Channel) :
  NoDup (List.map fst d) -> NoDup (List.map fst (dict_set d k c)).
Proof.
  intros H. rewrite dict_set_keys.
  destruct (bool_decide (k ∈ List.map fst d)) eqn:B; [exact H|].
  apply bool_decide_eq_false_1 in B.
  apply NoDup_app. split; [exact H|]. split.
  - intros x Hx Hk. apply list_elem_of_singleton in Hk. now subst.
  - apply NoDup_singleton.
Qed.

Lemma dict_length (d : dict) :
  NoDup (List.map fst d) -> length d = size (fcurves_of d).
Proof.
  intros H. unfold fcurves_of. rewrite map_size_list_to_map.
  - now rewrite length_map.
  - rewrite <- list_fmap_compose. exact H.
Qed.

Lemma put_key_fcurves (key : Channel -> option string) (d : dict) (c : Channel) :
  fcurves_of (put_key key d c) = insert_key key c (fcurves_of d).
Proof.
  unfold put_key, insert_key. destruct (key c); [apply fcurves_of_set | reflexivity].
Qed.

Lemma put_key_nodup (key : Channel -> option string) (d : dict) (c : Channel) :
  NoDup (List.map fst d) -> NoDup (List.map fst (put_key key d c)).
Proof.
  unfold put_key. destruct (key c); [apply dict_set_nodup | trivial].
Qed.

Lemma is_location_suffix (c : Channel) :
  is_location c = true ->
  exists sfx, suffix c = Ok sfx /\ contains "location" sfx = true.
Proof.
  unfold is_location. destruct (suffix c) as [sfx|e]; [|discriminate].
  intros H. now exists sfx.
Qed.

Lemma is_rotation_suffix (c : Channel) :
  is_rotation c = true ->
  exists sfx, suffix c = Ok sfx /\ contains "location" sfx = false
              /\ contains "rotation_quaternion" sfx = true.
Proof.
  unfold is_rotation. destruct (suffix c) as [sfx|e]; [|discriminate].
  intros H. apply andb_true_iff in H as [H1 H2]. apply negb_true_iff in H1.
  now exists sfx.
Qed.

Lemma is_rotation_not_location (c : Channel) :
  is_rotation c = true -> is_location c = false.
Proof.
  intros H. destruct (is_rotation_suffix c H) as (sfx & Hs & Hl & _).
  unfold is_location. now rewrite Hs.
Qed.

Lemma is_location_not_rotation (c : Channel) :
  is_location c = true -> is_rotation c = false.
Proof.
  intros H. destruct (is_rotation c) eqn:E; [|reflexivity].
  apply is_rotation_not_location in E. congruence.
Qed.

(** What the loop body does with a location channel. *)
Lemma sort_location (st : Sorting) (c : Channel) :
  is_location c = true ->
  sort_channel st c
  = if (loc_len st =? 0)%nat || (loc_len st =? points c)%nat
    then Done (mkSorting (points c) (rot_len st) (put_key location_key (loc_curves st) c)
                         (rot_curves st) (pat1_curves st))
    else GMTError (unmatching c).
Proof.
  intros H. destruct (is_location_suffix c H) as (sfx & Hs & Hl).
  unfold sort_channel, put_key, location_key, points. rewrite Hs, H. cbn [lift outcome_bind].
  rewrite Hl.
  destruct (loc_len st =? 0)%nat eqn:E0; cbn [orb negb outcome_bind].
  - now destruct (array_index c =? 0)%Z, (array_index c =? 1)%Z, (array_index c =? 2)%Z.
  - destruct (loc_len st =? length (keyframe_points c))%nat eqn:E1;
      cbn [negb outcome_bind]; [|reflexivity].
    apply Nat.eqb_eq in E1. rewrite E1.
    now destruct (array_index c =? 0)%Z, (array_index c =? 1)%Z, (array_index c =? 2)%Z.
Qed.

(** What the loop body does with a rotation channel. *)
Lemma sort_rotation (st : Sorting) (c : Channel) :
  is_rotation c = true ->
  sort_channel st c
  = if (rot_len st =? 0)%nat || (rot_len st =? points c)%nat
    then Done (mkSorting (loc_len st) (points c) (loc_curves st)
                         (put_key rotation_key (rot_curves st) c) (pat1_curves st))
    else GMTError (unmatching c).
Proof.
  intros H. destruct (is_rotation_suffix c H) as (sfx & Hs & Hl & Hr).
  unfold sort_channel, put_key, rotation_key, points. rewrite Hs, H. cbn [lift outcome_bind].
  rewrite Hl, Hr.
  destruct (rot_len st =? 0)%nat eqn:E0; cbn [orb negb outcome_bind].
  - now destruct (array_index c =? 0)%Z, (array_index c =? 1)%Z, (array_index c =? 2)%Z,
                 (array_index c =? 3)%Z.
  - destruct (rot_len st =? length (keyframe_points c))%nat eqn:E1;
      cbn [negb outcome_bind]; [|reflexivity].
    apply Nat.eqb_eq in E1. rewrite E1.
    now destruct (array_index c =? 0)%Z, (array_index c =? 1)%Z, (array_index c =? 2)%Z,
                 (array_index c =? 3)%Z.
Qed.

Lemma insert_key_none (key : Channel -> option string) (c : Channel)
      (m : gmap string FCurve) :
  key c = None -> insert_key key c m = m.
Proof. unfold insert_key. now intros ->. Qed.

Lemma put_key_none (key : Channel -> option string) (c : Channel) (d : dict) :
  key c = None -> put_key key d c = d.
Proof. unfold put_key. now intros ->. Qed.

Lemma location_key_rotation (c : Channel) : is_rotation c = true -> location_key c = None.
Proof. intros H. unfold location_key. now rewrite (is_rotation_not_location c H). Qed.

Lemma rotation_key_location (c : Channel) : is_location c = true -> rotation_key c = None.
Proof. intros H. unfold rotation_key. now rewrite (is_location_not_rotation c H). Qed.

(** The state in which the loop leaves location and rotation channels
    whose keyframe counts agree. *)
Lemma sorted_state (n m : nat) (chs : list Channel) (st : Sorting) :
  Forall (fun c => is_location c = true /\ points c = n
                   \/ is_rotation c = true /\ points c = m) chs ->
  (loc_len st = 0%nat \/ loc_len st = n) ->
  (rot_len st = 0%nat \/ rot_len st = m) ->
  NoDup (List.map fst (loc_curves st)) ->
  NoDup (List.map fst (rot_curves st)) ->
  exists st',
    foreach sort_channel chs st = Done st'
    /\ fcurves_of (loc_curves st')
       = fold_left (fun mp c => insert_key location_key c mp) chs (fcurves_of (loc_curves st))
    /\ fcurves_of (rot_curves st')
       = fold_left (fun mp c => insert_key rotation_key c mp) chs (fcurves_of (rot_curves st))
    /\ pat1_curves st' = pat1_curves st
    /\ NoDup (List.map fst (loc_curves st'))
    /\ NoDup (List.map fst (rot_curves st'))
    /\ loc_len st' = (if existsb is_location chs then n else loc_len st)
    /\ rot_len st' = (if existsb is_rotation chs then m else rot_len st).
Proof.
  intros H. revert st. induction H as [|c chs Hc _ IH]; intros st Hl Hr Nl Nr.
  - exists st. cbn. repeat split; assumption.
  - cbn [foreach fold_left]. destruct Hc as [[Hc Hn] | [Hc Hm]].
    + rewrite (sort_location st c Hc).
      assert (E : ((loc_len st =? 0)%nat || (loc_len st =? points c)%nat) = true).
      { apply orb_true_iff. destruct Hl as [-> | ->]; [now left | right].
        rewrite Hn. apply Nat.eqb_refl. }
      rewrite E. cbn [outcome_bind].
      destruct (IH (mkSorting (points c) (rot_len st)
                              (put_key location_key (loc_curves st) c)
                              (rot_curves st) (pat1_curves st)))
        as (st' & Hrun & Hloc & Hrot & Hpat & Nl' & Nr' & Ll & Lr);
        cbn [loc_len rot_len loc_curves rot_curves pat1_curves].
      * now right.
      * exact Hr.
      * now apply put_key_nodup.
      * exact Nr.
      * exists st'. cbn [loc_len rot_len loc_curves rot_curves pat1_curves] in Hloc, Hrot, Hpat, Ll, Lr.
        rewrite put_key_fcurves in Hloc.
        rewrite (insert_key_none rotation_key c _ (rotation_key_location c Hc)).
        cbn [existsb]. rewrite Hc, (is_location_not_rotation c Hc). cbn [orb].
        repeat split; try assumption.
        rewrite Ll, Hn. now destruct (existsb is_location chs).
    + rewrite (sort_rotation st c Hc).
      assert (E : ((rot_len st =? 0)%nat || (rot_len st =? points c)%nat) = true).
      { apply orb_true_iff. destruct Hr as [-> | ->]; [now left | right].
        rewrite Hm. apply Nat.eqb_refl. }
      rewrite E. cbn [outcome_bind].
      destruct (IH (mkSorting (loc_len st) (points c) (loc_curves st)
                              (put_key rotation_key (rot_curves st) c) (pat1_curves st)))
        as (st' & Hrun & Hloc & Hrot & Hpat & Nl' & Nr' & Ll & Lr);
        cbn [loc_len rot_len loc_curves rot_curves pat1_curves].
      * exact Hl.
      * now right.
      * exact Nl.
      * now apply put_key_nodup.
      * exists st'. cbn [loc_len rot_len loc_curves rot_curves pat1_curves] in Hloc, Hrot, Hpat, Ll, Lr.
        rewrite put_key_fcurves in Hrot.
        rewrite (insert_key_none location_key c _ (location_key_rotation c Hc)).
        cbn [existsb]. rewrite Hc, (is_rotation_not_location c Hc). cbn [orb].
        repeat split; try assumption.
        rewrite Lr, Hm. now destruct (existsb is_rotation chs).
Qed.


Lemma fold_insert_key_lookup (key : Channel -> option string) (chs : list Channel)
      (mp : gmap string FCurve) (k : string) :
  is_Some (fold_left (fun mp c => insert_key key c mp) chs mp !! k) ->
  is_Some (mp !! k) \/ Exists (fun c => key c = Some k) chs.
Proof.
  revert mp. induction chs as [|c chs IH]; intros mp H; cbn [fold_left] in H.
  - now left.
  - apply IH in H as [H | H]; [|right; now apply Exists_cons_tl].
    unfold insert_key in H. destruct (key c) as [k'|] eqn:E; [|now left].
    destruct (decide (k' = k)) as [-> | Hne].
    + right. now apply Exists_cons_hd.
    + rewrite lookup_insert_ne in H by exact Hne. now left.
Qed.

Lemma fold_insert_key_none (key : Channel -> option string) (chs : list Channel)
      (mp : gmap string FCurve) :
  Forall (fun c => key c = None) chs ->
  fold_left (fun mp c => insert_key key c mp) chs mp = mp.
Proof.
  intros H. revert mp. induction H as [|c chs Hc _ IH]; intros mp; cbn [fold_left].
  - reflexivity.
  - now rewrite (insert_key_none key c mp Hc).
Qed.

Lemma size_at_most_two (mp : gmap string FCurve) (a b : string) :
  (forall k, is_Some (mp !! k) -> k = a \/ k = b) -> (size mp <= 2)%nat.
Proof.
  intros H. rewrite <- (size_dom (D := gset string)).
  transitivity (size ({[a]} ∪ {[b]} : gset string)).
  - apply subseteq_size. intros k Hk. apply elem_of_dom in Hk.
    apply H in Hk as [-> | ->]; set_solver.
  - rewrite size_union_alt, size_singleton.
    assert (Hb : (size (({[b]} : gset string) ∖ {[a]}) <= size ({[b]} : gset string))%nat)
      by (apply subseteq_size; intros x Hx; now apply elem_of_difference in Hx as [Hx _]).
    rewrite size_singleton in Hb. lia.
Qed.

Lemma make_bone_unfold (to_quaternion : Matrix4 -> Quaternion) (self : GMTExporter)
      (version : Z) (bone_name : string) (chs : list Channel) (st : Sorting) :
  foreach sort_channel chs (mkSorting 0 0 [] [] []) = Done st ->
  pat1_curves st = [] ->
  make_bone to_quaternion self version bone_name chs
  = outcome_bind
      (if (length (loc_curves st) =? 3)%nat then
         outcome_bind
           (lift (make_curve to_quaternion self (fcurves_of (loc_curves st))
                             ["x"; "y"; "z"]%string POS_VEC3 bone_name))
           (fun curve => Done [curve])
       else Done [])
      (fun curves =>
         outcome_bind
           (if (length (rot_curves st) =? 4)%nat then
              outcome_bind
                (lift (make_curve to_quaternion self (fcurves_of (rot_curves st))
                                  ["w"; "x"; "y"; "z"]%string
                                  (if (version >? 65537)%Z then ROT_QUAT_SCALED
                                   else ROT_QUAT_HALF_FLOAT) bone_name))
                (fun curve => Done (curves ++ [curve]))
            else Done curves)
           (fun curves => Done (mkBone bone_name curves))).
Proof.
  intros Hrun Hpat. unfold make_bone. rewrite Hrun. cbn [outcome_bind].
  rewrite Hpat. cbn [List.map foreach].
  destruct (length (loc_curves st) =? 3)%nat; cbn [outcome_bind].
  - destruct (lift _); cbn [outcome_bind]; [|reflexivity..].
    destruct (length (rot_curves st) =? 4)%nat; cbn [outcome_bind]; [|reflexivity].
    destruct (lift _); cbn [outcome_bind]; reflexivity.
  - destruct (length (rot_curves st) =? 4)%nat; cbn [outcome_bind]; [|reflexivity].
    destruct (lift _); cbn [outcome_bind]; reflexivity.
Qed.

Lemma sort_dotless (st : Sorting) (c : Channel) :
  rfind dot (data_path c) = None -> sort_channel st c = Raised ValueError.
Proof.
  intros H. unfold sort_channel, suffix, rindex. rewrite H. reflexivity.
Qed.

(** X21: a channel whose data path holds no dot makes [make_bone] fail:
    with [ValueError] when it is the first channel, and in any position
    without a bone being returned. *)
Theorem make_bone_dotless_path :
  forall (to_quaternion : Matrix4 -> Quaternion) (self : GMTExporter) (version : Z)
         (bone_name : string) (c : Channel),
    rfind dot (data_path c) = None ->
    (forall rest : list Channel,
        make_bone to_quaternion self version bone_name (c :: rest) = Raised ValueError)
    /\ (forall (chs : list Channel) (bone : Bone),
           In c chs -> make_bone to_quaternion self version bone_name chs <> Done bone).
Proof.
  intros tq self version bone_name c Hc. split.
  - intros rest. unfold make_bone. cbn [foreach]. now rewrite (sort_dotless _ c Hc).
  - intros chs bone Hin. unfold make_bone.
    destruct (foreach sort_channel chs (mkSorting 0 0 [] [] [])) as [st| |] eqn:E;
      cbn [outcome_bind]; [|discriminate..].
    exfalso. revert E. apply foreach_not_done.
    apply List.Exists_exists. exists c. split; [exact Hin|].
    intros st' st''. now rewrite (sort_dotless st' c Hc).
Qed.

Lemma make_bone_dotless_path_witness :
  make_bone (fun _ => Quaternion_identity) (mkExporter ∅ false) 65538 "center_c_n"
            [mkChannel "location" 0 [mkPoint (0, 1)%Q 1]]
  = Raised ValueError.
Proof.
  apply (make_bone_dotless_path (fun _ => Quaternion_identity) (mkExporter ∅ false) 65538
           "center_c_n" (mkChannel "location" 0 [mkPoint (0, 1)%Q 1])).
  reflexivity.
Defined.

(** X22: the keyframe-count check of [make_bone] over location channels.
    Channels without keyframe points at the head of the list are let
    through whatever follows, so the list passes when the channels after
    them all hold the same number of points; once a channel with points has
    been seen, the first channel with another number of points, none
    included, stops the export with [GMTError] naming that channel. *)
Theorem make_bone_length_check :
  forall (to_quaternion : Matrix4 -> Quaternion) (self : GMTExporter) (version : Z)
         (bone_name : string) (empties same : list Channel) (n : nat),
    Forall (fun c => is_location c = true /\ points c = 0%nat) empties ->
    Forall (fun c => is_location c = true /\ points c = n) same ->
    (forall msg : string,
        make_bone to_quaternion self version bone_name (empties ++ same) <> GMTError msg)
    /\ (forall (c : Channel) (rest : list Channel),
           is_location c = true -> same <> [] -> n <> 0%nat -> points c <> n ->
           make_bone to_quaternion self version bone_name (empties ++ same ++ c :: rest)
           = GMTError (unmatching c)).
Proof.
  intros tq self version bone_name empties same n He Hs.
  assert (He' : Forall (fun c => is_location c = true /\ points c = 0%nat
                                \/ is_rotation c = true /\ points c = 0%nat) empties).
  { eapply Forall_impl; [exact He|]. intros c Hc. now left. }
  assert (Hs' : Forall (fun c => is_location c = true /\ points c = n
                                \/ is_rotation c = true /\ points c = 0%nat) same).
  { eapply Forall_impl; [exact Hs|]. intros c Hc. now left. }
  destruct (sorted_state 0 0 empties (mkSorting 0 0 [] [] []) He'
                         (or_introl eq_refl) (or_introl eq_refl)
                         (NoDup_nil_2 : NoDup (List.map fst []))
                         (NoDup_nil_2 : NoDup (List.map fst [])))
    as (st1 & Hrun1 & _ & _ & Hpat1 & Nl1 & Nr1 & Ll1 & Lr1).
  cbn [loc_len rot_len pat1_curves] in Hpat1, Ll1, Lr1.
  assert (Hl1 : loc_len st1 = 0%nat).
  { rewrite Ll1. destruct (existsb is_location empties); reflexivity. }
  assert (Hr1 : rot_len st1 = 0%nat).
  { rewrite Lr1. destruct (existsb is_rotation empties); reflexivity. }
  destruct (sorted_state n 0 same st1 Hs' (or_introl Hl1) (or_introl Hr1) Nl1 Nr1)
    as (st2 & Hrun2 & _ & _ & Hpat2 & Nl2 & Nr2 & Ll2 & Lr2).
  split.
  - intros msg.
    rewrite (make_bone_unfold tq self version bone_name (empties ++ same) st2).
    + destruct (length (loc_curves st2) =? 3)%nat; cbn [outcome_bind].
      * destruct (make_curve _ _ _ _ _ _); cbn [lift outcome_bind]; [|discriminate].
        destruct (length (rot_curves st2) =? 4)%nat; cbn [outcome_bind]; [|discriminate].
        destruct (make_curve _ _ _ _ _ _); cbn [lift outcome_bind]; discriminate.
      * destruct (length (rot_curves st2) =? 4)%nat; cbn [outcome_bind]; [|discriminate].
        destruct (make_curve _ _ _ _ _ _); cbn [lift outcome_bind]; discriminate.
    + rewrite foreach_app, Hrun1. exact Hrun2.
    + now rewrite Hpat2.
  - intros c rest Hc Hne Hn Hp. unfold make_bone.
    rewrite foreach_app, Hrun1. cbn [outcome_bind].
    rewrite foreach_app, Hrun2. cbn [outcome_bind foreach].
    rewrite (sort_location st2 c Hc).
    assert (Hl2 : loc_len st2 = n).
    { rewrite Ll2. destruct same as [|c0 same']; [contradiction|].
      inversion Hs as [|? ? [Hc0 _] _]; subst. cbn [existsb]. now rewrite Hc0. }
    rewrite Hl2.
    destruct (n =? 0)%nat eqn:E0; [apply Nat.eqb_eq in E0; contradiction|].
    destruct (n =? points c)%nat eqn:E1; [apply Nat.eqb_eq in E1; congruence|].
    reflexivity.
Qed.

(** An empty x channel lets a y channel with two points through; after a
    channel with one point, the channel with two is refused. *)
Lemma make_bone_length_check_witness :
  let cx0 := mkChannel "pose.bones[center_c_n].location" 0 [] in
  let cx1 := mkChannel "pose.bones[center_c_n].location" 0 [mkPoint (0, 1)%Q 1] in
  let cy2 := mkChannel "pose.bones[center_c_n].location" 1
                       [mkPoint (0, 1)%Q 1; mkPoint (5, 2)%Q 1] in
  (forall msg : string,
      make_bone (fun _ => Quaternion_identity) (mkExporter ∅ false) 65538 "center_c_n"
                ([cx0] ++ [cy2]) <> GMTError msg)
  /\ make_bone (fun _ => Quaternion_identity) (mkExporter ∅ false) 65538 "center_c_n"
               ([cx0] ++ [cx1] ++ cy2 :: [])
     = GMTError (unmatching cy2).
Proof.
  intros cx0 cx1 cy2. split.
  - apply (make_bone_length_check (fun _ => Quaternion_identity) (mkExporter ∅ false) 65538
             "center_c_n" [cx0] [cy2] 2).
    + repeat constructor.
    + repeat constructor.
  - apply (make_bone_length_check (fun _ => Quaternion_identity) (mkExporter ∅ false) 65538
             "center_c_n" [cx0] [cx1] 1).
    + repeat constructor.
    + repeat constructor.
    + reflexivity.
    + discriminate.
    + discriminate.
    + discriminate.
Defined.

Lemma location_key_cases (c : Channel) (k : string) :
  location_key c = Some k ->
  k = "x"%string /\ array_index c = 0%Z
  \/ k = "y"%string /\ array_index c = 1%Z
  \/ k = "z"%string /\ array_index c = 2%Z.
Proof.
  unfold location_key. destruct (is_location c); [|discriminate].
  destruct (array_index c =? 0)%Z eqn:E0.
  { intros [= <-]. apply Z.eqb_eq in E0. now left. }
  destruct (array_index c =? 1)%Z eqn:E1.
  { intros [= <-]. apply Z.eqb_eq in E1. right. now left. }
  destruct (array_index c =? 2)%Z eqn:E2; [|discriminate].
  intros [= <-]. apply Z.eqb_eq in E2. right. now right.
Qed.

(** X23: location channels that leave one of the three array indices 0, 1,
    2 unused give a bone without curves: the channels that were found are
    dropped, and no error is raised. *)
Theorem make_bone_incomplete_location :
  forall (to_quaternion : Matrix4 -> Quaternion) (self : GMTExporter) (version : Z)
         (bone_name : string) (chs : list Channel) (n : nat) (i : Z),
    Forall (fun c => is_location c = true /\ points c = n) chs ->
    (i = 0 \/ i = 1 \/ i = 2)%Z ->
    Forall (fun c => array_index c <> i) chs ->
    make_bone to_quaternion self version bone_name chs = Done (mkBone bone_name []).
Proof.
  intros tq self version bone_name chs n i Hloc Hi Hidx.
  assert (Hloc' : Forall (fun c => is_location c = true /\ points c = n
                                  \/ is_rotation c = true /\ points c = 0%nat) chs).
  { eapply Forall_impl; [exact Hloc|]. intros c Hc. now left. }
  destruct (sorted_state n 0 chs (mkSorting 0 0 [] [] []) Hloc'
                         (or_introl eq_refl) (or_introl eq_refl)
                         (NoDup_nil_2 : NoDup (List.map fst []))
                         (NoDup_nil_2 : NoDup (List.map fst [])))
    as (st & Hrun & Hl & Hr & Hpat & Nl & Nr & _ & _).
  cbn [loc_curves rot_curves pat1_curves] in Hl, Hr, Hpat.
  rewrite (make_bone_unfold tq self version bone_name chs st Hrun Hpat).
  rewrite (dict_length _ Nl), (dict_length _ Nr), Hl, Hr.
  rewrite (fold_insert_key_none rotation_key).
  2:{ eapply Forall_impl; [exact Hloc|]. intros c [Hc _]. now apply rotation_key_location. }
  change (fcurves_of []) with (∅ : gmap string FCurve).
  rewrite map_size_empty. cbn [Nat.eqb].
  set (mp := fold_left _ chs ∅).
  assert (Hkeys : forall k, is_Some (mp !! k) ->
                            exists c, In c chs /\ location_key c = Some k).
  { intros k Hk. apply fold_insert_key_lookup in Hk as [Hk | Hk].
    - rewrite lookup_empty in Hk. now destruct Hk.
    - apply List.Exists_exists in Hk. exact Hk. }
  assert (Hsize : (size mp <= 2)%nat).
  { destruct Hi as [-> | [-> | ->]].
    - apply (size_at_most_two mp "y" "z"). intros k Hk.
      destruct (Hkeys k Hk) as (c & Hin & Hkey).
      rewrite Forall_forall in Hidx. specialize (Hidx c).
      rewrite list_elem_of_In in Hidx. specialize (Hidx Hin).
      apply location_key_cases in Hkey as [[-> H] | [[-> H] | [-> H]]]; intuition.
    - apply (size_at_most_two mp "x" "z"). intros k Hk.
      destruct (Hkeys k Hk) as (c & Hin & Hkey).
      rewrite Forall_forall in Hidx. specialize (Hidx c).
      rewrite list_elem_of_In in Hidx. specialize (Hidx Hin).
      apply location_key_cases in Hkey as [[-> H] | [[-> H] | [-> H]]]; intuition.
    - apply (size_at_most_two mp "x" "y"). intros k Hk.
      destruct (Hkeys k Hk) as (c & Hin & Hkey).
      rewrite Forall_forall in Hidx. specialize (Hidx c).
      rewrite list_elem_of_In in Hidx. specialize (Hidx Hin).
      apply location_key_cases in Hkey as [[-> H] | [[-> H] | [-> H]]]; intuition. }
  destruct (size mp =? 3)%nat eqn:E; [apply Nat.eqb_eq in E; lia|].
  reflexivity.
Qed.

(** The x and y channels of a bone alone: nothing is exported. *)
Lemma make_bone_incomplete_location_witness :
  make_bone (fun _ => Quaternion_identity) (mkExporter ∅ false) 65538 "center_c_n"
            [mkChannel "pose.bones[center_c_n].location" 0 [mkPoint (0, 1)%Q 1];
             mkChannel "pose.bones[center_c_n].location" 1 [mkPoint (0, 2)%Q 1]]
  = Done (mkBone "center_c_n" []).
Proof.
  apply (make_bone_incomplete_location (fun _ => Quaternion_identity) (mkExporter ∅ false)
           65538 "center_c_n" _ 1 2).
  - repeat constructor.
  - right. now right.
  - repeat constructor; discriminate.
Defined.


Lemma fold_insert_key_permutation (key : Channel -> option string)
      (l chs : list Channel) (mp : gmap string FCurve) :
  (forall (j1 j2 : nat) (a1 a2 : Channel) (k1 k2 : string),
      j1 <> j2 -> l !! j1 = Some a1 -> l !! j2 = Some a2 ->
      key a1 = Some k1 -> key a2 = Some k2 -> k1 <> k2) ->
  Permutation chs l ->
  fold_left (fun mp c => insert_key key c mp) chs mp
  = fold_right (fun c mp => insert_key key c mp) mp l.
Proof.
  intros Hkeys Hperm.
  rewrite <- fold_left_rev_right.
  symmetry.
  apply (foldr_permutation eq (fun c mp => insert_key key c mp) mp l (rev chs)).
  - intros j1 a1 j2 a2 b Hne H1 H2. unfold insert_key.
    destruct (key a1) as [k1|] eqn:E1; [|reflexivity].
    destruct (key a2) as [k2|] eqn:E2; [|reflexivity].
    apply insert_insert_ne. intros ->.
    exact (Hkeys j1 j2 a1 a2 k2 k2 Hne H1 H2 E1 E2 eq_refl).
  - rewrite <- Hperm. apply Permutation_rev.
Qed.

(** X24: given the three location channels and the four rotation channels
    of a bone in any order, [make_bone] returns the location curve first and
    the rotation curve second, each built by [make_curve] from the channels
    keyed by their array index; the rotation curve is in the scaled format
    when the file version is above 0x10001 and in the half-float format
    otherwise. *)
Theorem make_bone_channel_order :
  forall (to_quaternion : Matrix4 -> Quaternion) (self : GMTExporter) (version : Z)
         (bone_name : string) (lx ly lz rw rx ry rz : Channel) (chs : list Channel)
         (n m : nat),
    Permutation chs [lx; ly; lz; rw; rx; ry; rz] ->
    Forall (fun c => is_location c = true /\ points c = n) [lx; ly; lz] ->
    Forall (fun c => is_rotation c = true /\ points c = m) [rw; rx; ry; rz] ->
    List.map array_index [lx; ly; lz] = [0; 1; 2]%Z ->
    List.map array_index [rw; rx; ry; rz] = [0; 1; 2; 3]%Z ->
    make_bone to_quaternion self version bone_name chs
    = outcome_bind
        (lift (make_curve to_quaternion self
                          {[ "x"%string := keyframe_points lx;
                             "y"%string := keyframe_points ly;
                             "z"%string := keyframe_points lz ]}
                          ["x"; "y"; "z"]%string POS_VEC3 bone_name))
        (fun location_curve =>
           outcome_bind
             (lift (make_curve to_quaternion self
                               {[ "w"%string := keyframe_points rw;
                                  "x"%string := keyframe_points rx;
                                  "y"%string := keyframe_points ry;
                                  "z"%string := keyframe_points rz ]}
                               ["w"; "x"; "y"; "z"]%string
                               (if (version >? 65537)%Z then ROT_QUAT_SCALED
                                else ROT_QUAT_HALF_FLOAT) bone_name))
             (fun rotation_curve =>
                Done (mkBone bone_name [location_curve; rotation_curve]))).
Proof.
  intros tq self version bone_name lx ly lz rw rx ry rz chs n m Hperm Hloc Hrot Hli Hri.
  injection Hli as Ix Iy Iz. injection Hri as Jw Jx Jy Jz.
  apply Forall_cons in Hloc as [[Lx Px] Hloc].
  apply Forall_cons in Hloc as [[Ly Py] Hloc].
  apply Forall_cons in Hloc as [[Lz Pz] _].
  apply Forall_cons in Hrot as [[Rw Qw] Hrot].
  apply Forall_cons in Hrot as [[Rx Qx] Hrot].
  apply Forall_cons in Hrot as [[Ry Qy] Hrot].
  apply Forall_cons in Hrot as [[Rz Qz] _].
  assert (Klx : location_key lx = Some "x"%string)
    by (unfold location_key; now rewrite Lx, Ix).
  assert (Kly : location_key ly = Some "y"%string)
    by (unfold location_key; now rewrite Ly, Iy).
  assert (Klz : location_key lz = Some "z"%string)
    by (unfold location_key; now rewrite Lz, Iz).
  assert (Krw : rotation_key rw = Some "w"%string)
    by (unfold rotation_key; now rewrite Rw, Jw).
  assert (Krx : rotation_key rx = Some "x"%string)
    by (unfold rotation_key; now rewrite Rx, Jx).
  assert (Kry : rotation_key ry = Some "y"%string)
    by (unfold rotation_key; now rewrite Ry, Jy).
  assert (Krz : rotation_key rz = Some "z"%string)
    by (unfold rotation_key; now rewrite Rz, Jz).
  pose proof (location_key_rotation rw Rw) as Nrw.
  pose proof (location_key_rotation rx Rx) as Nrx.
  pose proof (location_key_rotation ry Ry) as Nry.
  pose proof (location_key_rotation rz Rz) as Nrz.
  pose proof (rotation_key_location lx Lx) as Nlx.
  pose proof (rotation_key_location ly Ly) as Nly.
  pose proof (rotation_key_location lz Lz) as Nlz.
  assert (Hall : Forall (fun c => is_location c = true /\ points c = n
                                 \/ is_rotation c = true /\ points c = m) chs).
  { rewrite Hperm.
    repeat (apply Forall_cons; split); [left|left|left|right|right|right|right|];
      first [now split | apply Forall_nil_2]. }
  destruct (sorted_state n m chs (mkSorting 0 0 [] [] []) Hall
                         (or_introl eq_refl) (or_introl eq_refl)
                         (NoDup_nil_2 : NoDup (List.map fst []))
                         (NoDup_nil_2 : NoDup (List.map fst [])))
    as (st & Hrun & Hl & Hr & Hpat & Nl & Nr & _ & _).
  cbn [loc_curves rot_curves pat1_curves] in Hl, Hr, Hpat.
  change (fcurves_of []) with (∅ : gmap string FCurve) in Hl, Hr.
  rewrite (fold_insert_key_permutation location_key [lx; ly; lz; rw; rx; ry; rz]) in Hl;
    [|clear -Klx Kly Klz Nrw Nrx Nry Nrz|exact Hperm].
  2:{ intros j1 j2 a1 a2 k1 k2 Hne H1 H2 E1 E2.
      destruct j1 as [|[|[|[|[|[|[|j1]]]]]]]; cbn in H1; try discriminate H1;
        injection H1 as <-;
        destruct j2 as [|[|[|[|[|[|[|j2]]]]]]]; cbn in H2; try discriminate H2;
        injection H2 as <-; congruence. }
  rewrite (fold_insert_key_permutation rotation_key [lx; ly; lz; rw; rx; ry; rz]) in Hr;
    [|clear -Krw Krx Kry Krz Nlx Nly Nlz|exact Hperm].
  2:{ intros j1 j2 a1 a2 k1 k2 Hne H1 H2 E1 E2.
      destruct j1 as [|[|[|[|[|[|[|j1]]]]]]]; cbn in H1; try discriminate H1;
        injection H1 as <-;
        destruct j2 as [|[|[|[|[|[|[|j2]]]]]]]; cbn in H2; try discriminate H2;
        injection H2 as <-; congruence. }
  cbn [fold_right] in Hl, Hr. unfold insert_key in Hl, Hr.
  rewrite Klx, Kly, Klz, Nrw, Nrx, Nry, Nrz in Hl.
  rewrite Krw, Krx, Kry, Krz, Nlx, Nly, Nlz in Hr.
  rewrite insert_empty in Hl, Hr.
  rewrite (make_bone_unfold tq self version bone_name chs st Hrun Hpat).
  rewrite (dict_length _ Nl), (dict_length _ Nr), Hl, Hr.
  assert (S3 : size ({[ "x"%string := keyframe_points lx; "y"%string := keyframe_points ly;
                        "z"%string := keyframe_points lz ]} : gmap string FCurve) = 3%nat).
  { rewrite !map_size_insert_None, map_size_singleton; [reflexivity|..];
      repeat (rewrite lookup_insert_ne by discriminate);
      first [apply lookup_singleton_ne; discriminate | apply lookup_empty]. }
  assert (S4 : size ({[ "w"%string := keyframe_points rw; "x"%string := keyframe_points rx;
                        "y"%string := keyframe_points ry;
                        "z"%string := keyframe_points rz ]} : gmap string FCurve) = 4%nat).
  { rewrite !map_size_insert_None, map_size_singleton; [reflexivity|..];
      repeat (rewrite lookup_insert_ne by discriminate);
      first [apply lookup_singleton_ne; discriminate | apply lookup_empty]. }
  rewrite S3, S4. cbn [Nat.eqb].
  destruct (lift (make_curve tq self _ ["x"; "y"; "z"]%string POS_VEC3 bone_name));
    cbn [outcome_bind]; [|reflexivity..].
  destruct (lift (make_curve tq self _ ["w"; "x"; "y"; "z"]%string _ bone_name));
    cbn [outcome_bind app]; reflexivity.
Qed.

(** The rotation channels listed before the location channels: the
    location curve still comes first. *)
Lemma make_bone_channel_order_witness :
  let loc := fun i => mkChannel "pose.bones[center_c_n].location" i
                                [mkPoint (0, 1)%Q 1] in
  let rot := fun i => mkChannel "pose.bones[center_c_n].rotation_quaternion" i
                                [mkPoint (0, 1)%Q 1; mkPoint (4, 1)%Q 1] in
  let self := mkExporter {[ "center_c_n"%string := GMTBlenderBoneProps_default ]} false in
  make_bone (fun _ => Quaternion_identity) self 65536 "center_c_n"
            [rot 0; rot 1; rot 2; rot 3; loc 0; loc 1; loc 2]%Z
  = outcome_bind
      (lift (make_curve (fun _ => Quaternion_identity) self
                        {[ "x"%string := [mkPoint (0, 1)%Q 1];
                           "y"%string := [mkPoint (0, 1)%Q 1];
                           "z"%string := [mkPoint (0, 1)%Q 1] ]}
                        ["x"; "y"; "z"]%string POS_VEC3 "center_c_n"))
      (fun location_curve =>
         outcome_bind
           (lift (make_curve (fun _ => Quaternion_identity) self
                             {[ "w"%string := [mkPoint (0, 1)%Q 1; mkPoint (4, 1)%Q 1];
                                "x"%string := [mkPoint (0, 1)%Q 1; mkPoint (4, 1)%Q 1];
                                "y"%string := [mkPoint (0, 1)%Q 1; mkPoint (4, 1)%Q 1];
                                "z"%string := [mkPoint (0, 1)%Q 1; mkPoint (4, 1)%Q 1] ]}
                             ["w"; "x"; "y"; "z"]%string ROT_QUAT_HALF_FLOAT "center_c_n"))
           (fun rotation_curve =>
              Done (mkBone "center_c_n" [location_curve; rotation_curve]))).
Proof.
  intros loc rot self.
  apply (make_bone_channel_order
           (fun _ => Quaternion_identity) self 65536 "center_c_n"
           (loc 0%Z) (loc 1%Z) (loc 2%Z) (rot 0%Z) (rot 1%Z) (rot 2%Z) (rot 3%Z)
           [rot 0; rot 1; rot 2; rot 3; loc 0; loc 1; loc 2]%Z 1 2).
  - apply (Permutation_app_comm [rot 0; rot 1; rot 2; rot 3]%Z [loc 0; loc 1; loc 2]%Z).
  - repeat constructor.
  - repeat constructor.
  - reflexivity.
  - reflexivity.
Defined.

End BoneExport.

(** ** The exporter's own transforms *)

(** X25: the outcomes of the exporter's own transforms.  A bone that is
    not registered raises [KeyError] in both.  For a registered bone,
    [transform_location] raises [IndexError] on an empty list of values and
    otherwise returns one value per input, whether the rest rotation has an
    inverse or not; [transform_rotation] with a rest rotation whose matrix
    has no inverse returns the empty list for an empty list and raises
    [ValueError] otherwise. *)
Theorem exporter_transform_outcomes :
  forall (to_quaternion : Matrix4 -> Quaternion) (self : GMTExporter) (bone_name : string),
    (bone_props self !! bone_name = None ->
     forall (vs : list Vector) (qs : list Quaternion),
       transform_location self bone_name vs = Err KeyError
       /\ transform_rotation to_quaternion self bone_name qs = Err KeyError)
    /\ (forall prop : GMTBlenderBoneProps,
           bone_props self !! bone_name = Some prop ->
           transform_location self bone_name [] = Err IndexError
           /\ (forall (v : Vector) (vs : list Vector),
                  exists out : list Tuple3,
                    transform_location self bone_name (v :: vs) = Ok out
                    /\ length out = S (length vs))
           /\ (determinant (to_4x4 (to_matrix (rot prop))) = 0 ->
               transform_rotation to_quaternion self bone_name [] = Ok []
               /\ forall (q : Quaternion) (qs : list Quaternion),
                    transform_rotation to_quaternion self bone_name (q :: qs)
                    = Err ValueError)).
Proof.
  intros tq self bone_name. split.
  - intros Hnone vs qs. unfold transform_location, transform_rotation, props_item.
    rewrite Hnone. split; reflexivity.
  - intros prop Hp. split; [|split].
    + unfold transform_location, props_item. rewrite Hp. reflexivity.
    + intros v vs. eexists. split.
      * apply (transform_location_ok self bone_name prop (v :: vs) Hp). discriminate.
      * now rewrite length_map.
    + intros Hd. unfold transform_rotation, props_item. rewrite Hp. py_simpl.
      split; [reflexivity|].
      intros q qs. cbn [Py.map_result]. unfold inverted.
      destruct (Req_dec_T (determinant (to_4x4 (to_matrix (rot prop)))) 0) as [_|Hne];
        [reflexivity | contradiction].
Qed.

Lemma exporter_transform_outcomes_witness :
  let self := mkExporter {[ "spine"%string :=
                              mkProps (mkVector 0 1 0) None (mkVector 0 0 0)
                                      (mkQuaternion 0 (1/2) (1/2) 0)
                                      Quaternion_identity ]} false in
  transform_rotation (fun _ => Quaternion_identity) self "spine" [Quaternion_identity]
  = Err ValueError
  /\ transform_location self "missing" [mkVector 1 2 3] = Err KeyError.
Proof.
  intros self.
  destruct (exporter_transform_outcomes (fun _ => Quaternion_identity) self "spine")
    as [_ Hreg].
  destruct (exporter_transform_outcomes (fun _ => Quaternion_identity) self "missing")
    as [Hmiss _].
  split.
  - destruct (Hreg _ (lookup_singleton_eq _ _)) as (_ & _ & Hsing).
    apply Hsing. cbn [rot]. mat_unfold. cbn. field.
  - assert (Hno : bone_props self !! "missing"%string = None).
    { apply lookup_singleton_ne. discriminate. }
    apply (Hmiss Hno [mkVector 1 2 3] []).
Defined.

(** ** [make_bone]: hand pattern channels *)

Section BonePatterns.

Import MakeBone.

Lemma contains_slice (sub s : string) (n : nat) :
  contains sub (slice_from n s) = true -> contains sub s = true.
Proof.
  revert s. induction n as [|n IH]; intros s H; [exact H|].
  destruct s as [|a s]; [exact H|].
  cbn [slice_from] in H. apply IH in H.
  cbn [contains]. rewrite H. apply orb_true_r.
Qed.

Lemma contains_suffix (sub : string) (c : Channel) (sfx : string) :
  suffix c = Ok sfx -> contains sub sfx = true -> contains sub (data_path c) = true.
Proof.
  unfold suffix. destruct (rindex (data_path c) dot) as [i|e]; [|discriminate].
  py_simpl. intros [= <-]. apply contains_slice.
Qed.

Lemma sort_pattern (st : Sorting) (c : Channel) (sfx : string) :
  suffix c = Ok sfx ->
  contains "location" sfx = false ->
  contains "rotation_quaternion" sfx = false ->
  contains "pat1" sfx = true ->
  sort_channel st c
  = Done (mkSorting (loc_len st) (rot_len st) (loc_curves st) (rot_curves st)
                    (if String.eqb sfx "pat1_left_hand"
                     then dict_set (pat1_curves st)
                                   ("left_" ++ pretty (array_index c))%string c
                     else if String.eqb sfx "pat1_right_hand"
                          then dict_set (pat1_curves st)
                                        ("right_" ++ pretty (array_index c))%string c
                          else pat1_curves st)).
Proof.
  intros Hs Hl Hr Hp. unfold sort_channel. rewrite Hs. cbn [lift outcome_bind].
  rewrite Hl, Hr, (contains_suffix "pat1" c sfx Hs Hp). reflexivity.
Qed.

Lemma sort_left_hand (st : Sorting) (c : Channel) :
  suffix c = Ok "pat1_left_hand"%string ->
  sort_channel st c
  = Done (mkSorting (loc_len st) (rot_len st) (loc_curves st) (rot_curves st)
                    (dict_set (pat1_curves st)
                              ("left_" ++ pretty (array_index c))%string c)).
Proof. intros Hs. now rewrite (sort_pattern st c _ Hs eq_refl eq_refl eq_refl). Qed.

Lemma sort_right_hand (st : Sorting) (c : Channel) :
  suffix c = Ok "pat1_right_hand"%string ->
  sort_channel st c
  = Done (mkSorting (loc_len st) (rot_len st) (loc_curves st) (rot_curves st)
                    (dict_set (pat1_curves st)
                              ("right_" ++ pretty (array_index c))%string c)).
Proof. intros Hs. now rewrite (sort_pattern st c _ Hs eq_refl eq_refl eq_refl). Qed.

(** X26: a bone with a right-hand and a left-hand pattern channel (array
    index 0) is exported with one pattern curve per channel, in the order
    of the channels, the right one in the right-hand format and the left
    one in the left-hand format; the keyframe counts of the two channels
    are not compared. *)
Theorem make_bone_hand_patterns :
  forall (to_quaternion : Matrix4 -> Quaternion) (self : GMTExporter) (version : Z)
         (bone_name : string) (cl cr : Channel),
    suffix cl = Ok "pat1_left_hand"%string ->
    suffix cr = Ok "pat1_right_hand"%string ->
    array_index cl = 0%Z -> array_index cr = 0%Z ->
    let fcurves : gmap string FCurve :=
      {[ "right_0"%string := keyframe_points cr; "left_0"%string := keyframe_points cl ]} in
    make_bone to_quaternion self version bone_name [cr; cl]
    = outcome_bind
        (lift (make_curve to_quaternion self fcurves ["right_0"%string]
                          PAT1_RIGHT_HAND bone_name))
        (fun right_curve =>
           outcome_bind
             (lift (make_curve to_quaternion self fcurves ["left_0"%string]
                               PAT1_LEFT_HAND bone_name))
             (fun left_curve => Done (mkBone bone_name [right_curve; left_curve]))).
Proof.
  intros tq self version bone_name cl cr Hl Hr Il Ir fcurves.
  unfold make_bone. cbn [foreach].
  rewrite (sort_right_hand _ cr Hr). cbn [outcome_bind].
  rewrite (sort_left_hand _ cl Hl). cbn [outcome_bind].
  cbn [loc_len rot_len loc_curves rot_curves pat1_curves length Nat.eqb outcome_bind].
  rewrite Il, Ir.
  replace (pretty 0%Z) with "0"%string by (vm_compute; reflexivity).
  cbn [dict_set].
  change ("right_" +:+ "0") with "right_0"%string.
  change ("left_" +:+ "0") with "left_0"%string.
  change (String.eqb "right_0" "left_0") with false.
  cbn [List.map fst foreach app].
  assert (Hf : fcurves_of [("right_0"%string, cr); ("left_0"%string, cl)] = fcurves).
  { unfold fcurves_of, fcurves. cbn [List.map list_to_map foldr fst snd].
    now rewrite insert_empty. }
  rewrite Hf.
  replace (contains "left" "right_0") with false by (vm_compute; reflexivity).
  replace (contains "left" "left_0") with true by (vm_compute; reflexivity).
  destruct (lift (make_curve tq self fcurves ["right_0"%string] PAT1_RIGHT_HAND bone_name));
    cbn [outcome_bind]; [|reflexivity..].
  destruct (lift (make_curve tq self fcurves ["left_0"%string] PAT1_LEFT_HAND bone_name));
    cbn [outcome_bind app]; reflexivity.
Qed.

Lemma make_bone_hand_patterns_witness :
  let cl := mkChannel "pose.bones[pattern_c_n].pat1_left_hand" 0 [mkPoint (0, 3)%Q 0] in
  let cr := mkChannel "pose.bones[pattern_c_n].pat1_right_hand" 0
                      [mkPoint (0, 1)%Q 0; mkPoint (5, 2)%Q 0] in
  make_bone (fun _ => Quaternion_identity) (mkExporter ∅ false) 65538 "pattern_c_n" [cr; cl]
  = Done (mkBone "pattern_c_n"
                 [mkCurve PAT1_RIGHT_HAND (mkGraph [0; 5]%Z (-1))
                          (Patterns [(1, 2); (2, 2)]%Z);
                  mkCurve PAT1_LEFT_HAND (mkGraph [0]%Z (-1)) (Patterns [(3, 3)]%Z)]).
Proof.
  intros cl cr.
  rewrite (make_bone_hand_patterns (fun _ => Quaternion_identity) (mkExporter ∅ false)
             65538 "pattern_c_n" cl cr eq_refl eq_refl eq_refl eq_refl).
  vm_compute. reflexivity.
Defined.

End BonePatterns.
